(** * jacobQWQbot: candle event pipeline and order / position accounting

    A shallow embedding of the Go sources of the trading engine and the
    properties of its specification, module by module:

    - [Queue]  : storage/storage.go, package model, [PriorityQueue]
    - [Ledger] : package order, [summary], [Position.Update], [Controller]
    - [Feed]   : exchange/exchange.go, [parseHeaders], [NewCSVFeed], [resample]
    - [Paper]  : exchange/paperwallet.go, [PaperWallet]
    - [Series], [Trailing] : model/series.go, tools/trailing.go
    - [FeedQueries], [WalletQueries] : the queries of the feed, of the account
      and of the wallet

    Modelling conventions.
    - A Go [float64] is modelled by an exact rational of [Q]: rounding,
      infinities and NaN are outside the model.  Go's [==], [<], [<=] on
      floats become [Qeq_bool], [Qlt_bool] (below) and [Qle_bool].  Where
      a divisor is zero Go yields an infinity or NaN and [Q] yields 0: the
      theorems whose statement depends on a quotient assume its divisor is
      not zero.
    - A Go [int] used as an index or a length is a [nat]; [time.Time] is a [Z]
      (nanoseconds since the Unix epoch, UTC) and [time.Duration] a [Z].
    - A Go map is a [gmap]; reading a missing key yields the zero value, as in
      Go, through [default].
    - A run-time panic (index out of range, nil dereference) is the result
      [None] of an [option]-valued operation.
    - Goroutines, locks, channels and logging are not modelled: every method
      is modelled as the sequential body it runs while holding its lock. *)

From Stdlib Require Import QArith Qminmax Qabs ZArith Lia Lqa Bool.
From stdpp Require Import gmap strings list fin_maps.
From Equations Require Import Equations.

Local Open Scope nat_scope.

(** ** Shared data model (package model) *)

Module Model.

Inductive SideType := SideTypeBuy | SideTypeSell.

Inductive OrderType :=
| OrderTypeLimit
| OrderTypeMarket
| OrderTypeLimitMaker
| OrderTypeStopLoss
| OrderTypeStopLossLimit
| OrderTypeTakeProfit
| OrderTypeTakeProfitLimit.

Inductive OrderStatusType :=
| OrderStatusTypeNew
| OrderStatusTypePartiallyFilled
| OrderStatusTypeFilled
| OrderStatusTypeCanceled
| OrderStatusTypePendingCancel
| OrderStatusTypeRejected
| OrderStatusTypeExpired.

#[global] Instance SideType_eq_dec : EqDecision SideType.
Proof. solve_decision. Defined.
#[global] Instance OrderType_eq_dec : EqDecision OrderType.
Proof. solve_decision. Defined.
#[global] Instance OrderStatusType_eq_dec : EqDecision OrderStatusType.
Proof. solve_decision. Defined.

(** [model.Order]; the [Candle] field, which no modelled code reads, is left
    out.  [Stop] and [GroupID] are Go pointers: [None] is [nil]. *)
Record Order := mkOrder {
  ID : Z;
  ExchangeID : Z;
  Pair : string;
  Side : SideType;
  Type_ : OrderType;
  Status : OrderStatusType;
  Price : Q;
  Quantity : Q;
  CreatedAt : Z;
  UpdatedAt : Z;
  Stop : option Q;
  GroupID : option Z;
  RefPrice : Q;
  Profit : Q;
  ProfitValue : Q
}.

(** Go's [<] on [float64] over the rationals. *)
Definition Qlt_bool (a b : Q) : bool := negb (Qle_bool b a).


(** [model.Candle]; a nil [Metadata] map is the empty map. *)
Record Candle := mkCandle {
  c_Pair : string;
  c_Time : Z;
  c_UpdatedAt : Z;
  c_Open : Q;
  c_Close : Q;
  c_Low : Q;
  c_High : Q;
  c_Volume : Q;
  c_Complete : bool;
  c_Metadata : gmap string Q
}.

Definition zero_candle : Candle := mkCandle "" 0 0 0 0 0 0 0 false ∅.

(** [Candle.Less]: by start time, then by update time, then by pair name.
    The sign of [Time.Sub] is the sign of the difference of the instants. *)
Definition Less (c j : Candle) : bool :=
  let diff := (c_Time j - c_Time c)%Z in
  if (diff <? 0)%Z then false
  else if (0 <? diff)%Z then true
  else
    let diff := (c_UpdatedAt j - c_UpdatedAt c)%Z in
    if (diff <? 0)%Z then false
    else if (0 <? diff)%Z then true
    else String.ltb (c_Pair c) (c_Pair j).

End Model.

(** ** The ordered event queue (storage/storage.go, package model) *)

Module Queue.

Section PriorityQueue.

(** [Item] is the Go interface with the one method [Less]. *)
Context {Item : Type}.
Variable Less : Item -> Item -> bool.

(** [PriorityQueue]: the fields [length] and [data]; the embedded mutex and
    [notifyCallbacks] (goroutines started by [Push]) are not modelled. *)
Record PriorityQueue := mkPriorityQueue {
  q_length : nat;
  q_data : list Item
}.

(** [data[i] = x]: Go panics when [i] is out of range. *)
Definition store (d : list Item) (i : nat) (x : Item) : option (list Item) :=
  if decide (i < length d) then Some (<[i:=x]> d) else None.

(** The loop of [up]; at [pos = S p] the parent [(pos - 1) >> 1] is [p / 2]. *)
Equations? up_loop (item : Item) (d : list Item) (pos : nat) : option (list Item)
  by wf pos lt :=
  up_loop item d 0 := store d 0 item;
  up_loop item d (S p) with d !! (p / 2) => {
    | None := None;
    | Some current with Less item current => {
      | false := store d (S p) item;
      | true with store d (S p) current => {
        | None := None;
        | Some d' := up_loop item d' (p / 2) } } }.
Proof.
  change (p / 2 < S p). apply Nat.lt_succ_r, Nat.Div0.div_le_upper_bound. lia.
Qed.

Definition up (q : PriorityQueue) (pos : nat) : option PriorityQueue :=
  item ← q_data q !! pos;
  d ← up_loop item (q_data q) pos;
  Some {| q_length := q_length q; q_data := d |}.

(** [best = right] exactly when [right < q.length && data[right].Less(data[left])]. *)
Definition pick_right (len : nat) (d : list Item) (pos : nat) : option bool :=
  if decide (2 * pos + 2 < len) then
    r ← d !! (2 * pos + 2);
    l ← d !! (2 * pos + 1);
    Some (Less r l)
  else Some false.

Definition best_of (pos : nat) (use_right : bool) : nat :=
  if use_right then 2 * pos + 2 else 2 * pos + 1.

(** The loop of [down]; [len] is [q.length], which [Pop] has already
    decremented while [data] still has its former extent. *)
Equations? down_loop (len : nat) (item : Item) (d : list Item) (pos : nat)
  : option (list Item) by wf (len - pos) lt :=
  down_loop len item d pos with decide (pos < len / 2) => {
    | right _ := store d pos item;
    | left Hlt with pick_right len d pos => {
      | None := None;
      | Some r with d !! best_of pos r => {
        | None := None;
        | Some b with Less b item => {
          | false := store d pos item;
          | true with store d pos b => {
            | None := None;
            | Some d' := down_loop len item d' (best_of pos r) } } } } }.
Proof.
  clear down_loop. change (pos < len / 2) in Hlt.
  pose proof (Nat.Div0.mul_div_le len 2).
  unfold best_of. destruct r; lia.
Qed.

Definition down (q : PriorityQueue) (pos : nat) : option PriorityQueue :=
  item ← q_data q !! pos;
  d ← down_loop (q_length q) item (q_data q) pos;
  Some {| q_length := q_length q; q_data := d |}.

(** [NewPriorityQueue]: [down(i)] for [i] from [(length >> 1) - 1] down to 0. *)
Definition NewPriorityQueue (data : list Item) : option PriorityQueue :=
  foldl (fun acc i => q ← acc; down q i)
        (Some {| q_length := length data; q_data := data |})
        (rev (seq 0 (length data / 2))).

Definition Push (item : Item) (q : PriorityQueue) : option PriorityQueue :=
  let q1 := {| q_length := S (q_length q); q_data := q_data q ++ [item] |} in
  up q1 (q_length q1 - 1).

(** [q.data[:n]]; a bound beyond the extent of [data] is treated as a panic
    (Go allows it up to the capacity, a case no constructor reaches). *)
Definition reslice (d : list Item) (n : nat) : option (list Item) :=
  if decide (n <= length d) then Some (take n d) else None.

(** [Pop]: the first component is the returned [Item], [None] being Go's
    [nil].  After [q.length--] the source reads [q.data[q.length-1]]. *)
Definition Pop (q : PriorityQueue) : option (option Item * PriorityQueue) :=
  if decide (q_length q = 0) then Some (None, q)
  else
    top ← q_data q !! 0;
    let len' := q_length q - 1 in
    q2 ← (if decide (0 < len') then
            x ← q_data q !! (len' - 1);
            d ← store (q_data q) 0 x;
            down {| q_length := len'; q_data := d |} 0
          else Some {| q_length := len'; q_data := q_data q |});
    d ← reslice (q_data q2) (q_length q2);
    Some (Some top, {| q_length := q_length q2; q_data := d |}).

Definition Peek (q : PriorityQueue) : option (option Item) :=
  if decide (q_length q = 0) then Some None
  else top ← q_data q !! 0; Some (Some top).


(** *** What the queue's specification speaks of *)

(** [a] does not come after [b]: [b] is not [Less] than [a]. *)
Definition leq (a b : Item) : Prop := Less b a = false.
Definition child (i j : nat) : Prop := j = 2 * i + 1 \/ j = 2 * i + 2.
Definition Ord (d : list Item) (i j : nat) : Prop :=
  forall x y, d !! i = Some x -> d !! j = Some y -> leq x y.
Definition heap_from (k len : nat) (d : list Item) : Prop :=
  forall i j, k <= i -> j < len -> child i j -> Ord d i j.
Definition wf (q : PriorityQueue) : Prop := q_length q = length (q_data q).
Definition heap_ordered (q : PriorityQueue) : Prop :=
  heap_from 0 (q_length q) (q_data q).

(** A caller's operations on the queue, and their sequential run: the final
    queue and what each [Pop] returned, in order. *)
Inductive Op := OpPush (x : Item) | OpPop.

Fixpoint run (ops : list Op) (q : PriorityQueue)
  : option (PriorityQueue * list (option Item)) :=
  match ops with
  | [] => Some (q, [])
  | OpPush x :: ops' => q1 ← Push x q; run ops' q1
  | OpPop :: ops' =>
      '(r, q1) ← Pop q;
      '(q2, rs) ← run ops' q1;
      Some (q2, r :: rs)
  end.





(** The invariants of the loops of [up] and [down], stated on the slice with
    the moving item written at [pos]: every parent-child pair is in order but
    the pairs at [pos], whose children are in order with the parent of
    [pos]. *)
Definition up_inv (len pos : nat) (V : list Item) : Prop :=
  (forall i j, j < len -> j <> pos -> child i j -> Ord V i j) /\
  (forall j, j < len -> child pos j -> forall g, child g pos -> Ord V g j).

Definition down_inv (k len pos : nat) (V : list Item) : Prop :=
  (forall i j, k <= i -> i <> pos -> j < len -> child i j -> Ord V i j) /\
  (forall j, j < len -> child pos j -> forall g, k <= g -> child g pos -> Ord V g j).

End PriorityQueue.

End Queue.

(** ** The position ledger and the order controller (package order) *)

Module Ledger.
Import Model.

(** [summary]: the four buckets of realised results, by value and by
    percentage, and the traded volume. *)
Record summary := mkSummary {
  s_Pair : string;
  WinLong : list Q;
  WinLongPercent : list Q;
  WinShort : list Q;
  WinShortPercent : list Q;
  LoseLong : list Q;
  LoseLongPercent : list Q;
  LoseShort : list Q;
  LoseShortPercent : list Q;
  Volume : Q
}.

Definition Win (s : summary) : list Q := WinLong s ++ WinShort s.
Definition WinPercent (s : summary) : list Q := WinLongPercent s ++ WinShortPercent s.
Definition Lose (s : summary) : list Q := LoseLong s ++ LoseShort s.
Definition LosePercent (s : summary) : list Q := LoseLongPercent s ++ LoseShortPercent s.

(** [for _, value := range values { acc += value }] *)
Definition sum_values (values : list Q) : Q :=
  fold_left (fun acc value => acc + value)%Q values 0%Q.

Definition Profit (s : summary) : Q := sum_values (Win s ++ Lose s).

Definition Payoff (s : summary) : Q :=
  let avgWin := sum_values (WinPercent s) in
  let avgLose := sum_values (LosePercent s) in
  if (length (Win s) =? 0) || (length (Lose s) =? 0) || Qeq_bool avgLose 0 then 0%Q
  else ((avgWin / inject_Z (Z.of_nat (length (Win s))))
        / Qabs (avgLose / inject_Z (Z.of_nat (length (Lose s)))))%Q.

Definition ProfitFactor (s : summary) : Q :=
  if length (Lose s) =? 0 then 0%Q
  else (sum_values (WinPercent s) / Qabs (sum_values (LosePercent s)))%Q.

Definition WinPercentage (s : summary) : Q :=
  if length (Win s) + length (Lose s) =? 0 then 0%Q
  else (inject_Z (Z.of_nat (length (Win s)))
        / inject_Z (Z.of_nat (length (Win s) + length (Lose s))) * 100)%Q.

Record Result := mkResult {
  r_Pair : string;
  r_ProfitPercent : Q;
  r_ProfitValue : Q;
  r_Side : SideType;
  r_Duration : Z;
  r_CreatedAt : Z
}.

Record Position := mkPosition {
  p_Side : SideType;
  p_AvgPrice : Q;
  p_Quantity : Q;
  p_CreatedAt : Z
}.

Definition with_profit (o : Order) (profit profitValue : Q) : Order :=
  mkOrder (ID o) (ExchangeID o) (Pair o) (Side o) (Type_ o) (Status o) (Price o)
          (Quantity o) (CreatedAt o) (UpdatedAt o) (Stop o) (GroupID o) (RefPrice o)
          profit profitValue.

(** The price of the fill: the stop price of a stop order ([*order.Stop]
    panics on a nil pointer), the order's price otherwise. *)
Definition fill_price (order : Order) : option Q :=
  match Type_ order with
  | OrderTypeStopLoss | OrderTypeStopLossLimit => Stop order
  | _ => Some (Price order)
  end.

(** [Position.Update]: the position and the order after the call (both are
    mutated through their pointers), the result and [finished]. *)
Definition Update (p : Position) (order : Order)
  : option (Position * Order * option Result * bool) :=
  price ← fill_price order;
  if decide (p_Side p = Side order) then
    let p1 := {| p_Side := p_Side p;
                 p_AvgPrice := ((p_AvgPrice p * p_Quantity p + price * Quantity order)
                                / (p_Quantity p + Quantity order))%Q;
                 p_Quantity := (p_Quantity p + Quantity order)%Q;
                 p_CreatedAt := p_CreatedAt p |} in
    Some (p1, order, None, false)
  else
    let '(p1, finished) :=
      if Qeq_bool (p_Quantity p) (Quantity order) then (p, true)
      else if Qlt_bool (Quantity order) (p_Quantity p) then
        ({| p_Side := p_Side p; p_AvgPrice := p_AvgPrice p;
            p_Quantity := (p_Quantity p - Quantity order)%Q;
            p_CreatedAt := p_CreatedAt p |}, false)
      else
        ({| p_Side := Side order; p_AvgPrice := price;
            p_Quantity := (Quantity order - p_Quantity p)%Q;
            p_CreatedAt := CreatedAt order |}, false) in
    let quantity := Qmin (p_Quantity p1) (Quantity order) in
    let profit := ((price - p_AvgPrice p1) / p_AvgPrice p1)%Q in
    let profitValue := ((price - p_AvgPrice p1) * quantity)%Q in
    let order1 := with_profit order profit profitValue in
    let result := {| r_Pair := Pair order1;
                     r_ProfitPercent := Model.Profit order1;
                     r_ProfitValue := Model.ProfitValue order1;
                     r_Side := p_Side p1;
                     r_Duration := (CreatedAt order1 - p_CreatedAt p1)%Z;
                     r_CreatedAt := CreatedAt order1 |} in
    Some (p1, order1, Some result, finished).

(** [Controller]: the per-pair summaries and positions.  [emitted] records, in
    order, the results that [updatePosition] hands to [notify]; the exchange,
    the storage, the feed and the ticker are collaborators outside the model. *)
Record Controller := mkController {
  Results : gmap string summary;
  position : gmap string Position;
  emitted : list Result
}.

Definition NewController : Controller :=
  {| Results := ∅; position := ∅; emitted := [] |}.

(** [updatePosition]: the message of [notify] evaluates
    [c.Results[o.Pair].String()], a nil dereference when the pair has no
    summary. *)
Definition updatePosition (c : Controller) (o : Order) : option (Controller * Order) :=
  match position c !! Pair o with
  | None =>
      let p := {| p_AvgPrice := Price o; p_Quantity := Quantity o;
                  p_CreatedAt := CreatedAt o; p_Side := Side o |} in
      Some ({| Results := Results c; position := <[Pair o := p]> (position c);
               emitted := emitted c |}, o)
  | Some p =>
      match Update p o with
      | None => None
      | Some (p1, o1, result, closed) =>
          let positions := <[Pair o := p1]> (position c) in
          let positions := if closed then delete (Pair o) positions else positions in
          match result with
          | None => Some ({| Results := Results c; position := positions;
                             emitted := emitted c |}, o1)
          | Some r =>
              _ ← Results c !! Pair o;
              Some ({| Results := Results c; position := positions;
                       emitted := emitted c ++ [r] |}, o1)
          end
      end
  end.

Definition add_volume (s : summary) (v : Q) : summary :=
  mkSummary (s_Pair s) (WinLong s) (WinLongPercent s) (WinShort s) (WinShortPercent s)
            (LoseLong s) (LoseLongPercent s) (LoseShort s) (LoseShortPercent s)
            (Volume s + v)%Q.

Definition empty_summary (pair : string) : summary :=
  mkSummary pair [] [] [] [] [] [] [] [] 0%Q.

Definition processTrade (c : Controller) (order : Order) : option (Controller * Order) :=
  if decide (Status order = OrderStatusTypeFilled) then
    let s := default (empty_summary (Pair order)) (Results c !! Pair order) in
    let s := add_volume s (Price order * Quantity order)%Q in
    updatePosition {| Results := <[Pair order := s]> (Results c);
                      position := position c; emitted := emitted c |} order
  else Some (c, order).

(** The fills of a run of the controller, each routed through [processTrade]. *)
Fixpoint processTrades (c : Controller) (orders : list Order) : option Controller :=
  match orders with
  | [] => Some c
  | o :: orders' => '(c1, _) ← processTrade c o; processTrades c1 orders'
  end.

(** No result has been accrued into the buckets of [s]. *)
Definition no_results (s : summary) : Prop :=
  Win s = [] /\ Lose s = [] /\ WinPercent s = [] /\ LosePercent s = [].

End Ledger.

(** ** The historical resampling feed (exchange/exchange.go, package exchange) *)

Module Feed.
Import Model.

(** The outcome of a call that may return an error or panic. *)
Inductive res (A : Type) :=
| Ok (a : A)
| Failed
| Panic.
Arguments Ok {A} a.
Arguments Failed {A}.
Arguments Panic {A}.

#[global] Instance res_bind : MBind res := fun A B k m =>
  match m with
  | Ok a => k a
  | Failed => Failed
  | Panic => Panic
  end.

(** [v, err := f(...)]: a [None] is the error returned to the caller. *)
Definition or_fail {A} (o : option A) : res A :=
  match o with Some a => Ok a | None => Failed end.

(** [s[i]]: a [None] is the index-out-of-range panic. *)
Definition or_panic {A} (o : option A) : res A :=
  match o with Some a => Ok a | None => Panic end.

(** *** [time.Time] accessors in UTC, over nanoseconds since the epoch *)

Definition second_ns : Z := 1000000000.
Definition Second (t : Z) : Z := ((t / second_ns) mod 60)%Z.
Definition Minute (t : Z) : Z := ((t / (60 * second_ns)) mod 60)%Z.
Definition Hour (t : Z) : Z := ((t / (3600 * second_ns)) mod 24)%Z.
(** Sunday is 0; 1 January 1970 was a Thursday. *)
Definition Weekday (t : Z) : Z := ((t / (86400 * second_ns) + 4) mod 7)%Z.
(** [time.Unix(sec, 0)] *)
Definition Unix (sec : Z) : Z := (sec * second_ns)%Z.

Section WithLibraries.

(** Functions of Go's standard library and of go-str2duration, taken as
    parameters: [strconv.Atoi], [strconv.ParseFloat(_, 64)] and
    [str2duration.ParseDuration] (nanoseconds); [None] is a returned error. *)
Variable Atoi : string -> option Z.
Variable ParseFloat : string -> option Q.
Variable ParseDuration : string -> option Z.

Definition isLastCandlePeriod (t : Z) (fromTimeframe targetTimeframe : string) : res bool :=
  if decide (fromTimeframe = targetTimeframe) then Ok true
  else
    fromDuration ← or_fail (ParseDuration fromTimeframe);
    let next := (t + fromDuration)%Z in
    if decide (targetTimeframe = "1m") then Ok (Second next mod 60 =? 0)%Z
    else if decide (targetTimeframe = "5m") then Ok (Minute next mod 5 =? 0)%Z
    else if decide (targetTimeframe = "10m") then Ok (Minute next mod 10 =? 0)%Z
    else if decide (targetTimeframe = "15m") then Ok (Minute next mod 15 =? 0)%Z
    else if decide (targetTimeframe = "30m") then Ok (Minute next mod 30 =? 0)%Z
    else if decide (targetTimeframe = "1h") then Ok (Minute next mod 60 =? 0)%Z
    else if decide (targetTimeframe = "2h") then
      Ok ((Minute next =? 0)%Z && (Hour next mod 2 =? 0)%Z)
    else if decide (targetTimeframe = "4h") then
      Ok ((Minute next =? 0)%Z && (Hour next mod 4 =? 0)%Z)
    else if decide (targetTimeframe = "12h") then
      Ok ((Minute next =? 0)%Z && (Hour next mod 12 =? 0)%Z)
    else if decide (targetTimeframe = "1d") then
      Ok ((Minute next =? 0)%Z && (Hour next mod 24 =? 0)%Z)
    else if decide (targetTimeframe = "1w") then
      Ok ((Minute next =? 0)%Z && (Hour next mod 24 =? 0)%Z && (Weekday next =? 0)%Z)
    else Failed.

Definition isFistCandlePeriod (t : Z) (fromTimeframe targetTimeframe : string) : res bool :=
  fromDuration ← or_fail (ParseDuration fromTimeframe);
  let prev := (t - fromDuration)%Z in
  isLastCandlePeriod prev fromTimeframe targetTimeframe.

(** The first loop of [resample]: the source bars from the first one that
    opens a target period. *)
Fixpoint skip_to_first (source : list Candle) (sourceTimeframe targetTimeframe : string)
  : res (list Candle) :=
  match source with
  | [] => Ok []
  | candle :: rest =>
      ok ← isFistCandlePeriod (c_Time candle) sourceTimeframe targetTimeframe;
      if (ok : bool) then Ok source
      else skip_to_first rest sourceTimeframe targetTimeframe
  end.

Definition set_complete (c : Candle) (b : bool) : Candle :=
  mkCandle (c_Pair c) (c_Time c) (c_UpdatedAt c) (c_Open c) (c_Close c) (c_Low c)
           (c_High c) (c_Volume c) b (c_Metadata c).

(** The merge of [candle] into the last, incomplete, bar of [candles]. *)
Definition merge (last candle : Candle) : Candle :=
  mkCandle (c_Pair candle) (c_Time last) (c_UpdatedAt candle) (c_Open last)
           (c_Close candle) (Qmin (c_Low last) (c_Low candle))
           (Qmax (c_High last) (c_High candle))
           (c_Volume candle + c_Volume last)%Q
           (c_Complete candle) (c_Metadata candle).

(** The second loop of [resample]; [candles] is the slice built so far. *)
Fixpoint merge_loop (candles : list Candle) (source : list Candle)
  (sourceTimeframe targetTimeframe : string) : res (list Candle) :=
  match source with
  | [] => Ok candles
  | candle :: rest =>
      isLast ← isLastCandlePeriod (c_Time candle) sourceTimeframe targetTimeframe;
      let candle := set_complete candle isLast in
      let candle :=
        match last candles with
        | Some prev => if negb (c_Complete prev) then merge prev candle else candle
        | None => candle
        end in
      merge_loop (candles ++ [candle]) rest sourceTimeframe targetTimeframe
  end.

(** The bars [resample] stores: [candles[len(candles)-1]] panics when no bar
    was produced. *)
Definition resample_candles (source : list Candle) (sourceTimeframe targetTimeframe : string)
  : res (list Candle) :=
  aligned ← skip_to_first source sourceTimeframe targetTimeframe;
  candles ← merge_loop [] aligned sourceTimeframe targetTimeframe;
  final ← or_panic (last candles);
  if negb (c_Complete final) then Ok (take (length candles - 1) candles) else Ok candles.

Record PairFeed := mkPairFeed {
  pf_Pair : string;
  pf_File : string;
  pf_Timeframe : string;
  pf_HeikinAshi : bool
}.

Record CSVFeed := mkCSVFeed {
  Feeds : gmap string PairFeed;
  CandlePairTimeFrame : gmap string (list Candle)
}.

(** [fmt.Sprintf("%s--%s", pair, timeframe)] *)
Definition feedTimeframeKey (pair timeframe : string) : string :=
  pair +:+ "--" +:+ timeframe.

Definition resample (c : CSVFeed) (pair sourceTimeframe targetTimeframe : string)
  : res CSVFeed :=
  let sourceKey := feedTimeframeKey pair sourceTimeframe in
  let targetKey := feedTimeframeKey pair targetTimeframe in
  candles ← resample_candles (default [] (CandlePairTimeFrame c !! sourceKey))
                              sourceTimeframe targetTimeframe;
  Ok {| Feeds := Feeds c;
        CandlePairTimeFrame := <[targetKey := candles]> (CandlePairTimeFrame c) |}.

(** *** Heikin-Ashi conversion (model) *)

Definition Empty (c : Candle) : bool :=
  bool_decide (c_Pair c = "") && Qeq_bool (c_Close c) 0 && Qeq_bool (c_Open c) 0
  && Qeq_bool (c_Volume c) 0.


(** [CalculateHeikinAshi]: the bar and the new [PreviousHACandle]. *)
Definition CalculateHeikinAshi (previous : Candle) (c : Candle) : Candle :=
  let openValue := if Empty previous then c_Open c else c_Open previous in
  let closeValue := if Empty previous then c_Close c else c_Close previous in
  let hkOpen := ((openValue + closeValue) / 2)%Q in
  let hkClose := ((c_Open c + c_High c + c_Low c + c_Close c) / 4)%Q in
  mkCandle "" 0 0 hkOpen hkClose
           (Qmin (c_Low c) (Qmin hkOpen hkClose))
           (Qmax (c_High c) (Qmax hkOpen hkClose))
           0 false ∅.

Definition ToHeikinAshi (c : Candle) (previous : Candle) : Candle * Candle :=
  let ha := CalculateHeikinAshi previous c in
  (mkCandle (c_Pair c) (c_Time c) (c_UpdatedAt c) (c_Open ha) (c_Close ha) (c_Low ha)
            (c_High ha) (c_Volume c) (c_Complete c) ∅, ha).

(** *** Reading the historical-bar file *)

Definition headerMap0 : gmap string nat :=
  <["volume" := 5]> (<["high" := 4]> (<["low" := 3]> (<["close" := 2]>
    (<["open" := 1]> (<["time" := 0]> ∅))))).

(** The loop of [parseHeaders], from column [index] on. *)
Fixpoint parseHeaders_loop (headers : list string) (index : nat)
  (headerMap : gmap string nat) (additional : list string)
  : gmap string nat * list string :=
  match headers with
  | [] => (headerMap, additional)
  | h :: rest =>
      let additional :=
        match headerMap !! h with
        | None => additional ++ [h]
        | Some _ => additional
        end in
      parseHeaders_loop rest (S index) (<[h := index]> headerMap) additional
  end.

Definition parseHeaders (headers : list string)
  : res (gmap string nat * list string * bool) :=
  first ← or_panic (headers !! 0);
  match Atoi first with
  | Some _ => Ok (headerMap0, [], false)
  | None =>
      let '(headerMap, additional) := parseHeaders_loop headers 0 headerMap0 [] in
      Ok (headerMap, additional, true)
  end.

(** [line[headerMap[name]]]: a missing name reads column 0. *)
Definition column (line : list string) (headerMap : gmap string nat) (name : string)
  : res string :=
  or_panic (line !! default 0 (headerMap !! name)).

Fixpoint read_metadata (line : list string) (headerMap : gmap string nat)
  (additional : list string) (metadata : gmap string Q) : res (gmap string Q) :=
  match additional with
  | [] => Ok metadata
  | header :: rest =>
      text ← column line headerMap header;
      match ParseFloat text with
      | Some v => read_metadata line headerMap rest (<[header := v]> metadata)
      | None => Failed
      end
  end.

(** One iteration of the loop over the data rows of [NewCSVFeed]: the candle
    of the row and the Heikin-Ashi state.  The source parses [time] and
    [open]; where it would parse the other fields it has only the comment
    that the parsing of close, low, high and volume repeats the one of open. *)
Definition read_line (feed : PairFeed) (headerMap : gmap string nat)
  (additional : list string) (hasCustomHeaders : bool) (ha : Candle)
  (line : list string) : res (Candle * Candle) :=
  text ← column line headerMap "time";
  timestamp ← or_fail (Atoi text);
  text ← column line headerMap "open";
  open ← or_fail (ParseFloat text);
  metadata ← (if hasCustomHeaders then read_metadata line headerMap additional ∅
               else Ok ∅);
  let candle := mkCandle (pf_Pair feed) (Unix timestamp) (Unix timestamp)
                         open 0 0 0 0 true metadata in
  if pf_HeikinAshi feed then Ok (ToHeikinAshi candle ha) else Ok (candle, ha).

Fixpoint read_lines (feed : PairFeed) (headerMap : gmap string nat)
  (additional : list string) (hasCustomHeaders : bool) (ha : Candle)
  (lines : list (list string)) (candles : list Candle) : res (list Candle) :=
  match lines with
  | [] => Ok candles
  | line :: rest =>
      '(candle, ha) ← read_line feed headerMap additional hasCustomHeaders ha line;
      read_lines feed headerMap additional hasCustomHeaders ha rest (candles ++ [candle])
  end.

(** The body of the loop of [NewCSVFeed] for one feed.  [file] is what
    [os.Open] and [csv.NewReader(csvFile).ReadAll()] give for [feed.File]:
    the records of the file, or [None] for an error of either. *)
Definition load_feed (targetTimeframe : string) (csvFeed : CSVFeed)
  (feed : PairFeed) (file : option (list (list string))) : res CSVFeed :=
  let csvFeed := {| Feeds := <[pf_Pair feed := feed]> (Feeds csvFeed);
                    CandlePairTimeFrame := CandlePairTimeFrame csvFeed |} in
  csvLines ← or_fail file;
  headers ← or_panic (csvLines !! 0);
  parsed ← parseHeaders headers;
  let '(headerMap, additionalHeaders, hasCustomHeaders) :=
    (parsed : gmap string nat * list string * bool) in
  let csvLines := if hasCustomHeaders then drop 1 csvLines else csvLines in
  candles ← read_lines feed headerMap additionalHeaders hasCustomHeaders
                        zero_candle csvLines [];
  let key := feedTimeframeKey (pf_Pair feed) (pf_Timeframe feed) in
  let csvFeed := {| Feeds := Feeds csvFeed;
                    CandlePairTimeFrame := <[key := candles]> (CandlePairTimeFrame csvFeed) |} in
  resample csvFeed (pf_Pair feed) (pf_Timeframe feed) targetTimeframe.

Fixpoint load_feeds (targetTimeframe : string) (csvFeed : CSVFeed)
  (feeds : list (PairFeed * option (list (list string)))) : res CSVFeed :=
  match feeds with
  | [] => Ok csvFeed
  | (feed, file) :: rest =>
      csvFeed ← load_feed targetTimeframe csvFeed feed file;
      load_feeds targetTimeframe csvFeed rest
  end.

Definition NewCSVFeed (targetTimeframe : string)
  (feeds : list (PairFeed * option (list (list string)))) : res CSVFeed :=
  load_feeds targetTimeframe {| Feeds := ∅; CandlePairTimeFrame := ∅ |} feeds.

(** *** What the resampling specification speaks of *)

(** The boundary test as a flag: the bar at [t] closes its target period. *)
Definition closes_period (sourceTimeframe targetTimeframe : string) (c : Candle) : bool :=
  match isLastCandlePeriod (c_Time c) sourceTimeframe targetTimeframe with
  | Ok b => b
  | _ => false
  end.

(** For each source bar, in order, the source bars of its target period up
    to and including it; [open] holds those of the period under way. *)
Fixpoint constituents (closes : Candle -> bool) (open : list Candle) (source : list Candle)
  : list (list Candle) :=
  match source with
  | [] => []
  | c :: rest =>
      let group := open ++ [c] in
      group :: constituents closes (if closes c then [] else group) rest
  end.

Definition is_max (m : Q) (l : list Q) : Prop :=
  (forall x, x ∈ l -> (x <= m)%Q) /\ m ∈ l.

Definition is_min (m : Q) (l : list Q) : Prop :=
  (forall x, x ∈ l -> (m <= x)%Q) /\ m ∈ l.

Definition sum_volume (l : list Candle) : Q :=
  foldr (fun c acc => c_Volume c + acc)%Q 0%Q l.

(** The output bar [bar] aggregates the source bars [group]. *)
Definition aggregates (closes : Candle -> bool) (bar : Candle) (group : list Candle) : Prop :=
  exists first final,
    head group = Some first /\ last group = Some final /\
    c_Time bar = c_Time first /\ c_Open bar = c_Open first /\
    c_Close bar = c_Close final /\ c_Complete bar = closes final /\
    (c_Volume bar == sum_volume group)%Q /\
    is_max (c_High bar) (c_High <$> group) /\
    is_min (c_Low bar) (c_Low <$> group).

(** What [merge_loop] keeps between iterations: the bars built so far
    aggregate their groups, and [open] holds the source bars of the last bar
    when that one is incomplete. *)
Definition carries (sourceTimeframe targetTimeframe : string)
  (candles : list Candle) (open : list Candle) : Prop :=
  match last candles with
  | None => open = []
  | Some prev => if c_Complete prev then open = [] else aggregates (closes_period sourceTimeframe targetTimeframe) prev open
  end.

End WithLibraries.

End Feed.

(** ** The simulated matching engine (exchange/paperwallet.go, package exchange) *)

Module Paper.
Import Model.

(** The sentinel errors of the package, [OrderError], and the values of
    Go's [error] that the wallet returns: a sentinel or an [*OrderError]. *)
Inductive sentinel := ErrInvalidQuantity | ErrInsufficientFunds | ErrInvalidAsset.

Record OrderError := mkOrderError {
  Err : sentinel;
  oe_Pair : string;
  oe_Quantity : Q
}.

Inductive error :=
| Plain (e : sentinel)
| Typed (e : OrderError).

Record assetInfo := mkAssetInfo {
  Free : Q;
  Lock : Q
}.

Record AssetValue := mkAssetValue {
  av_Time : Z;
  av_Value : Q
}.

(** [PaperWallet] without its mutex, context and feeder. *)
Record PaperWallet := mkPaperWallet {
  baseCoin : string;
  counter : Z;
  takerFee : Q;
  makerFee : Q;
  initialValue : Q;
  orders : list Order;
  assets : gmap string assetInfo;
  avgShortPrice : gmap string Q;
  avgLongPrice : gmap string Q;
  volume : gmap string Q;
  lastCandle : gmap string Candle;
  fistCandle : gmap string Candle;
  assetValues : gmap string (list AssetValue);
  equityValues : list AssetValue
}.

Definition set_counter (w : PaperWallet) (v : Z) : PaperWallet :=
  mkPaperWallet (baseCoin w) v (takerFee w) (makerFee w) (initialValue w) (orders w)
    (assets w) (avgShortPrice w) (avgLongPrice w) (volume w) (lastCandle w) (fistCandle w)
    (assetValues w) (equityValues w).
Definition set_orders (w : PaperWallet) (v : list Order) : PaperWallet :=
  mkPaperWallet (baseCoin w) (counter w) (takerFee w) (makerFee w) (initialValue w) v
    (assets w) (avgShortPrice w) (avgLongPrice w) (volume w) (lastCandle w) (fistCandle w)
    (assetValues w) (equityValues w).
Definition set_assets (w : PaperWallet) (v : gmap string assetInfo) : PaperWallet :=
  mkPaperWallet (baseCoin w) (counter w) (takerFee w) (makerFee w) (initialValue w) (orders w)
    v (avgShortPrice w) (avgLongPrice w) (volume w) (lastCandle w) (fistCandle w)
    (assetValues w) (equityValues w).
Definition set_avgShortPrice (w : PaperWallet) (v : gmap string Q) : PaperWallet :=
  mkPaperWallet (baseCoin w) (counter w) (takerFee w) (makerFee w) (initialValue w) (orders w)
    (assets w) v (avgLongPrice w) (volume w) (lastCandle w) (fistCandle w)
    (assetValues w) (equityValues w).
Definition set_avgLongPrice (w : PaperWallet) (v : gmap string Q) : PaperWallet :=
  mkPaperWallet (baseCoin w) (counter w) (takerFee w) (makerFee w) (initialValue w) (orders w)
    (assets w) (avgShortPrice w) v (volume w) (lastCandle w) (fistCandle w)
    (assetValues w) (equityValues w).
Definition set_volume (w : PaperWallet) (v : gmap string Q) : PaperWallet :=
  mkPaperWallet (baseCoin w) (counter w) (takerFee w) (makerFee w) (initialValue w) (orders w)
    (assets w) (avgShortPrice w) (avgLongPrice w) v (lastCandle w) (fistCandle w)
    (assetValues w) (equityValues w).
Definition set_lastCandle (w : PaperWallet) (v : gmap string Candle) : PaperWallet :=
  mkPaperWallet (baseCoin w) (counter w) (takerFee w) (makerFee w) (initialValue w) (orders w)
    (assets w) (avgShortPrice w) (avgLongPrice w) (volume w) v (fistCandle w)
    (assetValues w) (equityValues w).
Definition set_fistCandle (w : PaperWallet) (v : gmap string Candle) : PaperWallet :=
  mkPaperWallet (baseCoin w) (counter w) (takerFee w) (makerFee w) (initialValue w) (orders w)
    (assets w) (avgShortPrice w) (avgLongPrice w) (volume w) (lastCandle w) v
    (assetValues w) (equityValues w).
Definition set_assetValues (w : PaperWallet) (v : gmap string (list AssetValue)) : PaperWallet :=
  mkPaperWallet (baseCoin w) (counter w) (takerFee w) (makerFee w) (initialValue w) (orders w)
    (assets w) (avgShortPrice w) (avgLongPrice w) (volume w) (lastCandle w) (fistCandle w)
    v (equityValues w).
Definition set_equityValues (w : PaperWallet) (v : list AssetValue) : PaperWallet :=
  mkPaperWallet (baseCoin w) (counter w) (takerFee w) (makerFee w) (initialValue w) (orders w)
    (assets w) (avgShortPrice w) (avgLongPrice w) (volume w) (lastCandle w) (fistCandle w)
    (assetValues w) v.

Definition zero_info : assetInfo := mkAssetInfo 0 0.

(** [p.assets[a].Free] and [p.assets[a].Lock] where the entry is known to
    exist; [balance] reads a missing entry as the zero balance, as
    [Account.Balance] does. *)
Definition balance (w : PaperWallet) (a : string) : assetInfo :=
  default zero_info (assets w !! a).
Definition free (w : PaperWallet) (a : string) : Q := Free (balance w a).
Definition lock (w : PaperWallet) (a : string) : Q := Lock (balance w a).

(** [p.assets[a].Free = v] and [p.assets[a].Lock = v], through the pointer
    stored in the map. *)
Definition set_free (w : PaperWallet) (a : string) (v : Q) : PaperWallet :=
  set_assets w (<[a := mkAssetInfo v (lock w a)]> (assets w)).
Definition set_lock (w : PaperWallet) (a : string) (v : Q) : PaperWallet :=
  set_assets w (<[a := mkAssetInfo (free w a) v]> (assets w)).

(** [if _, ok := p.assets[a]; !ok { p.assets[a] = &assetInfo{} }] *)
Definition ensure_asset (w : PaperWallet) (a : string) : PaperWallet :=
  match assets w !! a with
  | Some _ => w
  | None => set_assets w (<[a := zero_info]> (assets w))
  end.

(** What a wallet that only gained zero-balance entries shares with the
    wallet before. *)
Definition untouched (w w' : PaperWallet) : Prop :=
  w' = set_assets w (assets w') /\
  (forall a, balance w' a = balance w a) /\
  (forall a info, assets w !! a = Some info -> assets w' !! a = Some info).

(** [if _, ok := p.volume[pair]; !ok { p.volume[pair] = 0 }] *)
Definition ensure_volume (w : PaperWallet) (pair : string) : PaperWallet :=
  match volume w !! pair with
  | Some _ => w
  | None => set_volume w (<[pair := 0%Q]> (volume w))
  end.

Definition volume_of (w : PaperWallet) (pair : string) : Q := default 0%Q (volume w !! pair).
Definition add_volume (w : PaperWallet) (pair : string) (v : Q) : PaperWallet :=
  set_volume w (<[pair := (volume_of w pair + v)%Q]> (volume w)).

Definition avgShort (w : PaperWallet) (pair : string) : Q :=
  default 0%Q (avgShortPrice w !! pair).
Definition avgLong (w : PaperWallet) (pair : string) : Q :=
  default 0%Q (avgLongPrice w !! pair).
Definition set_avgShort (w : PaperWallet) (pair : string) (v : Q) : PaperWallet :=
  set_avgShortPrice w (<[pair := v]> (avgShortPrice w)).
Definition set_avgLong (w : PaperWallet) (pair : string) (v : Q) : PaperWallet :=
  set_avgLongPrice w (<[pair := v]> (avgLongPrice w)).

Definition last_candle (w : PaperWallet) (pair : string) : Candle :=
  default zero_candle (lastCandle w !! pair).

(** [ID]: the counter after its increment. *)
Definition ID (w : PaperWallet) : Z * PaperWallet :=
  ((counter w + 1)%Z, set_counter w (counter w + 1)%Z).

Section WithTables.

(** [SplitAssetQuote] reads a table embedded from a file that is not part of
    the sources, [strings.ToUpper] is Go's library and
    [common.AmountToLotSize] belongs to go-binance: all three are parameters. *)
Variable SplitAssetQuote : string -> string * string.
Variable ToUpper : string -> string.
Variable AmountToLotSize : Q -> Z -> Q -> Q.

Definition updateAveragePrice (side : SideType) (pair : string) (amount value : Q)
  (w : PaperWallet) : PaperWallet :=
  let '(asset, quote) := SplitAssetQuote pair in
  let actualQty := match assets w !! asset with
                   | Some info => Free info
                   | None => 0%Q
                   end in
  if Qeq_bool actualQty 0 then
    match side with
    | SideTypeBuy => set_avgLong w pair value
    | SideTypeSell => set_avgShort w pair value
    end
  else if Qlt_bool 0 actualQty && bool_decide (side = SideTypeBuy) then
    let positionValue := (avgLong w pair * actualQty)%Q in
    set_avgLong w pair ((positionValue + amount * value) / (actualQty + amount))%Q
  else if Qlt_bool 0 actualQty && bool_decide (side = SideTypeSell) then
    if Qle_bool amount actualQty then w
    else set_avgShort w pair value
  else if Qlt_bool actualQty 0 && bool_decide (side = SideTypeSell) then
    let positionValue := (avgShort w pair * - actualQty)%Q in
    set_avgShort w pair ((positionValue + amount * value) / (- actualQty + amount))%Q
  else if Qlt_bool actualQty 0 && bool_decide (side = SideTypeBuy) then
    if Qle_bool amount (- actualQty) then w
    else set_avgLong w pair value
  else w.

Definition insufficient (pair : string) (amount : Q) : error :=
  Typed {| Err := ErrInsufficientFunds; oe_Pair := pair; oe_Quantity := amount |}.

(** [validateFunds]: the returned error ([None] is [nil]) and the wallet. *)
Definition validateFunds (side : SideType) (pair : string) (amount value : Q) (fill : bool)
  (w : PaperWallet) : option error * PaperWallet :=
  let '(asset, quote) := SplitAssetQuote pair in
  let w := ensure_asset w asset in
  let w := ensure_asset w quote in
  let funds := free w quote in
  match side with
  | SideTypeSell =>
      let funds := if Qlt_bool 0 (free w asset) then (funds + free w asset * value)%Q
                   else funds in
      if Qlt_bool funds (amount * value) then (Some (insufficient pair amount), w)
      else
        let lockedAsset := Qmin (Qmax (free w asset) 0) amount in
        let lockedQuote := ((amount - lockedAsset) * value)%Q in
        let w := set_free w asset (free w asset - lockedAsset)%Q in
        let w := set_free w quote (free w quote - lockedQuote)%Q in
        let w :=
          if fill then
            let w := updateAveragePrice side pair amount value w in
            if Qlt_bool 0 lockedQuote then set_free w asset (free w asset - amount)%Q
            else set_free w quote (free w quote + amount * value)%Q
          else
            let w := set_lock w asset (lock w asset + lockedAsset)%Q in
            set_lock w quote (lock w quote + lockedQuote)%Q in
        (None, w)
  | SideTypeBuy =>
      let liquidShortValue :=
        if Qlt_bool (free w asset) 0 then
          let v := Qabs (free w asset) in
          (2 * v * avgShort w pair - v * value)%Q
        else 0%Q in
      let funds := if Qlt_bool (free w asset) 0 then (funds + liquidShortValue)%Q
                   else funds in
      let amountToBuy := if Qlt_bool (free w asset) 0 then (amount + free w asset)%Q
                         else amount in
      if Qlt_bool funds (amountToBuy * value) then (Some (insufficient pair amount), w)
      else
        let lockedAsset := Qmin (- Qmin (free w asset) 0) amount in
        let lockedQuote := ((amount - lockedAsset) * value - liquidShortValue)%Q in
        let w := set_free w asset (free w asset + lockedAsset)%Q in
        let w := set_free w quote (free w quote - lockedQuote)%Q in
        let w :=
          if fill then
            let w := updateAveragePrice side pair amount value w in
            set_free w asset (free w asset + (amount - lockedAsset))%Q
          else
            let w := set_lock w asset (lock w asset + lockedAsset)%Q in
            set_lock w quote (lock w quote + lockedQuote)%Q in
        (None, w)
  end.

(** *** [OnCandle] *)

Definition with_status (o : Order) (status : OrderStatusType) (updatedAt : Z) : Order :=
  mkOrder (Model.ID o) (ExchangeID o) (Pair o) (Side o) (Type_ o) status (Price o)
          (Quantity o) (CreatedAt o) updatedAt (Stop o) (GroupID o) (RefPrice o)
          (Profit o) (ProfitValue o).

(** [p.orders[i].UpdatedAt = t] and [p.orders[i].Status = status] *)
Definition mark_order (w : PaperWallet) (i : nat) (status : OrderStatusType) (t : Z)
  : PaperWallet :=
  match orders w !! i with
  | Some o => set_orders w (<[i := with_status o status t]> (orders w))
  | None => w
  end.

Definition is_limit_type (t : OrderType) : bool :=
  match t with
  | OrderTypeLimit | OrderTypeLimitMaker | OrderTypeTakeProfit
  | OrderTypeTakeProfitLimit => true
  | _ => false
  end.

Definition is_stop_type (t : OrderType) : bool :=
  match t with
  | OrderTypeStopLossLimit | OrderTypeStopLoss => true
  | _ => false
  end.

(** The price at which a sell order trades on [candle]: [Some None] is the
    [continue] of the loop, [None] the nil dereference of [*order.Stop]. *)
Definition sell_price (order : Order) (candle : Candle) : option (option Q) :=
  if is_limit_type (Type_ order) && Qle_bool (Price order) (c_High candle) then
    Some (Some (Price order))
  else if is_stop_type (Type_ order) then
    stop ← Stop order;
    if Qle_bool (c_Low candle) stop then Some (Some stop) else Some None
  else Some None.

(** The loop over [p.orders] that cancels the first order of the same group
    with another exchange id, from index [j] on. *)
Fixpoint cancel_sibling (os : list Order) (j : nat) (order : Order) (group : Z) (t : Z)
  (w : PaperWallet) : PaperWallet :=
  match os with
  | [] => w
  | groupOrder :: rest =>
      if bool_decide (GroupID groupOrder = Some group)
         && negb (bool_decide (ExchangeID groupOrder = ExchangeID order))
      then mark_order w j OrderStatusTypeCanceled t
      else cancel_sibling rest (S j) order group t w
  end.

(** The buy branch of the loop body: the order at index [i] trades at its
    price.  [p.assets[quote].Lock] is a nil dereference when the quote asset
    has no entry. *)
Definition buy_fill (candle : Candle) (i : nat) (order : Order)
  (asset quote : string) (w : PaperWallet) : option PaperWallet :=
  let w := ensure_asset w asset in
  let w := add_volume w (c_Pair candle) (Price order * Quantity order)%Q in
  let w := mark_order w i OrderStatusTypeFilled (c_Time candle) in
  let w := updateAveragePrice (Side order) (Pair order) (Quantity order) (Price order) w in
  let w := set_free w asset (free w asset + Quantity order)%Q in
  _ ← assets w !! quote;
  Some (set_lock w quote (lock w quote - Price order * Quantity order)%Q).

(** The sell branch of the loop body once the order trades at [orderPrice].
    [p.assets[asset].Lock] is a nil dereference when the base asset has no
    entry. *)
Definition sell_fill (candle : Candle) (i : nat) (order : Order) (orderPrice : Q)
  (asset quote : string) (w : PaperWallet) : option PaperWallet :=
  let w := match GroupID order with
           | Some group => cancel_sibling (orders w) 0 order group (c_Time candle) w
           | None => w
           end in
  let w := ensure_asset w quote in
  let orderVolume := (Quantity order * orderPrice)%Q in
  let w := add_volume w (c_Pair candle) orderVolume in
  let w := mark_order w i OrderStatusTypeFilled (c_Time candle) in
  let w := updateAveragePrice (Side order) (Pair order) (Quantity order) orderPrice w in
  _ ← assets w !! asset;
  let w := set_lock w asset (lock w asset - Quantity order)%Q in
  Some (set_free w quote (free w quote + Quantity order * orderPrice)%Q).

(** The body of the loop of [OnCandle] for the order at index [i]. *)
Definition matchOrder (candle : Candle) (i : nat) (w : PaperWallet) : option PaperWallet :=
  order ← orders w !! i;
  if negb (bool_decide (Pair order = c_Pair candle))
     || negb (bool_decide (Status order = OrderStatusTypeNew))
  then Some w
  else
    let w := ensure_volume w (c_Pair candle) in
    let '(asset, quote) := SplitAssetQuote (Pair order) in
    w ← (if bool_decide (Side order = SideTypeBuy) && Qle_bool (c_Close candle) (Price order)
         then buy_fill candle i order asset quote w
         else Some w);
    if bool_decide (Side order = SideTypeSell) then
      traded ← sell_price order candle;
      match traded with
      | None => Some w
      | Some orderPrice => sell_fill candle i order orderPrice asset quote w
      end
    else Some w.

(** [for i, order := range p.orders]: the indices are those of the slice at
    the start of the loop, the orders are read as the loop reaches them. *)
Fixpoint match_orders (candle : Candle) (indices : list nat) (w : PaperWallet)
  : option PaperWallet :=
  match indices with
  | [] => Some w
  | i :: rest => w ← matchOrder candle i w; match_orders candle rest w
  end.

(** The valuation of one asset when a completed candle arrives: its share of
    the total and its entry in [assetValues]. *)
Definition value_asset (candle : Candle) (w0 : PaperWallet) (asset : string) (info : assetInfo)
  (acc : Q * gmap string (list AssetValue)) : Q * gmap string (list AssetValue) :=
  let '(total, values) := acc in
  let amount := (Free info + Lock info)%Q in
  let pair := ToUpper (asset +:+ baseCoin w0) in
  let close := c_Close (last_candle w0 pair) in
  let total :=
    if Qlt_bool amount 0 then
      let v := Qabs amount in
      (total + (2 * v * avgShort w0 pair - v * close))%Q
    else (total + amount * close)%Q in
  (total,
   <[asset := default [] (values !! asset)
              ++ [{| av_Time := c_Time candle; av_Value := (amount * close)%Q |}]]> values).

(** The equity record of a completed candle.  Go ranges over the map
    [p.assets] in an unspecified order; the model follows the order of
    [map_fold], on which only the grouping of the exact sum depends. *)
Definition record_equity (candle : Candle) (w : PaperWallet) : option PaperWallet :=
  let '(total, values) :=
    map_fold (value_asset candle w) (0%Q, assetValues w) (assets w) in
  let w := set_assetValues w values in
  baseCoinInfo ← assets w !! baseCoin w;
  Some (set_equityValues w
          (equityValues w ++ [{| av_Time := c_Time candle;
                                 av_Value := (total + Lock baseCoinInfo
                                              + Free baseCoinInfo)%Q |}])).

Definition OnCandle (candle : Candle) (w : PaperWallet) : option PaperWallet :=
  let w := set_lastCandle w (<[c_Pair candle := candle]> (lastCandle w)) in
  let w := match fistCandle w !! c_Pair candle with
           | Some _ => w
           | None => set_fistCandle w (<[c_Pair candle := candle]> (fistCandle w))
           end in
  w ← match_orders candle (seq 0 (length (orders w))) w;
  if c_Complete candle then record_equity candle w else Some w.

(** *** Order creation *)

Definition new_order (exchangeID : Z) (w : PaperWallet) (pair : string) (side : SideType)
  (type : OrderType) (status : OrderStatusType) (price quantity : Q)
  (stop : option Q) (group : option Z) (refPrice : Q) : Order :=
  mkOrder 0 exchangeID pair side type status price quantity
          (c_Time (last_candle w pair)) (c_Time (last_candle w pair))
          stop group refPrice 0 0.

(** The result of a creation: the error, or the created orders. *)
Definition CreateOrderOCO (side : SideType) (pair : string) (size price stop stopLimit : Q)
  (w : PaperWallet) : (error + list Order) * PaperWallet :=
  if Qeq_bool size 0 then (inl (Plain ErrInvalidQuantity), w)
  else
    match validateFunds side pair size price false w with
    | (Some err, w) => (inl err, w)
    | (None, w) =>
        let '(groupID, w) := ID w in
        let '(id1, w) := ID w in
        let limitMaker :=
          new_order id1 w pair side OrderTypeLimitMaker OrderStatusTypeNew price size
                    None (Some groupID) (c_Close (last_candle w pair)) in
        let '(id2, w) := ID w in
        let stopOrder :=
          new_order id2 w pair side OrderTypeStopLoss OrderStatusTypeNew stopLimit size
                    (Some stop) (Some groupID) (c_Close (last_candle w pair)) in
        (inr [limitMaker; stopOrder], set_orders w (orders w ++ [limitMaker; stopOrder]))
    end.

Definition CreateOrderLimit (side : SideType) (pair : string) (size limit : Q)
  (w : PaperWallet) : (error + list Order) * PaperWallet :=
  if Qeq_bool size 0 then (inl (Plain ErrInvalidQuantity), w)
  else
    match validateFunds side pair size limit false w with
    | (Some err, w) => (inl err, w)
    | (None, w) =>
        let '(id, w) := ID w in
        let order := new_order id w pair side OrderTypeLimit OrderStatusTypeNew limit size
                               None None 0 in
        (inr [order], set_orders w (orders w ++ [order]))
    end.

Definition CreateOrderStop (pair : string) (size limit : Q)
  (w : PaperWallet) : (error + list Order) * PaperWallet :=
  if Qeq_bool size 0 then (inl (Plain ErrInvalidQuantity), w)
  else
    match validateFunds SideTypeSell pair size limit false w with
    | (Some err, w) => (inl err, w)
    | (None, w) =>
        let '(id, w) := ID w in
        let order := new_order id w pair SideTypeSell OrderTypeStopLossLimit
                               OrderStatusTypeNew limit size (Some limit) None 0 in
        (inr [order], set_orders w (orders w ++ [order]))
    end.

Definition createOrderMarket (side : SideType) (pair : string) (size : Q)
  (w : PaperWallet) : (error + list Order) * PaperWallet :=
  if Qeq_bool size 0 then (inl (Plain ErrInvalidQuantity), w)
  else
    match validateFunds side pair size (c_Close (last_candle w pair)) true w with
    | (Some err, w) => (inl err, w)
    | (None, w) =>
        let w := ensure_volume w pair in
        let w := add_volume w pair (c_Close (last_candle w pair) * size)%Q in
        let '(id, w) := ID w in
        let order := new_order id w pair side OrderTypeMarket OrderStatusTypeFilled
                               (c_Close (last_candle w pair)) size None None 0 in
        (inr [order], set_orders w (orders w ++ [order]))
    end.

Definition CreateOrderMarket (side : SideType) (pair : string) (size : Q)
  (w : PaperWallet) : (error + list Order) * PaperWallet :=
  createOrderMarket side pair size w.

(** [AssetsInfo]: the step size [0.00000001] and the base precision 8. *)
Definition StepSize : Q := 1 # 100000000.
Definition BaseAssetPrecision : Z := 8.

Definition CreateOrderMarketQuote (side : SideType) (pair : string) (quoteQuantity : Q)
  (w : PaperWallet) : (error + list Order) * PaperWallet :=
  let quantity := AmountToLotSize StepSize BaseAssetPrecision
                                  (quoteQuantity / c_Close (last_candle w pair))%Q in
  createOrderMarket side pair quantity w.

(** The order-creation operations of the wallet as one call, with the pair
    and the quantity that the call hands to the quantity check and to
    [validateFunds]. *)
Inductive creation :=
| OCO (side : SideType) (pair : string) (size price stop stopLimit : Q)
| Limit (side : SideType) (pair : string) (size limit : Q)
| StopOrder (pair : string) (size limit : Q)
| Market (side : SideType) (pair : string) (size : Q)
| MarketQuote (side : SideType) (pair : string) (quoteQuantity : Q).

Definition create (c : creation) (w : PaperWallet) : (error + list Order) * PaperWallet :=
  match c with
  | OCO side pr size price stop stopLimit =>
      CreateOrderOCO side pr size price stop stopLimit w
  | Limit side pr size limit => CreateOrderLimit side pr size limit w
  | StopOrder pr size limit => CreateOrderStop pr size limit w
  | Market side pr size => CreateOrderMarket side pr size w
  | MarketQuote side pr quoteQuantity => CreateOrderMarketQuote side pr quoteQuantity w
  end.

Definition creation_pair (c : creation) : string :=
  match c with
  | OCO _ pr _ _ _ _ | Limit _ pr _ _ | StopOrder pr _ _
  | Market _ pr _ | MarketQuote _ pr _ => pr
  end.

Definition creation_quantity (c : creation) (w : PaperWallet) : Q :=
  match c with
  | OCO _ _ size _ _ _ | Limit _ _ size _ | StopOrder _ size _ | Market _ _ size => size
  | MarketQuote _ pr quoteQuantity =>
      AmountToLotSize StepSize BaseAssetPrecision
                      (quoteQuantity / c_Close (last_candle w pr))%Q
  end.

(** The quotient of [CreateOrderMarketQuote] has a non-zero divisor: the
    wallet has received a candle of the pair with a close that is not zero. *)
Definition quotient_defined (c : creation) (w : PaperWallet) : Prop :=
  match c with
  | MarketQuote _ pr _ => ~ (c_Close (last_candle w pr) == 0)%Q
  | _ => True
  end.

End WithTables.

End Paper.

(** ** Inputs of the examples *)

(** Candles of the examples: one-minute ticks that differ in start time and
    pair. *)
Module QueueExamples.
Import Model.


End QueueExamples.

(** Fills used in the examples. *)
Module LedgerExamples.
Import Model Ledger.

Definition fill (side : SideType) (type : OrderType) (price quantity : Q) (t : Z) : Order :=
  mkOrder 0 0 "BTCUSDT" side type OrderStatusTypeFilled price quantity t t None None 0 0 0.

End LedgerExamples.

(** Stand-ins for the library functions on the inputs of the examples:
    decimal numerals for [strconv.Atoi] and [strconv.ParseFloat], and the
    durations of the timeframes the examples use. *)
Module FeedExamples.
Import Model Feed.

Definition digit (a : Ascii.ascii) : option Z :=
  let n := Z.of_nat (Ascii.nat_of_ascii a) in
  if ((48 <=? n) && (n <=? 57))%Z then Some (n - 48)%Z else None.

Fixpoint digits (s : string) (acc : Z) : option Z :=
  match s with
  | EmptyString => Some acc
  | String a s' => d ← digit a; digits s' (acc * 10 + d)%Z
  end.

Definition Atoi (s : string) : option Z :=
  match s with
  | EmptyString => None
  | _ => digits s 0
  end.

Definition ParseFloat (s : string) : option Q := inject_Z <$> Atoi s.

Definition ParseDuration (s : string) : option Z :=
  if decide (s = "1m") then Some (60 * second_ns)%Z
  else if decide (s = "5m") then Some (300 * second_ns)%Z
  else if decide (s = "1h") then Some (3600 * second_ns)%Z
  else None.

(** A one-minute source bar starting [minute] minutes after the epoch. *)
Definition bar (minute : Z) (o c l h v : Q) : Candle :=
  mkCandle "BTCUSDT" (Unix (minute * 60)) (Unix (minute * 60)) o c l h v true ∅.

Definition minute_bars : list Candle :=
  [bar 0 10 11 9 12 1; bar 1 11 12 10 13 2; bar 2 12 13 11 14 3; bar 3 13 14 12 15 4;
   bar 4 14 15 13 16 5; bar 5 15 16 14 17 6; bar 6 16 17 15 18 7].

(** The records of a file with a header row, one extra column and one data
    row. *)
Definition btc_file : list (list string) :=
  [["time"; "open"; "close"; "low"; "high"; "volume"; "rsi"];
   ["60"; "1"; "2"; "3"; "4"; "5"; "7"]].

Definition btc_feed : PairFeed := mkPairFeed "BTCUSDT" "btc.csv" "1m" false.

Definition minute_feed : CSVFeed :=
  {| Feeds := ∅; CandlePairTimeFrame := {[ "BTCUSDT--1m" := minute_bars ]} |}.

End FeedExamples.

(** Stand-ins for the tables on the inputs of the examples. *)
Module PaperExamples.
Import Model Paper.

Definition SplitAssetQuote (pair : string) : string * string :=
  if decide (pair = "BTCUSDT") then ("BTC", "USDT") else ("", "").

Definition ToUpper (s : string) : string := s.

(** No rounding to the lot size. *)
Definition AmountToLotSize (lot : Q) (precision : Z) (amount : Q) : Q := amount.

(** A wallet holding [usdt] USDT and [btc] BTC, after a candle that closed at
    [close]. *)
Definition wallet (usdt btc close : Q) : PaperWallet :=
  {| baseCoin := "USDT"; counter := 0; takerFee := 0; makerFee := 0;
     initialValue := usdt; orders := [];
     assets := <["BTC" := mkAssetInfo btc 0]> (<["USDT" := mkAssetInfo usdt 0]> ∅);
     avgShortPrice := ∅; avgLongPrice := ∅; volume := ∅;
     lastCandle := <["BTCUSDT" := mkCandle "BTCUSDT" 0 0 close close close close 0 true ∅]> ∅;
     fistCandle := ∅; assetValues := ∅; equityValues := [] |}.

Definition candle (t : Z) (o c l h : Q) : Candle :=
  mkCandle "BTCUSDT" t t o c l h 1 false ∅.

(** [NewPaperWallet(ctx, "USDT", WithPaperAsset("USDT", usdt))] *)
Definition new_wallet (usdt : Q) : PaperWallet :=
  {| baseCoin := "USDT"; counter := 0; takerFee := 0; makerFee := 0;
     initialValue := usdt; orders := [];
     assets := <["USDT" := mkAssetInfo usdt 0]> ∅;
     avgShortPrice := ∅; avgLongPrice := ∅; volume := ∅;
     lastCandle := ∅; fistCandle := ∅; assetValues := ∅; equityValues := [] |}.

(** A wallet with 1 BTC and a resting sell stop for it at 90, and the order. *)
Definition stop_wallet : PaperWallet :=
  snd (CreateOrderStop SplitAssetQuote "BTCUSDT" 1 90 (wallet 0 1 100)).

Definition stop_order : Order :=
  mkOrder 0 1 "BTCUSDT" SideTypeSell OrderTypeStopLossLimit OrderStatusTypeNew 90 1 0 0
          (Some 90%Q) None 0 0 0.

(** A wallet with 1000 USDT and a resting buy limit for 1 BTC at 100, and the
    order. *)
Definition limit_wallet : PaperWallet :=
  snd (CreateOrderLimit SplitAssetQuote SideTypeBuy "BTCUSDT" 1 100 (wallet 1000 0 100)).

Definition limit_order : Order :=
  mkOrder 0 1 "BTCUSDT" SideTypeBuy OrderTypeLimit OrderStatusTypeNew 100 1 0 0
          None None 0 0 0.

Definition statuses (w : PaperWallet) : list OrderStatusType := Status <$> orders w.

(** An OCO pair created on [w], then the candle [c]: the statuses of the
    orders before and after the candle, the two balances and the volume. *)
Definition after_oco (side : SideType) (w : PaperWallet) (size price stop stopLimit : Q)
  (c : Candle) :=
  let '(r, w1) := CreateOrderOCO SplitAssetQuote side "BTCUSDT" size price stop stopLimit w in
  w2 ← OnCandle SplitAssetQuote ToUpper c w1;
  Some (statuses w1, statuses w2, balance w2 "USDT", balance w2 "BTC",
        volume_of w2 "BTCUSDT").

End PaperExamples.

(** ** Series (model/series.go), for [T = float64] *)

Module Series.
Import Model.

Definition Values (s : list Q) : list Q := s.

Definition Lenght (s : list Q) : nat := length s.

(** [s[len(s)-1-position]]: [None] is the index-out-of-range panic, for a
    negative [position] as for one that is not below the length. *)
Definition Last (s : list Q) (position : Z) : option Q :=
  let i := (Z.of_nat (length s) - 1 - position)%Z in
  if (i <? 0)%Z then None else s !! Z.to_nat i.

(** [s[l-size:]] panics when [size] is negative: the low bound is above the
    length. *)
Definition LastValues (s : list Q) (size : Z) : option (list Q) :=
  let l := Z.of_nat (length s) in
  if (size <? l)%Z then
    if (size <? 0)%Z then None else Some (drop (Z.to_nat (l - size)) s)
  else Some s.

(** [&&] evaluates its right operand only when the left one is true. *)
Definition Crossover (s ref : list Q) : option bool :=
  s0 ← Last s 0;
  r0 ← Last ref 0;
  if Qlt_bool r0 s0 then
    s1 ← Last s 1;
    r1 ← Last ref 1;
    Some (Qle_bool s1 r1)
  else Some false.

Definition Crossunder (s ref : list Q) : option bool :=
  s0 ← Last s 0;
  r0 ← Last ref 0;
  if Qle_bool s0 r0 then
    s1 ← Last s 1;
    r1 ← Last ref 1;
    Some (Qlt_bool r1 s1)
  else Some false.

(** [||] evaluates its right operand only when the left one is false. *)
Definition Cross (s ref : list Q) : option bool :=
  over ← Crossover s ref;
  if (over : bool) then Some true else Crossunder s ref.

End Series.

(** ** Trailing stop (tools/trailing.go) *)

Module Trailing.
Import Model.

Record TrailingStop := mkTrailingStop {
  current : Q;
  stop : Q;
  active : bool
}.

Definition NewTrailingStop : TrailingStop := mkTrailingStop 0 0 false.

Definition Start (t : TrailingStop) (current stop : Q) : TrailingStop :=
  mkTrailingStop current stop true.

Definition Stop (t : TrailingStop) : TrailingStop :=
  mkTrailingStop (current t) (stop t) false.

Definition Active (t : TrailingStop) : bool := active t.

(** [Update]: the returned flag and the trailing stop after the call. *)
Definition Update (t : TrailingStop) (price : Q) : bool * TrailingStop :=
  if negb (active t) then (false, t)
  else if Qlt_bool (current t) price then
    (false, mkTrailingStop price (stop t + (price - current t))%Q (active t))
  else (Qle_bool price (stop t), mkTrailingStop price (stop t) (active t)).

(** Successive calls of [Update], one per price: the flags and the final
    state. *)
Fixpoint Updates (t : TrailingStop) (prices : list Q) : list bool * TrailingStop :=
  match prices with
  | [] => ([], t)
  | price :: rest =>
      let '(b, t) := Update t price in
      let '(bs, t) := Updates t rest in
      (b :: bs, t)
  end.

End Trailing.

(** ** Queries on the historical feed (exchange/exchange.go) *)

Module FeedQueries.
Import Model Feed.

(** [c.CandlePairTimeFrame[key]]: the empty slice for a missing key. *)
Definition candles_of (c : CSVFeed) (key : string) : list Candle :=
  default [] (CandlePairTimeFrame c !! key).

(** The loop of [CandlesByPeriod]; [candles] is the slice built so far. *)
Fixpoint period_loop (source candles : list Candle) (start finish : Z) : list Candle :=
  match source with
  | [] => candles
  | candle :: rest =>
      if (c_Time candle <? start)%Z || (finish <? c_Time candle)%Z
      then period_loop rest candles start finish
      else period_loop rest (candles ++ [candle]) start finish
  end.

Definition CandlesByPeriod (c : CSVFeed) (pair timeframe : string) (start finish : Z)
  : list Candle :=
  period_loop (candles_of c (feedTimeframeKey pair timeframe)) [] start finish.

(** [CandlesByLimit]: the returned candles and the feed after the call.
    [Failed] is [ErrInsufficientData], which leaves the feed as it is;
    [Panic] is the slice-bounds panic of [[:limit]] for a negative limit. *)
Definition CandlesByLimit (c : CSVFeed) (pair timeframe : string) (limit : Z)
  : res (list Candle * CSVFeed) :=
  let key := feedTimeframeKey pair timeframe in
  if (Z.of_nat (length (candles_of c key)) <? limit)%Z then Failed
  else if (limit <? 0)%Z then Panic
  else
    Ok (take (Z.to_nat limit) (candles_of c key),
        {| Feeds := Feeds c;
           CandlePairTimeFrame :=
             <[key := drop (Z.to_nat limit) (candles_of c key)]> (CandlePairTimeFrame c) |}).

(** [CandlesSubscription]: the candles sent on the channel before it is
    closed, in order. *)
Definition CandlesSubscription (c : CSVFeed) (pair timeframe : string) : list Candle :=
  candles_of c (feedTimeframeKey pair timeframe).

(** The body of the loop of [Limit] for one series; [candles[len(candles)-1]]
    panics on an empty series. *)
Definition limit_candles (duration : Z) (candles : list Candle) : option (list Candle) :=
  final ← last candles;
  let start := (c_Time final - duration)%Z in
  Some (filter (fun candle => (start < c_Time candle)%Z) candles).

(** [Limit] ranges over all the series of the feed and panics when one of
    them is empty. *)
Definition Limit (c : CSVFeed) (duration : Z) : res CSVFeed :=
  if decide (map_Forall (fun _ candles => length candles <> 0) (CandlePairTimeFrame c))
  then Ok {| Feeds := Feeds c;
             CandlePairTimeFrame :=
               (fun candles => default [] (limit_candles duration candles))
                 <$> CandlePairTimeFrame c |}
  else Panic.

(** *** Keys of the live feed ([DataFeedSubscription]) *)

(** [fmt.Sprintf("%s--%s", pair, timeframe)] *)
Definition feedKey (pair timeframe : string) : string :=
  pair +:+ "--" +:+ timeframe.

(** The byte is the dash of the separator. *)
Definition is_dash (a : Ascii.ascii) : bool := bool_decide (String a "" = "-").

(** [strings.Split(s, "--")], the parts between the successive leftmost
    occurrences of the separator; [part] holds the characters of the part
    under way. *)
Fixpoint Split_dashes (s : string) (part : string) : list string :=
  match s with
  | EmptyString => [part]
  | String a s' =>
      match s' with
      | String b s'' =>
          if is_dash a && is_dash b then part :: Split_dashes s'' ""
          else Split_dashes s' (part +:+ String a "")
      | EmptyString => [part +:+ String a ""]
      end
  end.

(** [parts[0], parts[1]]: a key without separator panics. *)
Definition pairTimeframeFromKey (key : string) : option (string * string) :=
  let parts := Split_dashes key "" in
  pair ← parts !! 0;
  timeframe ← parts !! 1;
  Some (pair, timeframe).

Fixpoint dashless (s : string) : bool :=
  match s with
  | EmptyString => true
  | String a s' => negb (is_dash a) && dashless s'
  end.

End FeedQueries.

(** ** Accounts (model/order.go) and queries on the paper wallet
    (exchange/paperwallet.go) *)

Module WalletQueries.
Import Model Paper.

Record Balance := mkBalance {
  b_Asset : string;
  b_Free : Q;
  b_Lock : Q;
  b_Leverage : Q
}.

Definition zero_balance : Balance := mkBalance "" 0 0 0.

(** The loop of [Account.Balance]: the [switch] on the asset of the balance
    takes its first matching case, and the loop stops once both balances
    were set. *)
Fixpoint Balance_loop (balances : list Balance) (assetTick quoteTick : string)
  (assetBalance quoteBalance : Balance) (isSetAsset isSetQuote : bool) : Balance * Balance :=
  match balances with
  | [] => (assetBalance, quoteBalance)
  | balance :: rest =>
      let '(assetBalance, quoteBalance, isSetAsset, isSetQuote) :=
        if decide (b_Asset balance = assetTick)
        then (balance, quoteBalance, true, isSetQuote)
        else if decide (b_Asset balance = quoteTick)
        then (assetBalance, balance, isSetAsset, true)
        else (assetBalance, quoteBalance, isSetAsset, isSetQuote) in
      if isSetAsset && isSetQuote then (assetBalance, quoteBalance)
      else Balance_loop rest assetTick quoteTick assetBalance quoteBalance
                        isSetAsset isSetQuote
  end.

(** [Account.Balance] on the balances of the account. *)
Definition AccountBalance (balances : list Balance) (assetTick quoteTick : string)
  : Balance * Balance :=
  Balance_loop balances assetTick quoteTick zero_balance zero_balance false false.

(** [Account.Equity] *)
Definition Equity (balances : list Balance) : Q :=
  fold_left (fun total balance => (total + b_Free balance + b_Lock balance)%Q) balances 0%Q.

(** [PaperWallet.Account]: one balance per entry of [p.assets].  Go ranges
    over the map in an unspecified order; the model lists the entries in the
    order of [map_to_list], and what is proved of the account is proved of
    every reordering of it. *)
Definition Account (w : PaperWallet) : list Balance :=
  (fun entry => mkBalance (fst entry) (Free (snd entry)) (Lock (snd entry)) 0)
    <$> map_to_list (assets w).

(** [PaperWallet.Cancel]: the status of every order with the exchange id of
    [order] is set to canceled; nothing else is written. *)
Definition Cancel (order : Order) (w : PaperWallet) : PaperWallet :=
  set_orders w
    ((fun o => if bool_decide (ExchangeID o = ExchangeID order)
               then with_status o OrderStatusTypeCanceled (UpdatedAt o)
               else o) <$> orders w).

(** [PaperWallet.Order]: the first order with the exchange id, whatever the
    pair; [None] is the error [order not found]. *)
Definition FindOrder (id : Z) (w : PaperWallet) : option Order :=
  List.find (fun o => bool_decide (ExchangeID o = id)) (orders w).

Section WithTables.
Variable SplitAssetQuote : string -> string * string.

(** [PaperWallet.Position] on the balances that [Account] returned. *)
Definition Position (balances : list Balance) (pair : string) : Q * Q :=
  let '(assetTick, quoteTick) := SplitAssetQuote pair in
  let '(assetBalance, quoteBalance) := AccountBalance balances assetTick quoteTick in
  ((b_Free assetBalance + b_Lock assetBalance)%Q,
   (b_Free quoteBalance + b_Lock quoteBalance)%Q).

End WithTables.









(** What the order book keeps: the exchange ids do not exceed the counter
    and no two orders share one. *)
Definition ids_fresh (w : PaperWallet) : Prop :=
  Forall (fun o => (ExchangeID o <= counter w)%Z) (orders w) /\
  NoDup (ExchangeID <$> orders w).

(** The fields of the wallet that only [ID] and the order book write. *)
Definition same_book (w w' : PaperWallet) : Prop :=
  orders w' = orders w /\ counter w' = counter w /\ lastCandle w' = lastCandle w /\
  volume w' = volume w.

(** The base coin is the same and the asset table keeps the entries it has. *)
Definition keeps_entries (w w' : PaperWallet) : Prop :=
  baseCoin w' = baseCoin w /\
  forall a, is_Some (assets w !! a) -> is_Some (assets w' !! a).


End WalletQueries.
(** A wallet whose equity records hold the given values, at the instants 0,
    1, 2, ... *)
Module WalletExamples.
Import Model Paper PaperExamples.


End WalletExamples.

(** * Properties *)

Module ModelProofs.
Import Model.

Lemma Qlt_bool_iff (a b : Q) : Qlt_bool a b = true <-> (a < b)%Q.
Proof.
  unfold Qlt_bool. rewrite negb_true_iff.
  split.
  - intros H. apply Qnot_le_lt. intros Hle. apply Qle_bool_iff in Hle. congruence.
  - intros H. destruct (Qle_bool b a) eqn:E; [|reflexivity].
    apply Qle_bool_iff in E. exfalso. exact (Qlt_not_le _ _ H E).
Qed.

Lemma string_compare_lt_trans : forall a b c : string,
  String.compare a b = Lt -> String.compare b c = Lt -> String.compare a c = Lt.
Proof.
  induction a as [|x a IH]; intros [|y b] [|z c]; simpl; try done.
  unfold Ascii.compare.
  destruct (N.compare_spec (Ascii.N_of_ascii x) (Ascii.N_of_ascii y)) as [Exy|Lxy|Gxy];
    try done;
  destruct (N.compare_spec (Ascii.N_of_ascii y) (Ascii.N_of_ascii z)) as [Eyz|Lyz|Gyz];
    try done; intros H1 H2.
  - rewrite Exy, Eyz, N.compare_refl. by apply (IH b c).
  - rewrite Exy. by apply N.compare_lt_iff in Lyz as ->.
  - rewrite <- Eyz. by apply N.compare_lt_iff in Lxy as ->.
  - assert (Ascii.N_of_ascii x < Ascii.N_of_ascii z)%N as Hlt by lia.
    by apply N.compare_lt_iff in Hlt as ->.
Qed.

Lemma string_ltb_asym (a b : string) : String.ltb a b = true -> String.ltb b a = false.
Proof.
  unfold String.ltb. rewrite (String.compare_antisym a b).
  by destruct (String.compare b a).
Qed.

Lemma string_ltb_negtrans (a b c : string) :
  String.ltb b a = false -> String.ltb c b = false -> String.ltb c a = false.
Proof.
  unfold String.ltb. intros Hba Hcb.
  destruct (String.compare c a) eqn:Eca; try done. exfalso.
  destruct (String.compare b a) eqn:Eba; try done.
  - apply String.compare_eq_iff in Eba as ->. by rewrite Eca in Hcb.
  - assert (Eab : String.compare a b = Lt).
    { rewrite String.compare_antisym, Eba. done. }
    by rewrite (string_compare_lt_trans c a b Eca Eab) in Hcb.
Qed.

Lemma Less_asym (a b : Candle) : Less a b = true -> Less b a = false.
Proof.
  unfold Less.
  repeat (match goal with
          | |- context [(?x <? ?y)%Z] => destruct (Z.ltb_spec x y)
          end); try done; try lia.
  apply string_ltb_asym.
Qed.

Lemma Less_negtrans (a b c : Candle) :
  Less b a = false -> Less c b = false -> Less c a = false.
Proof.
  unfold Less.
  repeat (match goal with
          | |- context [(?x <? ?y)%Z] => destruct (Z.ltb_spec x y)
          end); try done; try lia.
  apply string_ltb_negtrans.
Qed.

End ModelProofs.

Module QueueProofs.
Import Queue.
Section Heap.
Context {Item : Type}.
Variable Less : Item -> Item -> bool.
Hypothesis Less_asym : forall a b, Less a b = true -> Less b a = false.
Hypothesis Less_negtrans :
  forall a b c, Less b a = false -> Less c b = false -> Less c a = false.

Local Abbreviation leq := (leq Less).
Local Abbreviation up_inv := (up_inv Less).
Local Abbreviation down_inv := (down_inv Less).
Local Abbreviation Ord := (Ord Less).
Local Abbreviation heap_from := (heap_from Less).

Lemma le_refl a : leq a a.
Proof. unfold Queue.leq. destruct (Less a a) eqn:E; [|done]. by rewrite (Less_asym _ _ E) in E. Qed.

Lemma le_trans a b c : leq a b -> leq b c -> leq a c.
Proof. unfold Queue.leq. intros H1 H2. exact (Less_negtrans a b c H1 H2). Qed.

Lemma lt_le a b : Less a b = true -> leq a b.
Proof. apply Less_asym. Qed.

Lemma child_S_half p : child (p / 2) (S p).
Proof.
  unfold child. pose proof (Nat.div_mod_eq p 2).
  pose proof (Nat.mod_upper_bound p 2). lia.
Qed.

Lemma child_parent i p : child i (S p) -> i = p / 2.
Proof.
  unfold child. intros H.
  destruct H as [H|H].
  - apply (Nat.div_unique p 2 i 0); lia.
  - apply (Nat.div_unique p 2 i 1); lia.
Qed.

Lemma child_pos i j : child i j -> i < j.
Proof. unfold child. lia. Qed.

Lemma store_Some (d : list Item) i x : i < length d -> store d i x = Some (<[i:=x]> d).
Proof. intros H. unfold store. by rewrite decide_True. Qed.


Ltac lk :=
  repeat first
    [ rewrite list_lookup_insert_eq by (rewrite ?length_insert; lia)
    | rewrite list_lookup_insert_ne by lia ].

Lemma up_loop_spec item : forall pos d,
  pos < length d ->
  up_inv (length d) pos (<[pos:=item]> d) ->
  exists d', up_loop Less item d pos = Some d' /\
             d' ≡ₚ <[pos:=item]> d /\
             heap_from 0 (length d) d'.
Proof.
  induction pos as [pos IH] using lt_wf_ind. intros d Hpos [Ha Hb].
  destruct pos as [|p].
  - simp up_loop. rewrite store_Some by done. eexists; split; [done|]. split; [done|].
    intros i j _ Hj Hc. apply Ha; [done| |done]. apply child_pos in Hc. lia.
  - simp up_loop.
    assert (Hpar : p / 2 < S p).
    { pose proof (child_pos _ _ (child_S_half p)). lia. }
    destruct (lookup_lt_is_Some_2 d (p / 2)) as [current Hcur]; [lia|].
    assert (HVpar : (<[S p := item]> d) !! (p / 2) = Some current) by (by lk).
    assert (HVpos : (<[S p := item]> d) !! (S p) = Some item) by (by lk).
    rewrite Hcur. simpl.
    destruct (Less item current) eqn:Elt; simpl.
    + rewrite store_Some by done. simpl.
      set (d1 := <[S p := current]> d).
      assert (HV1 : <[p / 2 := item]> d1 ≡ₚ <[S p := item]> d).
      { unfold d1.
        rewrite <- (list_insert_insert_eq d (S p) current item).
        by apply Permutation_insert_swap. }
      assert (Hlen1 : length d1 = length d) by (unfold d1; by rewrite length_insert).
      destruct (IH (p / 2) Hpar d1) as (d' & Heq & Hperm & Hheap).
      * lia.
      * rewrite Hlen1. unfold d1. split.
        -- intros i j Hj Hne Hc x y.
           pose proof (child_pos _ _ Hc) as Hij.
           destruct (decide (j = S p)) as [->|Ej].
           ++ apply child_parent in Hc. subst i. lk. intros [= <-] [= <-]. by apply lt_le.
           ++ destruct (decide (i = p / 2)) as [->|Ei].
              ** lk. intros [= <-] Hy. apply le_trans with current; [by apply lt_le|].
                 apply (Ha (p / 2) j Hj Ej Hc); [done|by lk].
              ** destruct (decide (i = S p)) as [->|Ei2].
                 --- lk. intros [= <-] Hy.
                     apply (Hb j Hj Hc (p / 2) (child_S_half p)); [done|by lk].
                 --- lk. intros Hx Hy. apply (Ha i j Hj Ej Hc); by lk.
        -- intros j Hj Hc g Hg x y.
           pose proof (child_pos _ _ Hc). pose proof (child_pos _ _ Hg).
           assert (Hgp : Ord (<[S p:=item]> d) g (p / 2)) by (apply Ha; [lia|lia|done]).
           destruct (decide (j = S p)) as [->|Ej].
           ++ lk. intros Hx [= <-]. apply Hgp; [by lk|done].
           ++ lk. intros Hx Hy. apply le_trans with current.
              ** apply Hgp; [by lk|done].
              ** apply (Ha (p / 2) j Hj Ej Hc); [done|by lk].
      * exists d'. split; [exact Heq|]. split.
        -- by rewrite Hperm.
        -- by rewrite <- Hlen1.
    + rewrite store_Some by done. eexists; split; [done|]. split; [done|].
      intros i j _ Hj Hc. destruct (decide (j = S p)) as [->|Hne].
      * apply child_parent in Hc. subst i. intros x y. rewrite HVpar, HVpos.
        intros [= <-] [= <-]. exact Elt.
      * by apply Ha.
Qed.


Lemma half_lt pos len : pos < len / 2 -> 2 * pos + 1 < len.
Proof. intros H. pose proof (Nat.Div0.mul_div_le len 2). lia. Qed.

Lemma half_ge pos len : ~ pos < len / 2 -> len <= 2 * pos + 1.
Proof. intros H. pose proof (Nat.mul_succ_div_gt len 2). lia. Qed.

Lemma pick_right_spec len (d : list Item) pos :
  pos < len / 2 -> len <= length d ->
  exists r b, pick_right Less len d pos = Some r /\
              d !! best_of pos r = Some b /\
              child pos (best_of pos r) /\ best_of pos r < len /\
              forall j y, j < len -> child pos j -> d !! j = Some y -> leq b y.
Proof.
  intros Hh Hlen. apply half_lt in Hh. unfold pick_right.
  destruct (lookup_lt_is_Some_2 d (2 * pos + 1)) as [l Hl]; [lia|].
  case_decide as Hr.
  - destruct (lookup_lt_is_Some_2 d (2 * pos + 2)) as [r Hrv]; [lia|].
    rewrite Hrv, Hl. simpl. exists (Less r l).
    destruct (Less r l) eqn:E; simpl.
    + exists r. repeat split; [done|right; done|lia|].
      intros j y Hj [->| ->] Hy.
      * rewrite Hl in Hy. injection Hy as <-. by apply lt_le.
      * rewrite Hrv in Hy. injection Hy as <-. apply le_refl.
    + exists l. repeat split; [done|left; done|lia|].
      intros j y Hj [->| ->] Hy.
      * rewrite Hl in Hy. injection Hy as <-. apply le_refl.
      * rewrite Hrv in Hy. injection Hy as <-. exact E.
  - exists false, l. simpl. repeat split; [done|left; done|lia|].
    intros j y Hj [->| ->] Hy; [|lia].
    rewrite Hl in Hy. injection Hy as <-. apply le_refl.
Qed.

Lemma child_unique i i' j : child i j -> child i' j -> i = i'.
Proof. unfold child. lia. Qed.

Lemma down_loop_spec item k len : forall n pos d,
  n = len - pos ->
  k <= pos -> pos < length d -> len <= length d ->
  down_inv k len pos (<[pos:=item]> d) ->
  exists d', down_loop Less len item d pos = Some d' /\
             d' ≡ₚ <[pos:=item]> d /\
             heap_from k len d' /\
             (forall i, len <= i -> d' !! i = (<[pos:=item]> d) !! i).
Proof.
  induction n as [n IH] using lt_wf_ind. intros pos d Hn Hk Hpos Hlen [Ha Hb].
  simp down_loop. destruct (decide (pos < len / 2)) as [Hh|Hh]; simpl.
  - destruct (pick_right_spec len d pos Hh Hlen) as (r & b & Hpick & Hbest & Hcb & Hbl & Hmin).
    rewrite Hpick. simpl. rewrite Hbest. simpl.
    pose proof (child_pos _ _ Hcb) as Hpb.
    destruct (Less b item) eqn:Elt; simpl.
    + rewrite store_Some by done. simpl.
      set (best := best_of pos r) in *.
      set (d1 := <[pos := b]> d).
      assert (Hlen1 : length d1 = length d) by (unfold d1; by rewrite length_insert).
      assert (HV1 : <[best := item]> d1 ≡ₚ <[pos := item]> d).
      { unfold d1. rewrite <- (list_insert_insert_eq d pos b item).
        apply Permutation_insert_swap; by lk. }
      destruct (IH (len - best) ltac:(lia) best d1 eq_refl) as (d' & Heq & Hperm & Hheap & Hframe).
      * lia.
      * lia.
      * lia.
      * unfold d1. split.
        -- intros i j Hi Hne Hj Hc x y.
           pose proof (child_pos _ _ Hc) as Hij.
           destruct (decide (i = pos)) as [->|Ei].
           ++ destruct (decide (j = best)) as [->|Ej].
              ** lk. intros [= <-] [= <-]. by apply lt_le.
              ** lk. intros [= <-] Hy. by apply (Hmin j y).
           ++ destruct (decide (j = best)) as [->|Ej].
              ** exfalso. apply Ei. by apply (child_unique i pos best).
              ** destruct (decide (j = pos)) as [->|Ej2].
                 --- lk. intros Hx [= <-].
                     apply (Hb best Hbl Hcb i Hi Hc); by lk.
                 --- lk. intros Hx Hy. apply (Ha i j Hi Ei Hj Hc); by lk.
        -- intros j Hj Hc g Hg Hcg x y.
           pose proof (child_pos _ _ Hc).
           assert (g = pos) as -> by (by apply (child_unique g pos best)).
           lk. intros [= <-] Hy.
           apply (Ha best j ltac:(lia) ltac:(lia) Hj Hc); by lk.
      * exists d'. split; [exact Heq|]. split; [by rewrite Hperm|]. split; [done|].
        intros i Hi. rewrite Hframe by done. unfold d1. by lk.
    + rewrite store_Some by done. eexists; split; [done|]. split; [done|].
      split; [|done].
      intros i j Hi Hj Hc. destruct (decide (i = pos)) as [->|Ei].
      * intros x y. pose proof (child_pos _ _ Hc). lk. intros [= <-] Hy.
        apply le_trans with b; [exact Elt|]. by apply (Hmin j y).
      * by apply Ha.
  - rewrite store_Some by done. eexists; split; [done|]. split; [done|].
    split; [|done].
    intros i j Hi Hj Hc. destruct (decide (i = pos)) as [->|Ei].
    + apply half_ge in Hh. unfold child in Hc. lia.
    + by apply Ha.
Qed.

Local Abbreviation wf := (wf (Item:=Item)).
Local Abbreviation heap_ordered := (heap_ordered Less).

Lemma Push_spec x q :
  wf q -> heap_ordered q ->
  exists q', Push Less x q = Some q' /\ wf q' /\ heap_ordered q' /\
             q_length q' = S (q_length q) /\ q_data q' ≡ₚ q_data q ++ [x].
Proof.
  destruct q as [len d]. unfold Queue.wf, Queue.heap_ordered, Push, up. simpl.
  intros -> Hheap. rewrite Nat.sub_0_r.
  assert (Hx : (d ++ [x]) !! length d = Some x).
  { rewrite lookup_app_r by lia. by rewrite Nat.sub_diag. }
  rewrite Hx. simpl.
  assert (HV : <[length d := x]> (d ++ [x]) = d ++ [x]) by (by apply list_insert_id).
  destruct (up_loop_spec x (length d) (d ++ [x])) as (d' & Heq & Hperm & Hh).
  - rewrite length_app. simpl. lia.
  - rewrite HV, length_app. simpl. split.
    + intros i j Hj Hne Hc a b. pose proof (child_pos _ _ Hc).
      rewrite !lookup_app_l by lia. apply Hheap; [lia|lia|done].
    + intros j Hj Hc. apply child_pos in Hc. lia.
  - rewrite Heq. simpl. eexists; split; [done|]. simpl.
    rewrite HV in Hperm. rewrite length_app in Hh. simpl in Hh.
    repeat split.
    + rewrite Hperm, length_app. simpl. lia.
    + by rewrite Nat.add_1_r in Hh.
    + done.
Qed.

Lemma root_min len (d : list Item) x :
  heap_from 0 len d -> len <= length d -> d !! 0 = Some x ->
  forall j y, j < len -> d !! j = Some y -> leq x y.
Proof.
  intros Hheap Hlen Hx. induction j as [j IH] using lt_wf_ind. intros y Hj Hy.
  destruct j as [|p].
  - rewrite Hx in Hy. injection Hy as <-. apply le_refl.
  - pose proof (child_S_half p) as Hc. pose proof (child_pos _ _ Hc).
    destruct (lookup_lt_is_Some_2 d (p / 2)) as [z Hz]; [lia|].
    apply le_trans with z.
    + apply (IH (p / 2)); [lia|lia|done].
    + apply (Hheap (p / 2) (S p)); [lia|done|done|done|done].
Qed.

Lemma elem_of_insert_inv (l : list Item) i x y :
  y ∈ <[i:=x]> l -> y = x \/ y ∈ l.
Proof.
  intros [j Hj]%list_elem_of_lookup.
  destruct (decide (i = j)) as [->|Hne].
  - left. pose proof (lookup_lt_Some _ _ _ Hj) as Hlt. rewrite length_insert in Hlt.
    rewrite list_lookup_insert_eq in Hj by done. by injection Hj.
  - right. rewrite list_lookup_insert_ne in Hj by done.
    apply list_elem_of_lookup. eauto.
Qed.

Lemma Pop_empty q : q_length q = 0 -> Pop Less q = Some (None, q).
Proof. intros H. unfold Pop. by rewrite decide_True. Qed.

Lemma Pop_spec q :
  wf q -> heap_ordered q -> q_length q <> 0 ->
  exists top q', Pop Less q = Some (Some top, q') /\
                 q_data q !! 0 = Some top /\
                 wf q' /\ heap_ordered q' /\
                 q_length q' = q_length q - 1 /\
                 (forall x, x ∈ q_data q' -> x ∈ q_data q).
Proof.
  destruct q as [len d]. unfold Queue.wf, Queue.heap_ordered, Pop. simpl.
  intros -> Hheap Hne. rewrite decide_False by done.
  destruct (lookup_lt_is_Some_2 d 0) as [top Htop]; [lia|].
  rewrite Htop. simpl. exists top.
  case_decide as Hlen'.
  - destruct (lookup_lt_is_Some_2 d (length d - 1 - 1)) as [x Hx]; [lia|].
    rewrite Hx. simpl. rewrite store_Some by lia. simpl.
    unfold down. simpl.
    set (d0 := <[0:=x]> d).
    assert (Hl0 : length d0 = length d) by (unfold d0; by rewrite length_insert).
    assert (H0 : d0 !! 0 = Some x) by (unfold d0; by lk).
    rewrite H0. simpl.
    assert (HV : <[0:=x]> d0 = d0) by (unfold d0; by rewrite list_insert_insert_eq).
    destruct (down_loop_spec x 0 (length d - 1) (length d - 1 - 0) 0 d0 eq_refl)
      as (d' & Heq & Hperm & Hh & Hframe).
    + lia.
    + lia.
    + lia.
    + rewrite HV. split.
      * intros i j _ Hi Hj Hc a b. pose proof (child_pos _ _ Hc).
        unfold d0. lk. apply Hheap; [lia|lia|done].
      * intros j _ _ g _ Hc. apply child_pos in Hc. lia.
    + rewrite Heq. simpl. rewrite HV in Hperm.
      assert (Hl' : length d' = length d) by (by rewrite Hperm).
      unfold reslice. rewrite decide_True by lia. simpl.
      eexists; split; [done|]. simpl. split; [done|].
      split; [rewrite length_take; lia|]. split; [|split; [done|]].
      * intros i j _ Hj Hc a b. pose proof (child_pos _ _ Hc).
        rewrite !lookup_take_lt by lia. apply Hh; [lia|done|done].
      * intros y Hy. apply list_elem_of_lookup in Hy as [i Hi].
        pose proof (lookup_lt_Some _ _ _ Hi) as Hlt. rewrite length_take in Hlt.
        rewrite lookup_take_lt in Hi by lia.
        assert (Hin : y ∈ d0).
        { rewrite <- Hperm. apply list_elem_of_lookup. eauto. }
        apply elem_of_insert_inv in Hin as [->|Hin]; [|done].
        apply list_elem_of_lookup. eauto.
  - simpl. unfold reslice. rewrite decide_True by lia. simpl.
    eexists; split; [done|]. simpl. split; [done|].
    assert (length d - 1 = 0) as -> by lia. simpl.
    repeat split.
    + intros i j _ Hj. lia.
    + intros y Hy. by apply elem_of_nil in Hy.
Qed.

Lemma down_spec q i :
  wf q -> i < q_length q / 2 ->
  heap_from (S i) (q_length q) (q_data q) ->
  exists q', down Less q i = Some q' /\ wf q' /\ q_length q' = q_length q /\
             heap_from i (q_length q) (q_data q') /\ q_data q' ≡ₚ q_data q.
Proof.
  destruct q as [len d]. unfold Queue.wf, down. simpl. intros -> Hi Hh.
  pose proof (half_lt _ _ Hi) as Hi'.
  destruct (lookup_lt_is_Some_2 d i) as [item Hitem]; [lia|].
  rewrite Hitem. simpl.
  assert (HV : <[i:=item]> d = d) by (by apply list_insert_id).
  destruct (down_loop_spec item i (length d) (length d - i) i d eq_refl)
    as (d' & Heq & Hperm & Hheap & _); [lia|lia|lia| |].
  - rewrite HV. split.
    + intros a b Ha Hne Hb Hc. apply Hh; [lia|done|done].
    + intros j _ _ g Hg Hc. apply child_pos in Hc. lia.
  - rewrite Heq. simpl. rewrite HV in Hperm. eexists; split; [done|]. simpl.
    repeat split; [by rewrite Hperm|done|done].
Qed.

Lemma heapify_spec : forall m q,
  wf q -> m <= q_length q / 2 ->
  heap_from m (q_length q) (q_data q) ->
  exists q', foldl (fun acc i => q ← acc; down Less q i) (Some q) (rev (seq 0 m)) = Some q' /\
             wf q' /\ q_length q' = q_length q /\
             heap_ordered q' /\ q_data q' ≡ₚ q_data q.
Proof.
  induction m as [|m IH]; intros q Hwf Hm Hh.
  - simpl. exists q. by repeat split.
  - rewrite seq_S, rev_app_distr. simpl.
    destruct (down_spec q m Hwf ltac:(lia) Hh) as (q1 & Hd & Hwf1 & Hl1 & Hh1 & Hp1).
    rewrite Hd.
    destruct (IH q1 Hwf1) as (q' & Hf & Hwf' & Hl' & Hh' & Hp').
    + rewrite Hl1. lia.
    + by rewrite Hl1.
    + exists q'. split; [done|]. repeat split; [done|lia|done|by rewrite Hp'].
Qed.

Lemma NewPriorityQueue_spec data :
  exists q, NewPriorityQueue Less data = Some q /\ wf q /\ heap_ordered q /\
            q_length q = length data /\ q_data q ≡ₚ data.
Proof.
  unfold NewPriorityQueue.
  destruct (heapify_spec (length data / 2) {| q_length := length data; q_data := data |})
    as (q & Hf & Hwf & Hl & Hh & Hp); cbn [q_length q_data] in *; [done|done| |].
  - intros i j Hi Hj Hc. pose proof (Nat.mul_succ_div_gt (length data) 2).
    unfold child in Hc. lia.
  - exists q. by repeat split.
Qed.

Lemma wf_empty q : wf q -> q_length q = 0 -> q_data q = [].
Proof. unfold Queue.wf. intros H H0. rewrite H0 in H. by destruct (q_data q). Qed.



(** On a queue that satisfies the heap invariant, [Pop] and [Peek] return
    the root, which no element of the queue precedes; on the empty queue both
    return the nil sentinel and [Pop] leaves the queue as it is. *)
Theorem Pop_returns_root (q : PriorityQueue) :
  wf q -> heap_ordered q ->
  (q_length q = 0 -> Pop Less q = Some (None, q) /\ Peek q = Some None) /\
  (q_length q <> 0 ->
   exists top q', Pop Less q = Some (Some top, q') /\ Peek q = Some (Some top) /\
                  q_data q !! 0 = Some top /\
                  forall x, x ∈ q_data q -> leq top x).
Proof.
  intros Hwf Hh. split.
  - intros H0. split; [by apply Pop_empty|]. unfold Peek. by rewrite decide_True.
  - intros Hne.
    destruct (Pop_spec q Hwf Hh Hne) as (top & q' & Hpop & Htop & _).
    exists top, q'. split; [done|]. split; [|split; [done|]].
    + unfold Peek. rewrite decide_False by done. by rewrite Htop.
    + intros x [k Hk]%list_elem_of_lookup.
      apply (root_min (q_length q) (q_data q) top Hh ltac:(by rewrite Hwf) Htop k x);
        [|done].
      rewrite Hwf. by apply lookup_lt_Some in Hk.
Qed.

(** [NewPriorityQueue] and [Push] return a queue that satisfies the heap
    invariant and holds exactly the elements they were given. *)
Theorem Push_keeps_elements (data : list Item) (x : Item) :
  exists q0 q1,
    NewPriorityQueue Less data = Some q0 /\ heap_ordered q0 /\ q_data q0 ≡ₚ data /\
    Push Less x q0 = Some q1 /\ heap_ordered q1 /\ q_data q1 ≡ₚ x :: data.
Proof.
  destruct (NewPriorityQueue_spec data) as (q0 & Hnew & Hwf0 & Hh0 & _ & Hp0).
  destruct (Push_spec x q0 Hwf0 Hh0) as (q1 & Hpush & _ & Hh1 & _ & Hp1).
  exists q0, q1. repeat split; try done.
  by rewrite Hp1, Hp0, Permutation_app_comm.
Qed.


End Heap.

Lemma ltb_asym (a b : nat) : Nat.ltb a b = true -> Nat.ltb b a = false.
Proof. rewrite Nat.ltb_lt, Nat.ltb_ge. lia. Qed.

Lemma ltb_negtrans (a b c : nat) :
  Nat.ltb b a = false -> Nat.ltb c b = false -> Nat.ltb c a = false.
Proof. rewrite !Nat.ltb_ge. lia. Qed.

Import QueueExamples.


Lemma Pop_returns_root_witness :
  exists top q',
    Pop Nat.ltb (mkPriorityQueue 3 [1; 2; 3]) = Some (Some top, q') /\
    Peek (mkPriorityQueue 3 [1; 2; 3]) = Some (Some top) /\
    q_data (mkPriorityQueue 3 [1; 2; 3]) !! 0 = Some top /\
    forall x, x ∈ q_data (mkPriorityQueue 3 [1; 2; 3]) -> leq Nat.ltb top x.
Proof.
  assert (Hh : heap_ordered Nat.ltb (mkPriorityQueue 3 [1; 2; 3])).
  { intros i j _ Hj Hc x y Hx Hy. unfold child in Hc. cbn in Hj.
    assert (i = 0) as -> by lia.
    destruct Hc as [-> | ->]; cbn in Hx, Hy; injection Hx as <-; injection Hy as <-;
      reflexivity. }
  destruct (Pop_returns_root Nat.ltb ltb_asym ltb_negtrans
              (mkPriorityQueue 3 [1; 2; 3]) eq_refl Hh) as [_ H].
  apply H. discriminate.
Defined.

Lemma Push_keeps_elements_witness :
  exists q0 q1,
    NewPriorityQueue Nat.ltb [3; 1; 2] = Some q0 /\ heap_ordered Nat.ltb q0 /\
    q_data q0 ≡ₚ [3; 1; 2] /\
    Push Nat.ltb 0 q0 = Some q1 /\ heap_ordered Nat.ltb q1 /\
    q_data q1 ≡ₚ [0; 3; 1; 2].
Proof.
  exact (Push_keeps_elements Nat.ltb ltb_asym ltb_negtrans [3; 1; 2] 0).
Defined.

(** C3 at failing inputs.  Three pushes of 1, 2, 3 into the empty queue give
    the heap [1; 2; 3].  [Pop] returns the root 1 and leaves [2; 2]: after
    [q.length--] it moves [q.data[q.length-1]], the element before the last
    one, to the root, so that 3 is lost and 2 is held twice.  On the heap
    [1; 2] it returns 1 and leaves [1]: 2 is lost and the popped element
    stays. *)
Theorem Pop_moves_wrong_element :
  run Nat.ltb [OpPush 1; OpPush 2; OpPush 3] (mkPriorityQueue 0 [])
    = Some (mkPriorityQueue 3 [1; 2; 3], []) /\
  Pop Nat.ltb (mkPriorityQueue 3 [1; 2; 3]) = Some (Some 1, mkPriorityQueue 2 [2; 2]) /\
  Pop Nat.ltb (mkPriorityQueue 2 [1; 2]) = Some (Some 1, mkPriorityQueue 1 [1]).
Proof. repeat split; reflexivity. Qed.

End QueueProofs.

Module LedgerProofs.
Import Model ModelProofs Ledger LedgerExamples.

(** C1 at failing inputs.  A long position of 10 at an average of 100
    receives a sell of 15 at 90: [Update] flips the position to the short
    {90, 5} first and computes the result from the flipped position, so the
    one result it emits reports a profit of 0 % and 0 on the sell side over a
    duration of 0, where the ledger rule closes 10 units at -10 % (-100) on
    the long side.  The same position receives a sell of 8 at 110: the
    quantity is reduced to 2 first, and the result reports 20 = (110 - 100) *
    min (2, 8) where the rule gives 80 = (110 - 100) * min (10, 8). *)
Theorem Update_computes_after_mutation :
  Update (mkPosition SideTypeBuy 100 10 0) (fill SideTypeSell OrderTypeMarket 90 15 7)
  = Some (mkPosition SideTypeSell 90 5 7,
          with_profit (fill SideTypeSell OrderTypeMarket 90 15 7) (0 # 90) 0,
          Some (mkResult "BTCUSDT" (0 # 90) 0 SideTypeSell 0 7),
          false) /\
  Update (mkPosition SideTypeBuy 100 10 0) (fill SideTypeSell OrderTypeMarket 110 8 7)
  = Some (mkPosition SideTypeBuy 100 2 0,
          with_profit (fill SideTypeSell OrderTypeMarket 110 8 7) (10 # 100) 20,
          Some (mkResult "BTCUSDT" (10 # 100) 20 SideTypeBuy 7 7),
          false).
Proof. split; vm_compute; reflexivity. Qed.

(** Where the quantities are equal the position is not mutated before the
    result is computed: the result carries the profit over the average held
    before the fill and the whole quantity, and the position is finished. *)
Lemma Update_close (p : Position) (o : Order) (price : Q) :
  ~ (p_AvgPrice p == 0)%Q ->
  p_Side p <> Side o -> fill_price o = Some price ->
  Qeq_bool (p_Quantity p) (Quantity o) = true ->
  exists o' r,
    Update p o = Some (p, o', Some r, true) /\
    r_ProfitPercent r = ((price - p_AvgPrice p) / p_AvgPrice p)%Q /\
    r_ProfitValue r = ((price - p_AvgPrice p) * Qmin (p_Quantity p) (Quantity o))%Q /\
    r_Side r = p_Side p /\
    r_Duration r = (CreatedAt o - p_CreatedAt p)%Z.
Proof.
  intros _ Hside Hprice Hq. unfold Update. rewrite Hprice. simpl.
  rewrite decide_False by done. rewrite Hq. eexists _, _. split; [reflexivity|]. done.
Qed.

(** Every flip reports no profit: the result is computed against the average
    price that the flip has just set to the price of the fill. *)
Lemma Update_flip (p : Position) (o : Order) (price : Q) :
  ~ (price == 0)%Q ->
  p_Side p <> Side o -> fill_price o = Some price ->
  (p_Quantity p < Quantity o)%Q ->
  exists o' r,
    Update p o = Some (mkPosition (Side o) price (Quantity o - p_Quantity p) (CreatedAt o),
                       o', Some r, false) /\
    (r_ProfitPercent r == 0)%Q /\ (r_ProfitValue r == 0)%Q /\
    r_Side r = Side o /\ r_Duration r = 0%Z.
Proof.
  intros _ Hside Hprice Hq. unfold Update. rewrite Hprice. simpl.
  rewrite decide_False by done.
  assert (Qeq_bool (p_Quantity p) (Quantity o) = false) as ->.
  { destruct (Qeq_bool _ _) eqn:E; [|done]. apply Qeq_bool_iff in E.
    rewrite E in Hq. by apply Qlt_irrefl in Hq. }
  assert (Qlt_bool (Quantity o) (p_Quantity p) = false) as ->.
  { destruct (Qlt_bool _ _) eqn:E; [|done]. apply Qlt_bool_iff in E.
    exfalso. apply (Qlt_irrefl (Quantity o)). by apply Qlt_trans with (p_Quantity p). }
  assert (H0 : (price - price == 0)%Q) by ring.
  eexists _, _. split; [reflexivity|]. simpl. repeat split.
  - unfold Qdiv. rewrite H0. ring.
  - rewrite H0. ring.
  - lia.
Qed.

(** A filled order leaves the four buckets of every summary empty: only the
    volume of the pair is accrued. *)
Lemma processTrade_buckets c o c' o' :
  processTrade c o = Some (c', o') ->
  (forall pair s, Results c !! pair = Some s -> no_results s) ->
  forall pair s, Results c' !! pair = Some s -> no_results s.
Proof.
  unfold processTrade. case_decide as Hst; [|by intros [= <- <-]].
  set (s0 := add_volume _ _).
  intros H Hall.
  assert (Hs0 : no_results s0).
  { unfold s0. destruct (Results c !! Pair o) as [s1|] eqn:E; simpl.
    - apply Hall in E. destruct s1. exact E.
    - done. }
  assert (Hres : Results c' = <[Pair o := s0]> (Results c)).
  { unfold updatePosition in H. simpl in H.
    destruct (position c !! Pair o) as [p|]; [|by injection H as <- _].
    destruct (Update p o) as [[[[p1 o1] [r|]] closed]|]; simpl in H; [| |done].
    - rewrite lookup_insert_eq in H. simpl in H. by injection H as <- _.
    - by injection H as <- _. }
  intros pair s. rewrite Hres. destruct (decide (Pair o = pair)) as [<-|Hne].
  - rewrite lookup_insert_eq. by intros [= <-].
  - rewrite lookup_insert_ne by done. apply Hall.
Qed.

(** From summaries with empty buckets, the [Profit] of every summary is 0
    after any sequence of orders, whatever the ledger emitted. *)
Lemma processTrades_buckets : forall orders c c',
  processTrades c orders = Some c' ->
  (forall pair s, Results c !! pair = Some s -> no_results s) ->
  forall pair s, Results c' !! pair = Some s -> Profit s = 0%Q.
Proof.
  induction orders as [|o orders IH]; intros c c' H Hall pair s Hs; simpl in H.
  - injection H as <-. destruct (Hall pair s Hs) as (Hw & Hl & _).
    unfold Profit. by rewrite Hw, Hl.
  - destruct (processTrade c o) as [[c1 o1]|] eqn:E; simpl in H; [|done].
    apply (IH c1 c' H (processTrade_buckets c o c1 o1 E Hall) pair s Hs).
Qed.

Lemma Update_close_witness :
  exists o' r,
    Update (mkPosition SideTypeBuy 100 10 0) (fill SideTypeSell OrderTypeMarket 110 10 7)
      = Some (mkPosition SideTypeBuy 100 10 0, o', Some r, true) /\
    r_ProfitPercent r = ((110 - 100) / 100)%Q /\
    r_ProfitValue r = ((110 - 100) * Qmin 10 10)%Q /\
    r_Side r = SideTypeBuy /\
    r_Duration r = (7 - 0)%Z.
Proof.
  apply (Update_close (mkPosition SideTypeBuy 100 10 0)
                      (fill SideTypeSell OrderTypeMarket 110 10 7) 110%Q);
    [discriminate|discriminate|reflexivity|reflexivity].
Defined.

Lemma Update_flip_witness :
  exists o' r,
    Update (mkPosition SideTypeBuy 100 10 0) (fill SideTypeSell OrderTypeMarket 90 15 7)
      = Some (mkPosition SideTypeSell 90 (15 - 10) 7, o', Some r, false) /\
    (r_ProfitPercent r == 0)%Q /\ (r_ProfitValue r == 0)%Q /\
    r_Side r = SideTypeSell /\ r_Duration r = 0%Z.
Proof.
  apply (Update_flip (mkPosition SideTypeBuy 100 10 0)
                     (fill SideTypeSell OrderTypeMarket 90 15 7) 90%Q);
    [discriminate|discriminate|reflexivity|reflexivity].
Defined.

Lemma processTrades_buckets_witness :
  exists c s,
    processTrades NewController
      [fill SideTypeBuy OrderTypeMarket 100 10 1; fill SideTypeSell OrderTypeMarket 110 10 7]
    = Some c /\
    Results c !! "BTCUSDT" = Some s /\
    Profit s = 0%Q.
Proof.
  destruct (processTrades NewController
              [fill SideTypeBuy OrderTypeMarket 100 10 1;
               fill SideTypeSell OrderTypeMarket 110 10 7]) as [c|] eqn:E;
    [|by vm_compute in E].
  assert (Hs : is_Some (Results c !! "BTCUSDT")).
  { pose proof E as E'. vm_compute in E'. injection E' as <-. vm_compute. by eexists. }
  destruct Hs as [s Hs]. exists c, s. split; [done|]. split; [done|].
  apply (processTrades_buckets _ NewController c E) with (pair := "BTCUSDT"); [|done].
  intros pair s0 H. simpl in H. by rewrite lookup_empty in H.
Defined.

(** C2 at a failing input.  A buy of 10 at 100 and a sell of 10 at 110 are
    routed through [processTrade]: the ledger emits one result with a
    realised profit of 100, the summary of the pair has accrued the volume of
    the two fills, and its [Profit] is 0: no bucket received the result. *)
Theorem summary_profit_misses_results :
  exists c s,
    processTrades NewController
      [fill SideTypeBuy OrderTypeMarket 100 10 1; fill SideTypeSell OrderTypeMarket 110 10 7]
    = Some c /\
    r_ProfitValue <$> emitted c = [100%Q] /\
    Results c !! "BTCUSDT" = Some s /\
    Volume s = 2100%Q /\ Win s = [] /\ Lose s = [] /\
    Profit s = 0%Q.
Proof. eexists _, _. vm_compute. repeat split; reflexivity. Qed.

End LedgerProofs.

Module FeedProofs.
Import Model Feed.

Lemma Qmax_cases (a b : Q) : Qmax a b = a \/ Qmax a b = b.
Proof. unfold Qmax, GenericMinMax.gmax. destruct (a ?= b)%Q; auto. Qed.

Lemma Qmin_cases (a b : Q) : Qmin a b = a \/ Qmin a b = b.
Proof. unfold Qmin, GenericMinMax.gmin. destruct (a ?= b)%Q; auto. Qed.

Lemma is_max_snoc m l x : is_max m l -> is_max (Qmax m x) (l ++ [x]).
Proof.
  intros [Hub Hin]. split.
  - intros y Hy. apply elem_of_app in Hy as [Hy|Hy].
    + apply Qle_trans with m; [by apply Hub|apply Q.le_max_l].
    + apply list_elem_of_singleton in Hy as ->. apply Q.le_max_r.
  - apply elem_of_app. destruct (Qmax_cases m x) as [-> | ->].
    + by left.
    + right. by apply list_elem_of_singleton.
Qed.

Lemma is_min_snoc m l x : is_min m l -> is_min (Qmin m x) (l ++ [x]).
Proof.
  intros [Hlb Hin]. split.
  - intros y Hy. apply elem_of_app in Hy as [Hy|Hy].
    + apply Qle_trans with m; [apply Q.le_min_l|by apply Hlb].
    + apply list_elem_of_singleton in Hy as ->. apply Q.le_min_r.
  - apply elem_of_app. destruct (Qmin_cases m x) as [-> | ->].
    + by left.
    + right. by apply list_elem_of_singleton.
Qed.

Lemma is_max_singleton x : is_max x [x].
Proof.
  split.
  - intros y Hy. apply list_elem_of_singleton in Hy as ->. apply Qle_refl.
  - by apply list_elem_of_singleton.
Qed.

Lemma is_min_singleton x : is_min x [x].
Proof.
  split.
  - intros y Hy. apply list_elem_of_singleton in Hy as ->. apply Qle_refl.
  - by apply list_elem_of_singleton.
Qed.

Lemma sum_volume_snoc l c : (sum_volume (l ++ [c]) == c_Volume c + sum_volume l)%Q.
Proof.
  induction l as [|a l IH]; simpl.
  - ring.
  - rewrite IH. ring.
Qed.

Section Resample.
Variable ParseDuration : string -> option Z.
Variables sourceTimeframe targetTimeframe : string.

Local Abbreviation closes := (closes_period ParseDuration sourceTimeframe targetTimeframe).
Local Abbreviation aggregates := (aggregates closes).

Local Abbreviation carries := (carries ParseDuration sourceTimeframe targetTimeframe).

Lemma aggregates_start c b :
  closes c = b -> aggregates (set_complete c b) [c].
Proof.
  intros Hb. exists c, c. simpl. repeat split; try done.
  - unfold sum_volume. simpl. ring.
  - apply is_max_singleton.
  - apply is_max_singleton.
  - apply is_min_singleton.
  - apply is_min_singleton.
Qed.

Lemma aggregates_merge prev open c b :
  closes c = b -> aggregates prev open ->
  aggregates (merge prev (set_complete c b)) (open ++ [c]).
Proof.
  intros Hb (first & final & Hhd & Hlast & Ht & Ho & Hc & Hcomp & Hv & Hmax & Hmin).
  exists first, c. simpl. repeat split.
  - destruct open; [done|]. by simpl in *.
  - by rewrite last_snoc.
  - done.
  - done.
  - done.
  - rewrite sum_volume_snoc, Hv. reflexivity.
  - rewrite fmap_app. simpl. by apply is_max_snoc.
  - rewrite fmap_app. simpl. apply is_max_snoc. done.
  - rewrite fmap_app. simpl. by apply is_min_snoc.
  - rewrite fmap_app. simpl. apply is_min_snoc. done.
Qed.

Lemma merge_loop_spec : forall source candles open out,
  merge_loop ParseDuration candles source sourceTimeframe targetTimeframe = Ok out ->
  carries candles open ->
  exists bars, out = candles ++ bars /\
               Forall2 aggregates bars (constituents closes open source).
Proof.
  induction source as [|c rest IH]; intros candles open out Hrun Hcar.
  - simpl in Hrun. injection Hrun as <-. exists []. split; [by rewrite app_nil_r|constructor].
  - simpl in Hrun.
    destruct (isLastCandlePeriod ParseDuration (c_Time c) sourceTimeframe targetTimeframe)
      as [b| |] eqn:Eb; simpl in Hrun; try done.
    assert (Hb : closes c = b) by (unfold closes_period; by rewrite Eb).
    set (bar := match last candles with
                | Some prev => if negb (c_Complete prev) then merge prev (set_complete c b)
                               else set_complete c b
                | None => set_complete c b
                end) in *.
    assert (Hbar : aggregates bar (open ++ [c]) /\ c_Complete bar = b).
    { unfold bar, carries in *. destruct (last candles) as [prev|].
      - destruct (c_Complete prev); simpl.
        + subst open. split; [by apply aggregates_start|done].
        + split; [by apply aggregates_merge|done].
      - subst open. split; [by apply aggregates_start|done]. }
    destruct Hbar as [Hagg Hcomp].
    destruct (IH (candles ++ [bar]) (if closes c then [] else open ++ [c]) out Hrun)
      as (bars & -> & Hall).
    + unfold carries. rewrite last_snoc, Hcomp, Hb. by destruct b.
    + exists (bar :: bars). split; [by rewrite <- app_assoc|].
      simpl. by constructor.
Qed.

(** The first loop of [resample] stops at the first bar for which
    [isFistCandlePeriod] answers true: the bars it passes over are those
    before it, and for each of them the answer was false. *)
Lemma skip_to_first_spec : forall source aligned,
  skip_to_first ParseDuration source sourceTimeframe targetTimeframe = Ok aligned ->
  exists skipped,
    source = skipped ++ aligned /\
    Forall (fun b => isFistCandlePeriod ParseDuration (c_Time b)
                       sourceTimeframe targetTimeframe = Ok false) skipped /\
    forall first, head aligned = Some first ->
      isFistCandlePeriod ParseDuration (c_Time first) sourceTimeframe targetTimeframe
      = Ok true.
Proof.
  induction source as [|c rest IH]; intros aligned H; simpl in H.
  - injection H as <-. exists []. split; [done|]. split; [constructor|]. by intros first.
  - destruct (isFistCandlePeriod ParseDuration (c_Time c) sourceTimeframe targetTimeframe)
      as [[|]| |] eqn:E; simpl in H; try done.
    + injection H as <-. exists []. split; [done|]. split; [constructor|].
      intros first [= <-]. exact E.
    + destruct (IH aligned H) as (skipped & -> & Hskip & Hfirst).
      exists (c :: skipped). split; [done|]. split; [by constructor|done].
Qed.

(** C4, as amended.  When [resample] succeeds, the source series is a run
    of bars for which [isFistCandlePeriod] answers false, followed by a bar
    for which it answers true and the bars after it: the series is built from
    that bar on, the first source bar that opens a target period.  Bar by
    bar, an output bar takes its start time and open from the first source bar
    of its target period, its close from the latest one, its volume is the
    sum of the volumes, its high the maximum of the highs and its low the
    minimum of the lows of the source bars of the period up to that one, and
    it is complete exactly when that source bar closes the period.  Of these
    bars only the last one is dropped, when it is incomplete: the earlier
    partial accumulations, those of an unfinished final period included, stay
    in the stored series. *)
Theorem resample_aggregates (c c' : CSVFeed) (pair : string) :
  resample ParseDuration c pair sourceTimeframe targetTimeframe = Ok c' ->
  exists skipped first rest bars final,
    default [] (CandlePairTimeFrame c !! feedTimeframeKey pair sourceTimeframe)
      = skipped ++ first :: rest /\
    Forall (fun b => isFistCandlePeriod ParseDuration (c_Time b)
                       sourceTimeframe targetTimeframe = Ok false) skipped /\
    isFistCandlePeriod ParseDuration (c_Time first) sourceTimeframe targetTimeframe
      = Ok true /\
    Forall2 aggregates bars (constituents closes [] (first :: rest)) /\
    last bars = Some final /\
    CandlePairTimeFrame c' !! feedTimeframeKey pair targetTimeframe =
      Some (if c_Complete final then bars else take (length bars - 1) bars).
Proof.
  unfold resample, resample_candles.
  set (source := default [] _).
  destruct (skip_to_first ParseDuration source sourceTimeframe targetTimeframe)
    as [aligned| |] eqn:Eskip; simpl; try done.
  destruct (merge_loop ParseDuration [] aligned sourceTimeframe targetTimeframe)
    as [bars| |] eqn:Eloop; simpl; try done.
  destruct (last bars) as [final|] eqn:Elast; simpl; try done.
  intros H.
  destruct (merge_loop_spec aligned [] [] bars Eloop) as (bars' & -> & Hall); [done|].
  destruct (skip_to_first_spec source aligned Eskip) as (skipped & Hsrc & Hskip & Hfirst).
  simpl in *.
  destruct aligned as [|first rest].
  { simpl in Hall. apply Forall2_nil_inv_r in Hall. by subst bars'. }
  exists skipped, first, rest, bars', final.
  split; [done|]. split; [done|]. split; [by apply Hfirst|]. split; [done|]. split; [done|].
  destruct (c_Complete final); simpl in H; injection H as <-; simpl;
    by rewrite lookup_insert_eq.
Qed.

End Resample.

Import FeedExamples.


Lemma resample_aggregates_witness :
  exists c' skipped first rest bars final,
    resample ParseDuration minute_feed "BTCUSDT" "1m" "5m" = Ok c' /\
    default [] (CandlePairTimeFrame minute_feed !! feedTimeframeKey "BTCUSDT" "1m")
      = skipped ++ first :: rest /\
    Forall (fun b => isFistCandlePeriod ParseDuration (c_Time b) "1m" "5m" = Ok false)
           skipped /\
    isFistCandlePeriod ParseDuration (c_Time first) "1m" "5m" = Ok true /\
    Forall2 (aggregates (closes_period ParseDuration "1m" "5m")) bars
            (constituents (closes_period ParseDuration "1m" "5m") [] (first :: rest)) /\
    last bars = Some final /\
    CandlePairTimeFrame c' !! feedTimeframeKey "BTCUSDT" "5m" =
      Some (if c_Complete final then bars else take (length bars - 1) bars).
Proof.
  destruct (resample ParseDuration minute_feed "BTCUSDT" "1m" "5m") as [c'| |] eqn:E;
    [|by vm_compute in E|by vm_compute in E].
  exists c'.
  destruct (resample_aggregates ParseDuration "1m" "5m" minute_feed c' "BTCUSDT" E)
    as (skipped & first & rest & bars & final & H).
  exists skipped, first, rest, bars, final. split; [done|exact H].
Defined.

(** C4, as stated, fails: one-minute bars for the minutes 0 to 6 resampled to
    five minutes leave, after the complete bar of minutes 0 to 4 (and the four
    partial accumulations before it), the partial bar of minute 5 at the end
    of the stored series; only the accumulation of minutes 5 and 6 is dropped. *)
Lemma resample_keeps_trailing_incomplete :
  exists c' stored final,
    resample ParseDuration minute_feed "BTCUSDT" "1m" "5m" = Ok c' /\
    CandlePairTimeFrame c' !! "BTCUSDT--5m" = Some stored /\
    length stored = 6 /\
    last stored = Some final /\
    c_Time final = Unix 300 /\
    c_Complete final = false.
Proof.
  eexists _, _, _. vm_compute. repeat split; reflexivity.
Qed.

(** C5 at a failing input.  The file has the header
    [time,open,close,low,high,volume,rsi] and the row [60,1,2,3,4,5,7].
    [NewCSVFeed] returns a feed whose one candle has the time and the open of
    the row and the extra column in its metadata, and 0 for close, low, high
    and volume: the loop over the rows parses [time] and [open] only. *)
Theorem NewCSVFeed_reads_time_and_open :
  exists c candle,
    NewCSVFeed Atoi ParseFloat ParseDuration "1m" [(btc_feed, Some btc_file)] = Ok c /\
    CandlePairTimeFrame c !! feedTimeframeKey "BTCUSDT" "1m" = Some [candle] /\
    c_Time candle = Unix 60 /\ c_Open candle = 1%Q /\
    c_Metadata candle !! "rsi" = Some 7%Q /\
    c_Close candle = 0%Q /\ c_Low candle = 0%Q /\ c_High candle = 0%Q /\
    c_Volume candle = 0%Q.
Proof.
  eexists _, _. vm_compute. repeat split; reflexivity.
Qed.

End FeedProofs.

Module PaperProofs.
Import Model Paper.

Section Creation.
Variable SplitAssetQuote : string -> string * string.
Variable AmountToLotSize : Q -> Z -> Q -> Q.

Lemma balance_ensure_asset w a b : balance (ensure_asset w a) b = balance w b.
Proof.
  unfold ensure_asset, balance. destruct (assets w !! a) eqn:E; [done|]. simpl.
  destruct (decide (a = b)) as [->|Hne].
  - by rewrite lookup_insert_eq, E.
  - by rewrite lookup_insert_ne.
Qed.

Lemma ensure_asset_keeps w a b info :
  assets w !! b = Some info -> assets (ensure_asset w a) !! b = Some info.
Proof.
  unfold ensure_asset. intros H. destruct (assets w !! a) eqn:E; [done|]. simpl.
  rewrite lookup_insert_ne; [done|]. intros ->. congruence.
Qed.

Lemma ensure_asset_only_assets w a : ensure_asset w a = set_assets w (assets (ensure_asset w a)).
Proof. unfold ensure_asset. destruct (assets w !! a); by destruct w. Qed.


Lemma untouched_refl w : untouched w w.
Proof. split; [by destruct w|]. by split. Qed.

Lemma untouched_ensure w a : untouched w (ensure_asset w a).
Proof.
  split; [apply ensure_asset_only_assets|]. split.
  - intros b. apply balance_ensure_asset.
  - intros b info. apply ensure_asset_keeps.
Qed.

Lemma untouched_trans w1 w2 w3 : untouched w1 w2 -> untouched w2 w3 -> untouched w1 w3.
Proof.
  intros (E1 & B1 & K1) (E2 & B2 & K2). split; [|split].
  - rewrite E2 at 1. rewrite E1 at 1. by destruct w1.
  - intros a. by rewrite B2, B1.
  - intros a info H. by apply K2, K1.
Qed.

Lemma validateFunds_rejects side pair amount value fill w e w' :
  validateFunds SplitAssetQuote side pair amount value fill w = (Some e, w') ->
  e = insufficient pair amount /\ untouched w w'.
Proof.
  unfold validateFunds. destruct (SplitAssetQuote pair) as [asset quote].
  set (w1 := ensure_asset (ensure_asset w asset) quote).
  assert (Hu : untouched w w1).
  { eapply untouched_trans; apply untouched_ensure. }
  destruct side; cbv zeta;
    match goal with |- (if ?c then _ else _) = _ -> _ => destruct c end;
    try discriminate; by intros [= <- <-].
Qed.

Local Abbreviation create := (create SplitAssetQuote AmountToLotSize).
Local Abbreviation creation_quantity := (creation_quantity AmountToLotSize).

Lemma guarded_rejects side pair size value fill w e w'
  (k : PaperWallet -> (error + list Order) * PaperWallet) :
  (if Qeq_bool size 0 then (inl (Plain ErrInvalidQuantity), w)
   else match validateFunds SplitAssetQuote side pair size value fill w with
        | (Some err, w1) => (inl err, w1)
        | (None, w1) => k w1
        end) = (inl e, w') ->
  (forall w1, fst (k w1) <> inl e) ->
  e <> Plain ErrInvalidQuantity ->
  e = insufficient pair size /\ untouched w w'.
Proof.
  intros H Hk Hne. destruct (Qeq_bool size 0).
  - injection H as <- <-. done.
  - destruct (validateFunds SplitAssetQuote side pair size value fill w) as [[err|] w1] eqn:E.
    + injection H as <- <-. by apply validateFunds_rejects in E.
    + exfalso. apply (Hk w1). by rewrite H.
Qed.

(** C9, as amended.  An order creation that fails for another reason than a zero
    quantity failed fund admission: it returns the typed [OrderError] that
    wraps [ErrInsufficientFunds] and carries the pair and the quantity of the
    order; all the wallet's state other than the asset table is as before
    (no order is appended, the counter, the volumes and the average prices
    are the same), every asset that had an entry keeps its free and locked
    balances, and every asset reads the same balances as before the call (the
    call may have created entries with zero free and zero locked balance for
    a base or quote asset that had none).  For [CreateOrderMarketQuote] the
    quantity is the one it computes for [createOrderMarket], from a close
    that is not zero. *)
Theorem insufficient_funds_leave_wallet (c : creation) (w w' : PaperWallet) (e : error) :
  quotient_defined c w ->
  create c w = (inl e, w') ->
  e <> Plain ErrInvalidQuantity ->
  e = insufficient (creation_pair c) (creation_quantity c w) /\
  orders w' = orders w /\
  w' = set_assets w (assets w') /\
  (forall a info, assets w !! a = Some info -> assets w' !! a = Some info) /\
  (forall a, balance w' a = balance w a).
Proof.
  intros _ H Hne.
  assert (He : e = insufficient (creation_pair c) (creation_quantity c w) /\ untouched w w').
  { destruct c as [side pr size price stop stopLimit|side pr size limit|pr size limit
                  |side pr size|side pr quoteQuantity]; simpl in *.
    - unfold CreateOrderOCO in H. eapply guarded_rejects; [exact H| |done].
      intros w1. simpl. done.
    - unfold CreateOrderLimit in H. eapply guarded_rejects; [exact H| |done].
      intros w1. simpl. done.
    - unfold CreateOrderStop in H. eapply guarded_rejects; [exact H| |done].
      intros w1. simpl. done.
    - unfold CreateOrderMarket, createOrderMarket in H.
      eapply guarded_rejects; [exact H| |done].
      intros w1. simpl. done.
    - unfold CreateOrderMarketQuote, createOrderMarket in H.
      eapply guarded_rejects; [exact H| |done].
      intros w1. simpl. done. }
  destruct He as [-> (Hw & Hb & Hk)]. repeat split; try done.
  rewrite Hw. by destruct w.
Qed.


End Creation.

Import PaperExamples.

Lemma insufficient_funds_leave_wallet_witness :
  exists w',
    create SplitAssetQuote AmountToLotSize (Limit SideTypeBuy "BTCUSDT" 1 100)
           (wallet 50 0 100)
      = (inl (insufficient "BTCUSDT" 1), w') /\
    orders w' = orders (wallet 50 0 100) /\
    w' = set_assets (wallet 50 0 100) (assets w') /\
    (forall a info, assets (wallet 50 0 100) !! a = Some info -> assets w' !! a = Some info) /\
    (forall a, balance w' a = balance (wallet 50 0 100) a).
Proof.
  destruct (create SplitAssetQuote AmountToLotSize (Limit SideTypeBuy "BTCUSDT" 1 100)
                   (wallet 50 0 100)) as [r w'] eqn:E.
  assert (Hr : r = inl (insufficient "BTCUSDT" 1)).
  { vm_compute in E. by injection E as <- _. }
  subst r. exists w'. split; [done|].
  exact (proj2 (insufficient_funds_leave_wallet SplitAssetQuote AmountToLotSize
                  (Limit SideTypeBuy "BTCUSDT" 1 100) (wallet 50 0 100) w' _ I E
                  ltac:(discriminate))).
Defined.

(** C9, as stated, fails.  A wallet is opened with 50 USDT and receives a
    candle that closes at 100; a market buy for 200 USDT of BTC is refused.
    The error carries the quantity 2 computed from the quote quantity, not
    the 200 that was asked for, and the wallet is not the one before the
    call: its asset table has gained an entry for BTC. *)
Lemma failed_creation_adds_entries :
  exists w w' e,
    OnCandle SplitAssetQuote ToUpper (candle 60 100 100 100 100) (new_wallet 50) = Some w /\
    create SplitAssetQuote AmountToLotSize (MarketQuote SideTypeBuy "BTCUSDT" 200) w
      = (inl (Typed e), w') /\
    Err e = ErrInsufficientFunds /\ oe_Pair e = "BTCUSDT" /\ (oe_Quantity e == 2)%Q /\
    assets w !! "BTC" = None /\
    assets w' !! "BTC" = Some zero_info /\
    w' <> w.
Proof.
  eexists _, _, _. split; [vm_compute; reflexivity|].
  split; [vm_compute; reflexivity|].
  split; [reflexivity|]. split; [reflexivity|]. split; [reflexivity|].
  split; [vm_compute; reflexivity|].
  split; [vm_compute; reflexivity|].
  intros H. apply (f_equal (fun x => assets x !! "BTC")) in H.
  vm_compute in H. discriminate H.
Qed.


(** C6 at a failing input.  With 1000 USDT, a buy OCO for 1 BTC (limit 100,
    stop 120) is created, and a candle closes at 90: both legs are filled,
    neither is canceled, 2 BTC are bought and the locked quote balance, 100
    at creation, ends at -120. *)
Theorem buy_oco_fills_both_legs :
  after_oco SideTypeBuy (wallet 1000 0 100) 1 100 120 120 (candle 60 95 90 85 96) =
  Some ([OrderStatusTypeNew; OrderStatusTypeNew],
        [OrderStatusTypeFilled; OrderStatusTypeFilled],
        mkAssetInfo 900 (-120), mkAssetInfo 2 0, 220%Q).
Proof. vm_compute. reflexivity. Qed.

End PaperProofs.

Module MatchingProofs.
Import Model Paper.

Section Matching.
Variable SplitAssetQuote : string -> string * string.
Variable ToUpper : string -> string.

Local Abbreviation updateAveragePrice := (updateAveragePrice SplitAssetQuote).
Local Abbreviation matchOrder := (matchOrder SplitAssetQuote).
Local Abbreviation match_orders := (match_orders SplitAssetQuote).
Local Abbreviation OnCandle := (OnCandle SplitAssetQuote ToUpper).

(** [updateAveragePrice] writes the two average-price tables only. *)
Lemma updateAveragePrice_frame side pair amount value w :
  exists s l, updateAveragePrice side pair amount value w
              = set_avgLongPrice (set_avgShortPrice w s) l.
Proof.
  unfold Paper.updateAveragePrice. destruct (SplitAssetQuote pair) as [asset quote].
  assert (Hid : exists s l, w = set_avgLongPrice (set_avgShortPrice w s) l).
  { exists (avgShortPrice w), (avgLongPrice w). destruct w; reflexivity. }
  assert (Hs : forall v, exists s l, set_avgShort w pair v
                                     = set_avgLongPrice (set_avgShortPrice w s) l).
  { intros v. exists (<[pair := v]> (avgShortPrice w)), (avgLongPrice w).
    destruct w; reflexivity. }
  assert (Hl : forall v, exists s l, set_avgLong w pair v
                                     = set_avgLongPrice (set_avgShortPrice w s) l).
  { intros v. exists (avgShortPrice w), (<[pair := v]> (avgLongPrice w)).
    destruct w; reflexivity. }
  repeat (match goal with |- context [if ?c then _ else _] => destruct c end);
    try destruct side; auto.
Qed.

Lemma orders_updateAveragePrice side pair amount value w :
  orders (updateAveragePrice side pair amount value w) = orders w.
Proof. destruct (updateAveragePrice_frame side pair amount value w) as (s & l & ->). done. Qed.

Lemma assets_updateAveragePrice side pair amount value w :
  assets (updateAveragePrice side pair amount value w) = assets w.
Proof. destruct (updateAveragePrice_frame side pair amount value w) as (s & l & ->). done. Qed.

Lemma volume_updateAveragePrice side pair amount value w :
  volume (updateAveragePrice side pair amount value w) = volume w.
Proof. destruct (updateAveragePrice_frame side pair amount value w) as (s & l & ->). done. Qed.

Lemma balance_ensure w a b : balance (ensure_asset w a) b = balance w b.
Proof.
  unfold ensure_asset, balance. destruct (assets w !! a) eqn:E; [done|]. simpl.
  destruct (decide (a = b)) as [->|Hne].
  - by rewrite lookup_insert_eq, E.
  - by rewrite lookup_insert_ne.
Qed.

Lemma ensure_asset_keeps_entry w a b info :
  assets w !! b = Some info -> assets (ensure_asset w a) !! b = Some info.
Proof.
  unfold ensure_asset. intros H. destruct (assets w !! a) eqn:E; [done|]. simpl.
  rewrite lookup_insert_ne; [done|]. intros ->. congruence.
Qed.

Lemma orders_ensure_asset w a : orders (ensure_asset w a) = orders w.
Proof. unfold ensure_asset. by destruct (assets w !! a). Qed.

Lemma volume_ensure_asset w a : volume (ensure_asset w a) = volume w.
Proof. unfold ensure_asset. by destruct (assets w !! a). Qed.

Lemma orders_ensure_volume w p : orders (ensure_volume w p) = orders w.
Proof. unfold ensure_volume. by destruct (volume w !! p). Qed.

Lemma assets_ensure_volume w p : assets (ensure_volume w p) = assets w.
Proof. unfold ensure_volume. by destruct (volume w !! p). Qed.

Lemma volume_of_ensure_volume w p q : volume_of (ensure_volume w p) q = volume_of w q.
Proof.
  unfold ensure_volume, volume_of. destruct (volume w !! p) eqn:E; [done|]. simpl.
  destruct (decide (p = q)) as [->|Hne].
  - by rewrite lookup_insert_eq, E.
  - by rewrite lookup_insert_ne.
Qed.

Lemma assets_mark_order w i st t : assets (mark_order w i st t) = assets w.
Proof. unfold mark_order. by destruct (orders w !! i). Qed.

Lemma volume_mark_order w i st t : volume (mark_order w i st t) = volume w.
Proof. unfold mark_order. by destruct (orders w !! i). Qed.

Lemma orders_mark_order w i st t o :
  orders w !! i = Some o ->
  orders (mark_order w i st t) = <[i := with_status o st t]> (orders w).
Proof. unfold mark_order. by intros ->. Qed.

(** The sibling loop marks at most one order, one of the group. *)
Lemma cancel_sibling_spec order g t : forall os j w,
  os = drop j (orders w) ->
  cancel_sibling os j order g t w = w \/
  exists m om, orders w !! m = Some om /\ GroupID om = Some g /\
               ExchangeID om <> ExchangeID order /\
               cancel_sibling os j order g t w
               = set_orders w (<[m := with_status om OrderStatusTypeCanceled t]> (orders w)).
Proof.
  induction os as [|go rest IH]; intros j w Hos; simpl.
  - by left.
  - assert (Hj : orders w !! j = Some go).
    { rewrite <- (Nat.add_0_r j), <- lookup_drop, <- Hos. done. }
    destruct (bool_decide (GroupID go = Some g)
              && negb (bool_decide (ExchangeID go = ExchangeID order))) eqn:E.
    + right. exists j, go. apply andb_true_iff in E as [E E'].
      apply bool_decide_eq_true in E. apply negb_true_iff, bool_decide_eq_false in E'.
      split; [done|]. split; [done|]. split; [done|].
      unfold mark_order. by rewrite Hj.
    + apply IH. rewrite (drop_S _ _ _ Hj) in Hos. by injection Hos.
Qed.


Local Abbreviation buy_fill := (buy_fill SplitAssetQuote).
Local Abbreviation sell_fill := (sell_fill SplitAssetQuote).

Lemma matchOrder_skip candle i w o :
  orders w !! i = Some o ->
  Pair o <> c_Pair candle \/ Status o <> OrderStatusTypeNew ->
  matchOrder candle i w = Some w.
Proof.
  intros Ho H. unfold Paper.matchOrder. rewrite Ho. simpl.
  destruct H as [H|H].
  - by rewrite (bool_decide_eq_false_2 _ H).
  - rewrite (bool_decide_eq_false_2 _ H). by rewrite orb_true_r.
Qed.

Lemma matchOrder_sell candle i w o asset quote :
  orders w !! i = Some o ->
  Pair o = c_Pair candle -> Status o = OrderStatusTypeNew -> Side o = SideTypeSell ->
  SplitAssetQuote (Pair o) = (asset, quote) ->
  matchOrder candle i w =
    traded ← sell_price o candle;
    match traded with
    | None => Some (ensure_volume w (c_Pair candle))
    | Some price => sell_fill candle i o price asset quote (ensure_volume w (c_Pair candle))
    end.
Proof.
  intros Ho Hp Hs Hside Hsplit. unfold Paper.matchOrder. rewrite Ho. simpl.
  rewrite (bool_decide_eq_true_2 _ Hp), (bool_decide_eq_true_2 _ Hs). simpl.
  assert (Hb : bool_decide (Side o = SideTypeBuy) = false)
    by (apply bool_decide_eq_false_2; congruence).
  rewrite Hsplit, Hb, (bool_decide_eq_true_2 _ Hside). simpl. reflexivity.
Qed.

Lemma matchOrder_buy_filled candle i w o asset quote :
  orders w !! i = Some o ->
  Pair o = c_Pair candle -> Status o = OrderStatusTypeNew -> Side o = SideTypeBuy ->
  SplitAssetQuote (Pair o) = (asset, quote) ->
  Qle_bool (c_Close candle) (Price o) = true ->
  matchOrder candle i w = buy_fill candle i o asset quote (ensure_volume w (c_Pair candle)).
Proof.
  intros Ho Hp Hs Hside Hsplit Hprice. unfold Paper.matchOrder. rewrite Ho. simpl.
  rewrite (bool_decide_eq_true_2 _ Hp), (bool_decide_eq_true_2 _ Hs). simpl.
  assert (Hb : bool_decide (Side o = SideTypeSell) = false)
    by (apply bool_decide_eq_false_2; congruence).
  rewrite Hsplit, Hprice, Hb, (bool_decide_eq_true_2 _ Hside). simpl.
  by destruct (buy_fill candle i o asset quote (ensure_volume w (c_Pair candle))).
Qed.

Lemma buy_fill_orders candle i o asset quote w w' :
  buy_fill candle i o asset quote w = Some w' ->
  orders w !! i = Some o ->
  orders w' = <[i := with_status o OrderStatusTypeFilled (c_Time candle)]> (orders w).
Proof.
  unfold Paper.buy_fill. intros H Ho.
  destruct (assets _ !! quote) as [info|]; [|done]. simpl in H. injection H as <-. simpl.
  rewrite orders_updateAveragePrice.
  rewrite (orders_mark_order _ i _ _ o); simpl; by rewrite orders_ensure_asset.
Qed.

Lemma matchOrder_buy_unfilled candle i w o :
  orders w !! i = Some o ->
  Pair o = c_Pair candle -> Status o = OrderStatusTypeNew -> Side o = SideTypeBuy ->
  Qle_bool (c_Close candle) (Price o) = false ->
  matchOrder candle i w = Some (ensure_volume w (c_Pair candle)).
Proof.
  intros Ho Hp Hs Hside Hprice. unfold Paper.matchOrder. rewrite Ho. simpl.
  rewrite (bool_decide_eq_true_2 _ Hp), (bool_decide_eq_true_2 _ Hs). simpl.
  destruct (SplitAssetQuote (Pair o)) as [asset quote].
  assert (Hb : bool_decide (Side o = SideTypeSell) = false)
    by (apply bool_decide_eq_false_2; congruence).
  rewrite Hprice, Hb, andb_false_r. simpl. reflexivity.
Qed.

Lemma sell_fill_orders candle i o price asset quote w w' :
  sell_fill candle i o price asset quote w = Some w' ->
  orders w !! i = Some o ->
  orders w' = <[i := with_status o OrderStatusTypeFilled (c_Time candle)]> (orders w) \/
  exists g m om, GroupID o = Some g /\ orders w !! m = Some om /\ GroupID om = Some g /\
                 m <> i /\
                 orders w' = <[i := with_status o OrderStatusTypeFilled (c_Time candle)]>
                               (<[m := with_status om OrderStatusTypeCanceled (c_Time candle)]>
                                  (orders w)).
Proof.
  unfold Paper.sell_fill. intros H Ho.
  set (w1 := match GroupID o with
             | Some group => cancel_sibling (orders w) 0 o group (c_Time candle) w
             | None => w
             end) in *.
  set (w2 := add_volume (ensure_asset w1 quote) (c_Pair candle) (Quantity o * price)%Q) in *.
  assert (Ho2 : orders w2 = orders w1) by (unfold w2; simpl; apply orders_ensure_asset).
  destruct (assets _ !! asset) as [info|]; [|done]. simpl in H. injection H as <-. simpl.
  rewrite orders_updateAveragePrice.
  assert (Hw1 : w1 = w \/
                exists g m om, GroupID o = Some g /\ orders w !! m = Some om /\
                               GroupID om = Some g /\ m <> i /\
                               orders w1
                               = <[m := with_status om OrderStatusTypeCanceled (c_Time candle)]>
                                   (orders w)).
  { unfold w1. destruct (GroupID o) as [g|]; [|by left].
    destruct (cancel_sibling_spec o g (c_Time candle) (orders w) 0 w eq_refl)
      as [->|(m & om & Hm & Hg & Hex & ->)]; [by left|].
    right. exists g, m, om. repeat split; try done. intros ->. congruence. }
  destruct Hw1 as [Hw1|(g & m & om & Hg & Hm & Hgm & Hne & Hw1)].
  - left. rewrite (orders_mark_order w2 i _ _ o); rewrite Ho2, Hw1; done.
  - right. exists g, m, om. repeat split; try done.
    rewrite (orders_mark_order w2 i _ _ o); rewrite Ho2, Hw1; [done|].
    by rewrite list_lookup_insert_ne.
Qed.

Lemma matchOrder_orders candle j w w' o :
  matchOrder candle j w = Some w' ->
  orders w !! j = Some o ->
  orders w' = orders w \/
  orders w' = <[j := with_status o OrderStatusTypeFilled (c_Time candle)]> (orders w) \/
  exists g m om, GroupID o = Some g /\ orders w !! m = Some om /\ GroupID om = Some g /\
                 m <> j /\
                 orders w' = <[j := with_status o OrderStatusTypeFilled (c_Time candle)]>
                               (<[m := with_status om OrderStatusTypeCanceled (c_Time candle)]>
                                  (orders w)).
Proof.
  intros H Ho.
  destruct (decide (Pair o = c_Pair candle)) as [Hp|Hp];
    [|rewrite (matchOrder_skip candle j w o) in H by auto; injection H as <-; by left].
  destruct (decide (Status o = OrderStatusTypeNew)) as [Hs|Hs];
    [|rewrite (matchOrder_skip candle j w o) in H by auto; injection H as <-; by left].
  destruct (SplitAssetQuote (Pair o)) as [asset quote] eqn:Hsplit.
  destruct (Side o) eqn:Hside.
  - destruct (Qle_bool (c_Close candle) (Price o)) eqn:Hprice.
    + rewrite (matchOrder_buy_filled candle j w o asset quote) in H by done.
      apply buy_fill_orders with (o := o) in H; [|by rewrite orders_ensure_volume].
      rewrite orders_ensure_volume in H. by right; left.
    + rewrite (matchOrder_buy_unfilled candle j w o) in H by done.
      injection H as <-. left. apply orders_ensure_volume.
  - rewrite (matchOrder_sell candle j w o asset quote) in H by done.
    destruct (sell_price o candle) as [[price|]|]; simpl in H; [| |done].
    + apply sell_fill_orders with (o := o) in H; [|by rewrite orders_ensure_volume].
      rewrite orders_ensure_volume in H. by right.
    + injection H as <-. left. apply orders_ensure_volume.
Qed.

(** An order at another index than the one the loop body works on is left
    as it is, or canceled when it is a member of a group. *)
Lemma matchOrder_other candle j w w' i oi :
  matchOrder candle j w = Some w' ->
  i <> j -> orders w !! i = Some oi ->
  orders w' !! i = Some oi \/
  (GroupID oi <> None /\
   orders w' !! i = Some (with_status oi OrderStatusTypeCanceled (c_Time candle))).
Proof.
  intros H Hne Hi.
  destruct (orders w !! j) as [o|] eqn:Ho;
    [|unfold Paper.matchOrder in H; by rewrite Ho in H].
  destruct (matchOrder_orders candle j w w' o H Ho)
    as [->|[->|(g & m & om & Hg & Hm & Hgm & Hmj & ->)]].
  - by left.
  - left. by rewrite list_lookup_insert_ne.
  - rewrite list_lookup_insert_ne by done.
    destruct (decide (m = i)) as [->|Hmi].
    + right. rewrite Hi in Hm. injection Hm as <-. split; [congruence|].
      apply list_lookup_insert_eq. by apply lookup_lt_Some in Hi.
    + left. by rewrite list_lookup_insert_ne.
Qed.

Lemma match_orders_app candle l1 l2 w :
  match_orders candle (l1 ++ l2) w = w1 ← match_orders candle l1 w; match_orders candle l2 w1.
Proof.
  revert w. induction l1 as [|j l1 IH]; intros w; simpl; [done|].
  destruct (matchOrder candle j w) as [w1|]; simpl; [apply IH|done].
Qed.

(** An order of no group is not touched while the loop works on others. *)
Lemma match_orders_keeps candle : forall idxs w w' i o,
  match_orders candle idxs w = Some w' ->
  i ∉ idxs -> orders w !! i = Some o -> GroupID o = None ->
  orders w' !! i = Some o.
Proof.
  induction idxs as [|j idxs IH]; intros w w' i o H Hni Ho Hg; simpl in H.
  - by injection H as <-.
  - destruct (matchOrder candle j w) as [w1|] eqn:E; simpl in H; [|done].
    apply not_elem_of_cons in Hni as [Hne Hni].
    destruct (matchOrder_other candle j w w1 i o E Hne Ho) as [Hk|[Hk _]]; [|done].
    by apply (IH w1 w' i o).
Qed.

(** A buy order priced below the close is never marked filled. *)
Lemma match_orders_buy_unfilled candle : forall idxs w w' i o,
  match_orders candle idxs w = Some w' ->
  orders w !! i = Some o -> Side o = SideTypeBuy ->
  Qle_bool (c_Close candle) (Price o) = false ->
  Status o <> OrderStatusTypeFilled ->
  exists o', orders w' !! i = Some o' /\ Status o' <> OrderStatusTypeFilled.
Proof.
  induction idxs as [|j idxs IH]; intros w w' i o H Ho Hside Hprice Hst; simpl in H.
  - injection H as <-. eauto.
  - destruct (matchOrder candle j w) as [w1|] eqn:E; simpl in H; [|done].
    assert (Hstep : exists o1, orders w1 !! i = Some o1 /\ Side o1 = SideTypeBuy /\
                               Price o1 = Price o /\ Status o1 <> OrderStatusTypeFilled).
    { destruct (decide (i = j)) as [->|Hne].
      - exists o. destruct (decide (Pair o = c_Pair candle)) as [Hp|Hp];
          [|rewrite (matchOrder_skip candle j w o) in E by auto; by injection E as <-].
        destruct (decide (Status o = OrderStatusTypeNew)) as [Hs|Hs];
          [|rewrite (matchOrder_skip candle j w o) in E by auto; by injection E as <-].
        rewrite (matchOrder_buy_unfilled candle j w o) in E by done.
        injection E as <-. by rewrite orders_ensure_volume.
      - destruct (matchOrder_other candle j w w1 i o E Hne Ho) as [Hk|[_ Hk]];
          [by eauto|].
        eexists. split; [exact Hk|]. simpl. done. }
    destruct Hstep as (o1 & Ho1 & Hside1 & Hprice1 & Hst1).
    apply (IH w1 w' i o1); try done. by rewrite Hprice1.
Qed.

Lemma orders_record_equity candle w w' :
  record_equity ToUpper candle w = Some w' -> orders w' = orders w.
Proof.
  unfold record_equity. destruct (map_fold _ _ _) as [total values]. simpl.
  destruct (assets w !! baseCoin w); [|done]. simpl. by intros [= <-].
Qed.

(** [OnCandle] is the loop over the orders present at its start, up to the
    candle tables and the equity record, which hold no order. *)
Lemma OnCandle_orders candle w w' :
  OnCandle candle w = Some w' ->
  exists w0 w1, orders w0 = orders w /\ assets w0 = assets w /\ volume w0 = volume w /\
                match_orders candle (seq 0 (length (orders w))) w0 = Some w1 /\
                orders w' = orders w1.
Proof.
  unfold Paper.OnCandle.
  set (w0 := match fistCandle _ !! c_Pair candle with Some _ => _ | None => _ end).
  assert (H0 : orders w0 = orders w /\ assets w0 = assets w /\ volume w0 = volume w).
  { unfold w0. by destruct (fistCandle _ !! c_Pair candle). }
  destruct H0 as (Ho & Ha & Hv). rewrite Ho.
  destruct (match_orders candle (seq 0 (length (orders w))) w0) as [w1|] eqn:E; [|done].
  simpl. intros H. exists w0, w1. repeat split; try done.
  destruct (c_Complete candle).
  - by apply orders_record_equity in H.
  - by injection H as <-.
Qed.

Lemma sell_price_stop o candle S :
  is_stop_type (Type_ o) = true -> Stop o = Some S ->
  sell_price o candle = Some (if Qle_bool (c_Low candle) S then Some S else None).
Proof.
  intros Ht Hs. unfold sell_price. rewrite Ht, Hs.
  assert (is_limit_type (Type_ o) = false) as -> by (by destruct (Type_ o)).
  simpl. by destruct (Qle_bool (c_Low candle) S).
Qed.

Lemma free_set_lock w a v b : free (set_lock w a v) b = free w b.
Proof.
  unfold free, balance, set_lock. simpl. destruct (decide (a = b)) as [->|Hne].
  - by rewrite lookup_insert_eq.
  - by rewrite lookup_insert_ne.
Qed.

Lemma free_set_free w a v : free (set_free w a v) a = v.
Proof. unfold free, balance, set_free. simpl. by rewrite lookup_insert_eq. Qed.

Lemma volume_of_add_volume w p v : volume_of (add_volume w p v) p = (volume_of w p + v)%Q.
Proof. unfold volume_of at 1, add_volume. simpl. by rewrite lookup_insert_eq. Qed.

Lemma cancel_sibling_frame order g t os j w :
  assets (cancel_sibling os j order g t w) = assets w /\
  volume (cancel_sibling os j order g t w) = volume w.
Proof.
  revert j. induction os as [|go rest IH]; intros j; simpl; [done|].
  destruct (_ && _); [|apply IH].
  by rewrite assets_mark_order, volume_mark_order.
Qed.

(** A sell order that trades at [price]: the call returns when the base asset
    has an entry; the order is marked filled, the volume of the pair grows by
    quantity times price and so does the free quote balance. *)
Lemma sell_fill_spec candle i o price asset quote w :
  orders w !! i = Some o ->
  (is_Some (assets w !! asset) -> is_Some (sell_fill candle i o price asset quote w)) /\
  forall w', sell_fill candle i o price asset quote w = Some w' ->
    (exists o', orders w' !! i = Some o' /\ Status o' = OrderStatusTypeFilled) /\
    volume_of w' (c_Pair candle) = (volume_of w (c_Pair candle) + Quantity o * price)%Q /\
    free w' quote = (free w quote + Quantity o * price)%Q.
Proof.
  intros Ho. unfold Paper.sell_fill. cbv zeta.
  set (w1 := match GroupID o with
             | Some group => cancel_sibling (orders w) 0 o group (c_Time candle) w
             | None => w
             end).
  assert (Hf1 : assets w1 = assets w /\ volume w1 = volume w).
  { unfold w1. destruct (GroupID o); [apply cancel_sibling_frame|done]. }
  destruct Hf1 as [Ha1 Hv1].
  set (w2 := add_volume (ensure_asset w1 quote) (c_Pair candle) (Quantity o * price)%Q).
  set (w3 := updateAveragePrice (Side o) (Pair o) (Quantity o) price
               (mark_order w2 i OrderStatusTypeFilled (c_Time candle))).
  assert (Ha3 : assets w3 = assets (ensure_asset w1 quote)).
  { unfold w3. by rewrite assets_updateAveragePrice, assets_mark_order. }
  assert (Hv3 : volume w3 = volume w2).
  { unfold w3. by rewrite volume_updateAveragePrice, volume_mark_order. }
  split.
  - intros [info Hinfo]. rewrite Ha3.
    rewrite (ensure_asset_keeps_entry w1 quote asset info); [by eexists|].
    by rewrite Ha1.
  - intros w' H. destruct (assets w3 !! asset) as [info|]; [|done].
    simpl in H. injection H as <-. split; [|split].
    + simpl. unfold w3. rewrite orders_updateAveragePrice.
      assert (Hlen : i < length (orders w2)).
      { unfold w2. simpl. rewrite orders_ensure_asset.
        apply lookup_lt_is_Some. unfold w1. destruct (GroupID o) as [g|]; [|by eexists].
        destruct (cancel_sibling_spec o g (c_Time candle) (orders w) 0 w eq_refl)
          as [->|(m & om & _ & _ & _ & ->)]; [by eexists|].
        simpl. apply lookup_lt_is_Some. rewrite length_insert.
        by apply lookup_lt_Some in Ho. }
      apply lookup_lt_is_Some in Hlen as [o2 Ho2].
      rewrite (orders_mark_order w2 i _ _ o2 Ho2).
      eexists. split; [apply list_lookup_insert_eq; by apply lookup_lt_Some in Ho2|done].
    + unfold volume_of. simpl. rewrite Hv3. unfold w2.
      fold (volume_of (add_volume (ensure_asset w1 quote) (c_Pair candle) (Quantity o * price))
                      (c_Pair candle)).
      rewrite volume_of_add_volume. unfold volume_of.
      by rewrite volume_ensure_asset, Hv1.
    + rewrite free_set_free, free_set_lock.
      assert (free w3 quote = free w quote) as ->; [|done].
      unfold free. f_equal.
      transitivity (balance (ensure_asset w1 quote) quote).
      * unfold balance. by rewrite Ha3.
      * rewrite balance_ensure. unfold balance. by rewrite Ha1.
Qed.

Lemma Qle_bool_false_iff (a b : Q) : Qle_bool a b = false <-> ~ (a <= b)%Q.
Proof.
  rewrite <- Qle_bool_iff. destruct (Qle_bool a b); split; intros H; try done.
Qed.

(** C7, as amended.
    (1) A resting sell stop or stop-limit order with stop price [stp] for the
    pair of the candle, when the matching loop reaches it: the loop body
    returns when the base asset has a balance entry; if [low <= stp] the order
    is marked filled, the volume of the pair grows by quantity times [stp] and
    the free quote balance by quantity times [stp]; otherwise the order stays as
    it is.
    (2) Such an order that belongs to no OCO group is reached as it was at
    the start of the candle, and after the whole candle it is filled if and
    only if [low <= stp].  (An OCO stop leg may be canceled before its turn by
    its sibling filled in the same candle.)
    (3) A resting buy order at price [P] is not filled by a candle whose
    close is above [P]. *)
Theorem matching_rules :
  (forall candle i w o stp asset quote,
     orders w !! i = Some o ->
     Status o = OrderStatusTypeNew -> Pair o = c_Pair candle -> Side o = SideTypeSell ->
     is_stop_type (Type_ o) = true -> Stop o = Some stp ->
     SplitAssetQuote (Pair o) = (asset, quote) ->
     (is_Some (assets w !! asset) -> is_Some (matchOrder candle i w)) /\
     forall w', matchOrder candle i w = Some w' ->
       ((c_Low candle <= stp)%Q ->
          (exists o', orders w' !! i = Some o' /\ Status o' = OrderStatusTypeFilled) /\
          volume_of w' (c_Pair candle) = (volume_of w (c_Pair candle) + Quantity o * stp)%Q /\
          free w' quote = (free w quote + Quantity o * stp)%Q) /\
       (~ (c_Low candle <= stp)%Q -> orders w' !! i = Some o)) /\
  (forall candle i w w' o stp,
     orders w !! i = Some o ->
     Status o = OrderStatusTypeNew -> Pair o = c_Pair candle -> Side o = SideTypeSell ->
     is_stop_type (Type_ o) = true -> Stop o = Some stp -> GroupID o = None ->
     OnCandle candle w = Some w' ->
     exists o', orders w' !! i = Some o' /\
                (Status o' = OrderStatusTypeFilled <-> (c_Low candle <= stp)%Q)) /\
  (forall candle i w w' o,
     orders w !! i = Some o ->
     Status o = OrderStatusTypeNew -> Side o = SideTypeBuy ->
     (Price o < c_Close candle)%Q ->
     OnCandle candle w = Some w' ->
     exists o', orders w' !! i = Some o' /\ Status o' <> OrderStatusTypeFilled).
Proof.
  assert (Hstep : forall candle i w o stp asset quote,
     orders w !! i = Some o ->
     Status o = OrderStatusTypeNew -> Pair o = c_Pair candle -> Side o = SideTypeSell ->
     is_stop_type (Type_ o) = true -> Stop o = Some stp ->
     SplitAssetQuote (Pair o) = (asset, quote) ->
     (is_Some (assets w !! asset) -> is_Some (matchOrder candle i w)) /\
     forall w', matchOrder candle i w = Some w' ->
       ((c_Low candle <= stp)%Q ->
          (exists o', orders w' !! i = Some o' /\ Status o' = OrderStatusTypeFilled) /\
          volume_of w' (c_Pair candle) = (volume_of w (c_Pair candle) + Quantity o * stp)%Q /\
          free w' quote = (free w quote + Quantity o * stp)%Q) /\
       (~ (c_Low candle <= stp)%Q -> orders w' !! i = Some o)).
  { intros candle i w o stp asset quote Ho Hs Hp Hside Ht Hstop Hsplit.
    rewrite (matchOrder_sell candle i w o asset quote) by done.
    rewrite (sell_price_stop o candle stp) by done. simpl.
    assert (Ho' : orders (ensure_volume w (c_Pair candle)) !! i = Some o)
      by (by rewrite orders_ensure_volume).
    destruct (sell_fill_spec candle i o stp asset quote _ Ho') as [Hret Hfill].
    destruct (Qle_bool (c_Low candle) stp) eqn:Hlow.
    - apply Qle_bool_iff in Hlow. split.
      + intros Ha. apply Hret. by rewrite assets_ensure_volume.
      + intros w' Hw'. split; [|done]. intros _.
        destruct (Hfill w' Hw') as (Hf & Hv & Hq). split; [done|]. split.
        * by rewrite Hv, volume_of_ensure_volume.
        * rewrite Hq. unfold free, balance. by rewrite assets_ensure_volume.
    - apply Qle_bool_false_iff in Hlow. split; [by eexists|].
      intros w' [= <-]. split; [done|]. intros _. by rewrite orders_ensure_volume. }
  split; [exact Hstep|]. split.
  - intros candle i w w' o stp Ho Hs Hp Hside Ht Hstop Hg Hon.
    destruct (OnCandle_orders candle w w' Hon) as (w0 & w1 & Ho0 & _ & _ & Hloop & ->).
    assert (Hi : i < length (orders w)) by (by apply lookup_lt_Some in Ho).
    assert (Hseq : seq 0 (length (orders w))
                   = seq 0 i ++ i :: seq (S i) (length (orders w) - S i)).
    { replace (length (orders w)) with (i + S (length (orders w) - S i)) at 1 by lia.
      by rewrite seq_app. }
    rewrite Hseq, match_orders_app in Hloop.
    destruct (match_orders candle (seq 0 i) w0) as [wa|] eqn:Ea; [|done]. simpl in Hloop.
    destruct (matchOrder candle i wa) as [wb|] eqn:Eb; [|done]. simpl in Hloop.
    assert (Hoa : orders wa !! i = Some o).
    { apply (match_orders_keeps candle (seq 0 i) w0 wa i o Ea); [|by rewrite Ho0|done].
      rewrite elem_of_seq. lia. }
    destruct (SplitAssetQuote (Pair o)) as [asset quote] eqn:Hsplit.
    destruct (Hstep candle i wa o stp asset quote Hoa Hs Hp Hside Ht Hstop Hsplit)
      as [_ Hb]. destruct (Hb wb Eb) as [Hyes Hno].
    assert (Hafter : forall ob, orders wb !! i = Some ob -> GroupID ob = None ->
                                orders w1 !! i = Some ob).
    { intros ob Hob Hgb.
      apply (match_orders_keeps candle _ wb w1 i ob Hloop); [|done|done].
      rewrite elem_of_seq. lia. }
    destruct (Qle_bool (c_Low candle) stp) eqn:Hlow.
    + apply Qle_bool_iff in Hlow. destruct (Hyes Hlow) as ((ob & Hob & Hsb) & _).
      exists ob. split; [|by split].
      apply Hafter; [done|].
      rewrite (matchOrder_sell candle i wa o asset quote) in Eb by done.
      rewrite (sell_price_stop o candle stp) in Eb by done. simpl in Eb.
      apply Qle_bool_iff in Hlow. rewrite Hlow in Eb.
      apply sell_fill_orders with (o := o) in Eb; [|by rewrite orders_ensure_volume].
      rewrite orders_ensure_volume in Eb.
      destruct Eb as [Eb|(g & _ & _ & Hgo & _)]; [|congruence].
      rewrite Eb, list_lookup_insert_eq in Hob by (by apply lookup_lt_Some in Hoa).
      injection Hob as <-. done.
    + apply Qle_bool_false_iff in Hlow. exists o. split.
      * apply Hafter; [by apply Hno|done].
      * rewrite Hs. split; [done|]. intros H. by apply Hlow in H.
  - intros candle i w w' o Ho Hs Hside Hprice Hon.
    destruct (OnCandle_orders candle w w' Hon) as (w0 & w1 & Ho0 & _ & _ & Hloop & ->).
    apply (match_orders_buy_unfilled candle _ w0 w1 i o Hloop); try done.
    + by rewrite Ho0.
    + apply Qle_bool_false_iff. by apply Qlt_not_le.
    + by rewrite Hs.
Qed.

End Matching.

Import PaperExamples.

Lemma matching_rules_witness :
  (orders stop_wallet !! 0 = Some stop_order /\
   exists w' o',
     Paper.matchOrder SplitAssetQuote (candle 60 100 100 85 110) 0 stop_wallet = Some w' /\
     orders w' !! 0 = Some o' /\ Status o' = OrderStatusTypeFilled /\
     volume_of w' "BTCUSDT" = (volume_of stop_wallet "BTCUSDT" + 1 * 90)%Q /\
     free w' "USDT" = (free stop_wallet "USDT" + 1 * 90)%Q) /\
  (exists w' o',
     Paper.OnCandle SplitAssetQuote ToUpper (candle 60 100 100 85 110) stop_wallet = Some w' /\
     orders w' !! 0 = Some o' /\
     (Status o' = OrderStatusTypeFilled <-> (c_Low (candle 60 100 100 85 110) <= 90)%Q)) /\
  (orders limit_wallet !! 0 = Some limit_order /\
   exists w' o',
     Paper.OnCandle SplitAssetQuote ToUpper (candle 60 105 110 104 111) limit_wallet = Some w' /\
     orders w' !! 0 = Some o' /\ Status o' <> OrderStatusTypeFilled).
Proof.
  pose proof (matching_rules SplitAssetQuote ToUpper) as (H1 & H2 & H3).
  assert (Hs : orders stop_wallet !! 0 = Some stop_order) by reflexivity.
  assert (Hl : orders limit_wallet !! 0 = Some limit_order) by reflexivity.
  split; [|split].
  - split; [exact Hs|].
    destruct (H1 (candle 60 100 100 85 110) 0 stop_wallet stop_order 90%Q "BTC" "USDT"
                 Hs eq_refl eq_refl eq_refl eq_refl eq_refl eq_refl) as [Hret Hfill].
    destruct Hret as [w' Hw']; [by eexists|].
    destruct (Hfill w' Hw') as [Hyes _].
    destruct Hyes as ((o' & Ho' & Hf) & Hv & Hq); [by vm_compute|].
    exists w', o'. repeat split; done.
  - destruct (Paper.OnCandle SplitAssetQuote ToUpper (candle 60 100 100 85 110) stop_wallet)
      as [w'|] eqn:E; [|by vm_compute in E].
    destruct (H2 (candle 60 100 100 85 110) 0 stop_wallet w' stop_order 90%Q
                 Hs eq_refl eq_refl eq_refl eq_refl eq_refl eq_refl E) as (o' & Ho' & Hiff).
    by exists w', o'.
  - split; [exact Hl|].
    destruct (Paper.OnCandle SplitAssetQuote ToUpper (candle 60 105 110 104 111) limit_wallet)
      as [w'|] eqn:E; [|by vm_compute in E].
    destruct (H3 (candle 60 105 110 104 111) 0 limit_wallet w' limit_order
                 Hl eq_refl eq_refl ltac:(by vm_compute) E) as (o' & Ho' & Hn).
    by exists w', o'.
Defined.

(** C7, as stated, fails.  With 1 BTC a sell OCO is created, limit 120 and
    stop 90; its stop leg rests with status new.  A candle with high 125 and
    low 85 fills the limit leg first, and the stop leg, whose stop price the
    low has reached, is canceled and not filled. *)
Lemma oco_stop_leg_is_canceled :
  exists w w' o o',
    snd (CreateOrderOCO SplitAssetQuote SideTypeSell "BTCUSDT" 1 120 90 90 (wallet 0 1 100))
      = w /\
    orders w !! 1 = Some o /\
    Status o = OrderStatusTypeNew /\ Side o = SideTypeSell /\
    Type_ o = OrderTypeStopLoss /\ Stop o = Some 90%Q /\
    Pair o = c_Pair (candle 60 100 100 85 125) /\
    (c_Low (candle 60 100 100 85 125) <= 90)%Q /\
    Paper.OnCandle SplitAssetQuote ToUpper (candle 60 100 100 85 125) w = Some w' /\
    orders w' !! 1 = Some o' /\
    Status o' = OrderStatusTypeCanceled.
Proof.
  eexists _, _, _, _.
  split; [vm_compute; reflexivity|].
  split; [vm_compute; reflexivity|].
  do 5 (split; [reflexivity|]).
  split; [by vm_compute|].
  split; [vm_compute; reflexivity|].
  split; [vm_compute; reflexivity|reflexivity].
Qed.

End MatchingProofs.

Module ModelFacts.
Import Model Feed.

(** [Candle.Less] is a strict weak order on candles: irreflexive, asymmetric
    and transitive, and two candles of which neither precedes the other have
    the same start time, the same update time and the same pair. *)
Theorem Less_strict_weak_order :
  (forall a, Less a a = false) /\
  (forall a b, Less a b = true -> Less b a = false) /\
  (forall a b c, Less a b = true -> Less b c = true -> Less a c = true) /\
  (forall a b, Less a b = false -> Less b a = false ->
     c_Time a = c_Time b /\ c_UpdatedAt a = c_UpdatedAt b /\ c_Pair a = c_Pair b).
Proof.
  assert (Hirr : forall a, Less a a = false).
  { intros a. destruct (Less a a) eqn:E; [|done].
    pose proof (ModelProofs.Less_asym a a E). congruence. }
  split; [exact Hirr|]. split; [exact ModelProofs.Less_asym|]. split.
  - intros a b c Hab Hbc. destruct (Less a c) eqn:Hac; [done|].
    pose proof (ModelProofs.Less_asym a b Hab) as Hba.
    pose proof (ModelProofs.Less_negtrans c a b Hac Hba) as Hbc'. congruence.
  - intros a b. unfold Less.
    destruct (Z.ltb_spec (c_Time b - c_Time a) 0), (Z.ltb_spec 0 (c_Time b - c_Time a)),
             (Z.ltb_spec (c_Time a - c_Time b) 0), (Z.ltb_spec 0 (c_Time a - c_Time b));
      try done; try lia.
    destruct (Z.ltb_spec (c_UpdatedAt b - c_UpdatedAt a) 0),
             (Z.ltb_spec 0 (c_UpdatedAt b - c_UpdatedAt a)),
             (Z.ltb_spec (c_UpdatedAt a - c_UpdatedAt b) 0),
             (Z.ltb_spec 0 (c_UpdatedAt a - c_UpdatedAt b));
      try done; try lia.
    unfold String.ltb. rewrite (String.compare_antisym (c_Pair b) (c_Pair a)).
    destruct (String.compare (c_Pair a) (c_Pair b)) eqn:E; try done.
    apply String.compare_eq_iff in E. intros _ _. repeat split; [lia|lia|done].
Qed.

(** The Heikin-Ashi candle computed from a candle has its open and its close
    between its low and its high, a low that is not above and a high that is
    not below those of the candle, and the mean of the candle's four prices
    as its close; [ToHeikinAshi] returns it under the pair, the times, the
    volume and the completeness of the candle, without metadata. *)
Theorem HeikinAshi_within_range (previous c : Candle) :
  let h := fst (ToHeikinAshi c previous) in
  (c_Low h <= c_Open h)%Q /\ (c_Open h <= c_High h)%Q /\
  (c_Low h <= c_Close h)%Q /\ (c_Close h <= c_High h)%Q /\
  (c_Low h <= c_Low c)%Q /\ (c_High c <= c_High h)%Q /\
  c_Close h = ((c_Open c + c_High c + c_Low c + c_Close c) / 4)%Q /\
  c_Pair h = c_Pair c /\ c_Time h = c_Time c /\ c_UpdatedAt h = c_UpdatedAt c /\
  c_Volume h = c_Volume c /\ c_Complete h = c_Complete c /\ c_Metadata h = ∅.
Proof.
  simpl. repeat split.
  - eapply Qle_trans; [apply Q.le_min_r|apply Q.le_min_l].
  - eapply Qle_trans; [|apply Q.le_max_r]. apply Q.le_max_l.
  - eapply Qle_trans; [apply Q.le_min_r|apply Q.le_min_r].
  - eapply Qle_trans; [|apply Q.le_max_r]. apply Q.le_max_r.
  - apply Q.le_min_l.
  - apply Q.le_max_l.
Qed.

End ModelFacts.

Module SeriesProofs.
Import Model Series.

Lemma Last_Some (s : list Q) (i : Z) :
  (0 <= i < Z.of_nat (length s))%Z ->
  Last s i = s !! (length s - 1 - Z.to_nat i).
Proof.
  intros H. unfold Last. destruct (Z.ltb_spec (Z.of_nat (length s) - 1 - i) 0); [lia|].
  f_equal. lia.
Qed.

Lemma Last_None (s : list Q) (i : Z) :
  Last s i = None <-> (i < 0 \/ Z.of_nat (length s) <= i)%Z.
Proof.
  unfold Last. destruct (Z.ltb_spec (Z.of_nat (length s) - 1 - i) 0).
  - split; [lia|done].
  - rewrite lookup_ge_None. lia.
Qed.

(** [LastValues] with a size that is not negative returns the last [size]
    values, or all of them when there are fewer: the positions below [size]
    read, counted from the end, as in the series.  A negative size panics. *)
Theorem LastValues_keeps_last (s : list Q) (size : Z) :
  ((0 <= size)%Z ->
   exists t, LastValues s size = Some t /\
             length t = Nat.min (length s) (Z.to_nat size) /\
             t `suffix_of` s /\
             forall i, (0 <= i < size)%Z -> Last t i = Last s i) /\
  ((size < 0)%Z -> LastValues s size = None).
Proof.
  unfold LastValues. split.
  - intros Hs. destruct (Z.ltb_spec size (Z.of_nat (length s))) as [Hlt|Hge].
    + destruct (Z.ltb_spec size 0); [lia|].
      eexists. split; [reflexivity|]. split; [rewrite length_drop; lia|].
      split; [apply suffix_drop|].
      intros i Hi.
      assert (Hl : length (drop (Z.to_nat (Z.of_nat (length s) - size)) s) = Z.to_nat size)
        by (rewrite length_drop; lia).
      rewrite !Last_Some by lia. rewrite lookup_drop. f_equal. lia.
    + exists s. repeat split; [lia|done].
  - intros Hs. destruct (Z.ltb_spec size (Z.of_nat (length s))); [|lia].
    destruct (Z.ltb_spec size 0); [done|lia].
Qed.

Lemma LastValues_keeps_last_witness :
  exists t, LastValues [1; 2; 3; 4]%Q 2 = Some t /\
            length t = Nat.min (length [1; 2; 3; 4]%Q) (Z.to_nat 2) /\
            t `suffix_of` [1; 2; 3; 4]%Q /\
            forall i, (0 <= i < 2)%Z -> Last t i = Last [1; 2; 3; 4]%Q i.
Proof.
  apply (LastValues_keeps_last [1; 2; 3; 4]%Q 2). lia.
Defined.

Lemma Last_two (s : list Q) :
  2 <= length s -> exists a b, Last s 0 = Some a /\ Last s 1 = Some b.
Proof.
  intros H.
  destruct (Last s 0) as [a|] eqn:Ea; [|apply Last_None in Ea; lia].
  destruct (Last s 1) as [b|] eqn:Eb; [|apply Last_None in Eb; lia].
  by exists a, b.
Qed.

(** On two series with at least two values each, [Cross] tells whether the
    series was above the reference at exactly one of the last two positions,
    and [Crossover] and [Crossunder] are never both true; when one of the
    series has fewer than two values, [Cross] panics. *)
Theorem Cross_is_a_change_of_side (s ref : list Q) :
  (forall s0 s1 r0 r1,
     Last s 0 = Some s0 -> Last s 1 = Some s1 ->
     Last ref 0 = Some r0 -> Last ref 1 = Some r1 ->
     Crossover s ref = Some (Qlt_bool r0 s0 && negb (Qlt_bool r1 s1)) /\
     Crossunder s ref = Some (negb (Qlt_bool r0 s0) && Qlt_bool r1 s1) /\
     Cross s ref = Some (xorb (Qlt_bool r0 s0) (Qlt_bool r1 s1))) /\
  (Cross s ref = None <-> length s < 2 \/ length ref < 2).
Proof.
  assert (Hfull : forall s0 s1 r0 r1,
     Last s 0 = Some s0 -> Last s 1 = Some s1 ->
     Last ref 0 = Some r0 -> Last ref 1 = Some r1 ->
     Crossover s ref = Some (Qlt_bool r0 s0 && negb (Qlt_bool r1 s1)) /\
     Crossunder s ref = Some (negb (Qlt_bool r0 s0) && Qlt_bool r1 s1) /\
     Cross s ref = Some (xorb (Qlt_bool r0 s0) (Qlt_bool r1 s1))).
  { intros s0 s1 r0 r1 Hs0 Hs1 Hr0 Hr1.
    unfold Cross, Crossover, Crossunder. rewrite Hs0, Hr0. simpl. rewrite Hs1, Hr1. simpl.
    unfold Qlt_bool. destruct (Qle_bool s0 r0), (Qle_bool s1 r1); simpl; done. }
  split; [exact Hfull|]. split.
  - intros Hn. destruct (decide (length s < 2)) as [|Hs]; [by left|].
    destruct (decide (length ref < 2)) as [|Hr]; [by right|]. exfalso.
    destruct (Last_two s) as (s0 & s1 & Hs0 & Hs1); [lia|].
    destruct (Last_two ref) as (r0 & r1 & Hr0 & Hr1); [lia|].
    destruct (Hfull s0 s1 r0 r1 Hs0 Hs1 Hr0 Hr1) as (_ & _ & Hc). congruence.
  - intros Hshort. unfold Cross, Crossover, Crossunder.
    destruct (Last s 0) as [s0|] eqn:Hs0; [|done]. simpl.
    destruct (Last ref 0) as [r0|] eqn:Hr0; [|done]. simpl.
    assert (Hone : Last s 1 = None \/ Last ref 1 = None).
    { destruct Hshort; [left|right]; apply Last_None; lia. }
    unfold Qlt_bool. destruct (Qle_bool s0 r0); simpl.
    + destruct Hone as [-> | ->]; [done|]. by destruct (Last s 1).
    + destruct Hone as [-> | ->]; [done|]. by destruct (Last s 1).
Qed.

Lemma Cross_is_a_change_of_side_witness :
  Crossover [1; 3]%Q [2; 2]%Q = Some (Qlt_bool 2 3 && negb (Qlt_bool 2 1)) /\
  Crossunder [1; 3]%Q [2; 2]%Q = Some (negb (Qlt_bool 2 3) && Qlt_bool 2 1) /\
  Cross [1; 3]%Q [2; 2]%Q = Some (xorb (Qlt_bool 2 3) (Qlt_bool 2 1)).
Proof.
  apply (proj1 (Cross_is_a_change_of_side [1; 3]%Q [2; 2]%Q)); reflexivity.
Defined.

End SeriesProofs.

Module TrailingProofs.
Import Model Trailing.

Lemma Update_step (t : TrailingStop) (price : Q) :
  active t = true -> (stop t < current t)%Q ->
  (fst (Update t price) = true <-> (price <= stop t)%Q) /\
  (stop t <= stop (snd (Update t price)))%Q /\
  current (snd (Update t price)) = price /\
  active (snd (Update t price)) = true /\
  (fst (Update t price) = false ->
   (stop (snd (Update t price)) < current (snd (Update t price)))%Q) /\
  ((current t < price)%Q ->
   (current (snd (Update t price)) - stop (snd (Update t price))
    == current t - stop t)%Q).
Proof.
  intros Ha Hgap. unfold Update. rewrite Ha. simpl.
  destruct (Qlt_bool (current t) price) eqn:Hrise; simpl.
  - apply ModelProofs.Qlt_bool_iff in Hrise.
    split; [|split; [|split; [done|split; [done|split]]]].
    + split; [done|]. intros Hle. lra.
    + lra.
    + intros _. lra.
    + intros _. lra.
  - assert (Hfall : ~ (current t < price)%Q).
    { intros H. apply ModelProofs.Qlt_bool_iff in H. congruence. }
    split; [apply Qle_bool_iff|].
    split; [lra|]. split; [done|]. split; [done|]. split; [|done].
    intros Hb. apply Qnot_le_lt. intros Hle. apply Qle_bool_iff in Hle. congruence.
Qed.

(** An active trailing stop whose stop is below its price signals exactly
    when the new price is at or below the stop.  The call never lowers the
    stop: a higher price raises it by the rise of the price, and as long as
    the call does not signal the stop stays below the price. *)
Theorem Update_signals_at_stop (t : TrailingStop) (price : Q) :
  active t = true -> (stop t < current t)%Q ->
  exists b t',
    Update t price = (b, t') /\
    (b = true <-> (price <= stop t)%Q) /\
    (stop t <= stop t')%Q /\ current t' = price /\ active t' = true /\
    (b = false -> (stop t' < current t')%Q) /\
    ((current t < price)%Q -> (stop t' == stop t + (price - current t))%Q) /\
    (~ (current t < price)%Q -> stop t' = stop t).
Proof.
  intros Ha Hgap.
  destruct (Update_step t price Ha Hgap) as (H1 & H2 & H3 & H4 & H5 & _).
  exists (fst (Update t price)), (snd (Update t price)).
  split; [by destruct (Update t price)|]. repeat split; try done; try apply H1.
  - intros Hrise. unfold Update. rewrite Ha. simpl.
    apply ModelProofs.Qlt_bool_iff in Hrise. by rewrite Hrise.
  - intros Hfall. unfold Update. rewrite Ha. simpl.
    destruct (Qlt_bool (current t) price) eqn:E; [|done].
    apply ModelProofs.Qlt_bool_iff in E. done.
Qed.

Lemma Update_signals_at_stop_witness :
  exists b t',
    Update (Start NewTrailingStop 100 95) 110 = (b, t') /\
    (b = true <-> (110 <= stop (Start NewTrailingStop 100 95))%Q) /\
    (stop (Start NewTrailingStop 100 95) <= stop t')%Q /\ current t' = 110%Q /\
    active t' = true /\
    (b = false -> (stop t' < current t')%Q) /\
    ((current (Start NewTrailingStop 100 95) < 110)%Q ->
     (stop t' == stop (Start NewTrailingStop 100 95)
                 + (110 - current (Start NewTrailingStop 100 95)))%Q) /\
    (~ (current (Start NewTrailingStop 100 95) < 110)%Q ->
     stop t' = stop (Start NewTrailingStop 100 95)).
Proof.
  apply (Update_signals_at_stop (Start NewTrailingStop 100 95) 110);
    [reflexivity|reflexivity].
Defined.

(** After [Start] with a stop below the price, over any sequence of updates
    none of which signalled, the trailing stop is still active, its stop has
    not moved below the stop it was started with, and its stop is below its
    price; an inactive trailing stop never signals and never changes. *)
Theorem Updates_keep_stop_below (t0 : TrailingStop) (price0 stop0 : Q) (prices : list Q) :
  (stop0 < price0)%Q ->
  (forall bs t', Updates (Start t0 price0 stop0) prices = (bs, t') ->
     Forall (fun b => b = false) bs ->
     active t' = true /\ (stop0 <= stop t')%Q /\ (stop t' < current t')%Q) /\
  (forall bs t', Updates (Stop (Start t0 price0 stop0)) prices = (bs, t') ->
     Forall (fun b => b = false) bs /\ t' = Stop (Start t0 price0 stop0)).
Proof.
  intros Hgap. split.
  - assert (Hgen : forall prices t bs t',
       active t = true -> (stop0 <= stop t)%Q -> (stop t < current t)%Q ->
       Updates t prices = (bs, t') -> Forall (fun b => b = false) bs ->
       active t' = true /\ (stop0 <= stop t')%Q /\ (stop t' < current t')%Q).
    { clear prices. induction prices as [|p prices IH]; intros t bs t' Ha Hs Hg Hu Hall; simpl in Hu.
      - by injection Hu as <- <-.
      - destruct (Update_step t p Ha Hg) as (_ & H2 & _ & H4 & H5 & _).
        destruct (Update t p) as [b t1]. destruct (Updates t1 prices) as [bs1 t2] eqn:E.
        injection Hu as <- <-. simpl in *.
        apply Forall_cons in Hall as [Hb Hall].
        apply (IH t1 bs1 t2); try done.
        + by eapply Qle_trans.
        + by apply H5. }
    intros bs t' Hu Hall. apply (Hgen prices (Start t0 price0 stop0) bs t'); try done.
    simpl. apply Qle_refl.
  - generalize (Stop (Start t0 price0 stop0)) (eq_refl : active (Stop (Start t0 price0 stop0)) = false).
    induction prices as [|p prices IH]; intros t Ha bs t' Hu; simpl in Hu.
    + by injection Hu as <- <-.
    + unfold Update in Hu. rewrite Ha in Hu. simpl in Hu.
      destruct (Updates t prices) as [bs1 t2] eqn:E. injection Hu as <- <-.
      destruct (IH t Ha bs1 t2 E) as [H1 H2]. split; [by constructor|done].
Qed.

Lemma Updates_keep_stop_below_witness :
  exists bs t',
    Updates (Start NewTrailingStop 100 95) [110; 108; 112]%Q = (bs, t') /\
    Forall (fun b => b = false) bs /\
    active t' = true /\ (95 <= stop t')%Q /\ (stop t' < current t')%Q.
Proof.
  destruct (Updates (Start NewTrailingStop 100 95) [110; 108; 112]%Q) as [bs t'] eqn:E.
  assert (Hall : Forall (fun b => b = false) bs).
  { pose proof E as E'. vm_compute in E'. injection E' as <- _. by repeat constructor. }
  exists bs, t'. split; [done|]. split; [done|].
  exact (proj1 (Updates_keep_stop_below NewTrailingStop 100 95 [110; 108; 112]%Q eq_refl)
               bs t' E Hall).
Defined.

End TrailingProofs.

Module LedgerFacts.
Import Model Ledger LedgerExamples.

(** A fill on the side of the position adds its quantity and moves the
    average price so that the value of the position is the value held plus
    the value of the fill; between two positive quantities the new average
    lies between the old average and the price of the fill.  No result is
    emitted and the position is not finished. *)
Theorem Update_same_side_averages (p : Position) (o : Order) (price : Q) :
  p_Side p = Side o -> fill_price o = Some price ->
  (0 < p_Quantity p)%Q -> (0 < Quantity o)%Q ->
  exists p',
    Update p o = Some (p', o, None, false) /\
    p_Side p' = p_Side p /\ p_CreatedAt p' = p_CreatedAt p /\
    p_Quantity p' = (p_Quantity p + Quantity o)%Q /\
    (p_AvgPrice p' * p_Quantity p' == p_AvgPrice p * p_Quantity p + price * Quantity o)%Q /\
    (Qmin (p_AvgPrice p) price <= p_AvgPrice p')%Q /\
    (p_AvgPrice p' <= Qmax (p_AvgPrice p) price)%Q.
Proof.
  intros Hside Hprice Hq Ho. unfold Update. rewrite Hprice. simpl.
  rewrite decide_True by done. eexists. split; [reflexivity|]. simpl.
  assert (Hsum : (0 < p_Quantity p + Quantity o)%Q) by lra.
  repeat split.
  - field. lra.
  - apply Qle_shift_div_l; [done|].
    pose proof (Q.le_min_l (p_AvgPrice p) price).
    pose proof (Q.le_min_r (p_AvgPrice p) price).
    nra.
  - apply Qle_shift_div_r; [done|].
    pose proof (Q.le_max_l (p_AvgPrice p) price).
    pose proof (Q.le_max_r (p_AvgPrice p) price).
    nra.
Qed.

Lemma Update_same_side_averages_witness :
  exists p',
    Update (mkPosition SideTypeBuy 100 10 0) (fill SideTypeBuy OrderTypeMarket 130 5 7)
      = Some (p', fill SideTypeBuy OrderTypeMarket 130 5 7, None, false) /\
    p_Side p' = SideTypeBuy /\ p_CreatedAt p' = 0%Z /\
    p_Quantity p' = (10 + 5)%Q /\
    (p_AvgPrice p' * p_Quantity p' == 100 * 10 + 130 * 5)%Q /\
    (Qmin 100 130 <= p_AvgPrice p')%Q /\
    (p_AvgPrice p' <= Qmax 100 130)%Q.
Proof.
  apply (Update_same_side_averages (mkPosition SideTypeBuy 100 10 0)
           (fill SideTypeBuy OrderTypeMarket 130 5 7) 130%Q);
    reflexivity.
Defined.

(** An opposite-side fill smaller than the position, whose average price is
    not zero, leaves the side, the average price and the opening time of the
    position and takes its quantity off.  The result it emits has the
    percentage over the average price held, and a value that multiplies the
    price difference by the smaller of the quantity that remains and the
    quantity of the fill. *)
Theorem Update_partial_close (p : Position) (o : Order) (price : Q) :
  ~ (p_AvgPrice p == 0)%Q ->
  p_Side p <> Side o -> fill_price o = Some price ->
  (Quantity o < p_Quantity p)%Q ->
  exists o' r,
    Update p o = Some (mkPosition (p_Side p) (p_AvgPrice p)
                                  (p_Quantity p - Quantity o) (p_CreatedAt p),
                       o', Some r, false) /\
    r_ProfitPercent r = ((price - p_AvgPrice p) / p_AvgPrice p)%Q /\
    r_ProfitValue r
      = ((price - p_AvgPrice p) * Qmin (p_Quantity p - Quantity o) (Quantity o))%Q /\
    r_Side r = p_Side p /\
    r_Duration r = (CreatedAt o - p_CreatedAt p)%Z /\
    Model.Profit o' = r_ProfitPercent r /\ Model.ProfitValue o' = r_ProfitValue r.
Proof.
  intros _ Hside Hprice Hq. unfold Update. rewrite Hprice. simpl.
  rewrite decide_False by done.
  assert (Qeq_bool (p_Quantity p) (Quantity o) = false) as ->.
  { destruct (Qeq_bool _ _) eqn:E; [|done]. apply Qeq_bool_iff in E. lra. }
  assert (Qlt_bool (Quantity o) (p_Quantity p) = true) as ->
    by (by apply ModelProofs.Qlt_bool_iff).
  eexists _, _. split; [reflexivity|]. done.
Qed.

Lemma Update_partial_close_witness :
  exists o' r,
    Update (mkPosition SideTypeBuy 100 10 0) (fill SideTypeSell OrderTypeMarket 110 8 7)
      = Some (mkPosition SideTypeBuy 100 (10 - 8) 0, o', Some r, false) /\
    r_ProfitPercent r = ((110 - 100) / 100)%Q /\
    r_ProfitValue r = ((110 - 100) * Qmin (10 - 8) 8)%Q /\
    r_Side r = SideTypeBuy /\
    r_Duration r = (7 - 0)%Z /\
    Model.Profit o' = r_ProfitPercent r /\ Model.ProfitValue o' = r_ProfitValue r.
Proof.
  apply (Update_partial_close (mkPosition SideTypeBuy 100 10 0)
           (fill SideTypeSell OrderTypeMarket 110 8 7) 110%Q);
    [discriminate|discriminate|reflexivity|reflexivity].
Defined.

(** A filled order for a pair without a position opens one at the price, the
    quantity, the side and the creation time of the order and emits nothing;
    a filled opposite-side order of the same quantity then removes the
    position and emits one result, with the profit of the second price over
    the first one on the whole quantity.  An order that is not filled changes
    nothing. *)
Theorem position_opens_then_closes (c : Controller) (o1 o2 : Order) (price : Q) :
  position c !! Pair o1 = None ->
  Status o1 = OrderStatusTypeFilled -> Status o2 = OrderStatusTypeFilled ->
  Pair o2 = Pair o1 -> Side o2 <> Side o1 ->
  Qeq_bool (Quantity o1) (Quantity o2) = true ->
  fill_price o2 = Some price ->
  ~ (Price o1 == 0)%Q ->
  exists c1 c2 o2' r,
    processTrade c o1 = Some (c1, o1) /\
    position c1 !! Pair o1
      = Some (mkPosition (Side o1) (Price o1) (Quantity o1) (CreatedAt o1)) /\
    emitted c1 = emitted c /\
    processTrade c1 o2 = Some (c2, o2') /\
    position c2 !! Pair o1 = None /\
    emitted c2 = emitted c ++ [r] /\
    r_ProfitPercent r = ((price - Price o1) / Price o1)%Q /\
    r_ProfitValue r = ((price - Price o1) * Qmin (Quantity o1) (Quantity o2))%Q /\
    r_Side r = Side o1 /\
    r_Duration r = (CreatedAt o2 - CreatedAt o1)%Z /\
    (forall pair, pair <> Pair o1 -> position c2 !! pair = position c !! pair).
Proof.
  intros Hnone Hs1 Hs2 Hpair Hside Hq Hprice _.
  unfold processTrade at 1. rewrite decide_True by done.
  unfold updatePosition at 1. cbn [position Results emitted]. rewrite Hnone.
  eexists _, _, _, _. split; [reflexivity|].
  split; [cbn [position]; by rewrite lookup_insert_eq|]. split; [reflexivity|].
  unfold processTrade. rewrite decide_True by done.
  unfold updatePosition. cbn [position Results emitted].
  rewrite Hpair, lookup_insert_eq.
  unfold Update. rewrite Hprice. cbn [mbind option_bind p_Side p_Quantity p_AvgPrice p_CreatedAt].
  rewrite decide_False by done. rewrite Hq.
  cbn [p_Side p_Quantity p_AvgPrice p_CreatedAt].
  rewrite !lookup_insert_eq. cbn [mbind option_bind].
  split; [reflexivity|]. cbn [position emitted].
  split; [by rewrite lookup_delete_eq|]. split; [reflexivity|].
  repeat split; try done.
  intros pair Hne. rewrite lookup_delete_ne by done.
  by rewrite !lookup_insert_ne.
Qed.

Lemma position_opens_then_closes_witness :
  exists c1 c2 o2' r,
    processTrade NewController (fill SideTypeBuy OrderTypeMarket 100 10 1)
      = Some (c1, fill SideTypeBuy OrderTypeMarket 100 10 1) /\
    position c1 !! "BTCUSDT" = Some (mkPosition SideTypeBuy 100 10 1) /\
    emitted c1 = [] /\
    processTrade c1 (fill SideTypeSell OrderTypeMarket 110 10 7) = Some (c2, o2') /\
    position c2 !! "BTCUSDT" = None /\
    emitted c2 = [] ++ [r] /\
    r_ProfitPercent r = ((110 - 100) / 100)%Q /\
    r_ProfitValue r = ((110 - 100) * Qmin 10 10)%Q /\
    r_Side r = SideTypeBuy /\
    r_Duration r = (7 - 1)%Z /\
    (forall pair, pair <> "BTCUSDT" -> position c2 !! pair = position NewController !! pair).
Proof.
  apply (position_opens_then_closes NewController
           (fill SideTypeBuy OrderTypeMarket 100 10 1)
           (fill SideTypeSell OrderTypeMarket 110 10 7) 110%Q);
    try reflexivity; discriminate.
Defined.

(** The share of winning trades is a percentage between 0 and 100: 0 when no
    trade won (or none was recorded) and 100 when trades won and none lost. *)
Theorem WinPercentage_bounds (s : summary) :
  (0 <= WinPercentage s)%Q /\ (WinPercentage s <= 100)%Q /\
  (Win s = [] -> WinPercentage s == 0)%Q /\
  (Win s <> [] -> Lose s = [] -> WinPercentage s == 100)%Q.
Proof.
  unfold WinPercentage.
  destruct (Nat.eqb_spec (length (Win s) + length (Lose s)) 0) as [H0|Hne].
  - split; [apply Qle_refl|]. split; [done|]. split; [intros _; reflexivity|].
    intros Hw. destruct (Win s); [done|]. simpl in H0. lia.
  - set (a := inject_Z (Z.of_nat (length (Win s)))).
    set (b := inject_Z (Z.of_nat (length (Win s) + length (Lose s)))).
    assert (Ha : (0 <= a)%Q).
    { unfold a. rewrite <- (Zle_Qle 0). lia. }
    assert (Hb : (0 < b)%Q).
    { unfold b. rewrite <- (Zlt_Qlt 0). lia. }
    assert (Hab : (a <= b)%Q).
    { unfold a, b. rewrite <- Zle_Qle. lia. }
    assert (Hdiv0 : (0 <= a / b)%Q) by (apply Qle_shift_div_l; [done|lra]).
    assert (Hdiv1 : (a / b <= 1)%Q) by (apply Qle_shift_div_r; [done|lra]).
    split; [lra|]. split; [lra|]. split.
    + intros Hw. unfold a. rewrite Hw. simpl. reflexivity.
    + intros _ Hl. assert (E : (a == b)%Q).
      { unfold a, b. rewrite Hl. simpl. by rewrite Nat.add_0_r. }
      rewrite E. field. lra.
Qed.

End LedgerFacts.

Module FeedFacts.
Import Model Feed FeedQueries FeedExamples.

Lemma parseHeaders_loop_spec : forall headers index m add m' add',
  parseHeaders_loop headers index m add = (m', add') ->
  (forall i h, headers !! i = Some h ->
     (forall j, i < j -> headers !! j <> Some h) -> m' !! h = Some (index + i)) /\
  (forall h, h ∉ headers -> m' !! h = m !! h) /\
  (forall h, h ∈ add' <-> h ∈ add \/ (h ∈ headers /\ m !! h = None)).
Proof.
  induction headers as [|x headers IH]; intros index m add m' add' H; simpl in H.
  - injection H as <- <-. split; [done|]. split; [done|].
    intros h. split; [by left|]. intros [?|[Hin _]]; [done|]. by apply elem_of_nil in Hin.
  - apply IH in H as (H1 & H2 & H3). split; [|split].
    + intros [|i] h Hi Hlast; simpl in Hi.
      * injection Hi as ->. rewrite H2.
        -- rewrite lookup_insert_eq. f_equal. lia.
        -- intros [j Hj]%list_elem_of_lookup. by apply (Hlast (S j)); [lia|].
      * rewrite (H1 i h Hi); [f_equal; lia|].
        intros j Hj. apply (Hlast (S j)). lia.
    + intros h Hh. apply not_elem_of_cons in Hh as [Hne Hh].
      rewrite (H2 h Hh). by rewrite lookup_insert_ne.
    + intros h. rewrite H3. rewrite elem_of_cons.
      destruct (decide (h = x)) as [->|Hne].
      * rewrite lookup_insert_eq.
        destruct (m !! x) eqn:E.
        -- intuition congruence.
        -- rewrite elem_of_app, list_elem_of_singleton. intuition congruence.
      * rewrite lookup_insert_ne by done.
        assert (Hadd : h ∈ match m !! x with Some _ => add | None => add ++ [x] end
                       <-> h ∈ add).
        { destruct (m !! x); [done|]. rewrite elem_of_app, list_elem_of_singleton.
          intuition congruence. }
        rewrite Hadd. intuition congruence.
Qed.

Section Loading.
Variable Atoi : string -> option Z.
Variable ParseFloat : string -> option Q.
Variable ParseDuration : string -> option Z.

Local Abbreviation parseHeaders := (parseHeaders Atoi).
Local Abbreviation resample := (resample ParseDuration).
Local Abbreviation NewCSVFeed := (NewCSVFeed Atoi ParseFloat ParseDuration).

(** On a header row whose first name is not a number, [parseHeaders] maps
    every name of the row to the position of its last occurrence and keeps
    the well-known position of each of the six standard names that the row
    does not hold; the additional headers are the names of the row that are
    not standard.  On a row that starts with a number it returns the
    well-known positions, no additional header, and the flag [false]. *)
Theorem parseHeaders_positions (headers : list string) (first : string) :
  headers !! 0 = Some first ->
  (Atoi first = None ->
   exists m additional,
     parseHeaders headers = Ok (m, additional, true) /\
     (forall i h, headers !! i = Some h ->
        (forall j, i < j -> headers !! j <> Some h) -> m !! h = Some i) /\
     (forall h, h ∉ headers -> m !! h = headerMap0 !! h) /\
     (forall h, h ∈ additional <-> h ∈ headers /\ headerMap0 !! h = None) /\
     (forall i h line, headers !! i = Some h ->
        (forall j, i < j -> headers !! j <> Some h) ->
        column line m h = or_panic (line !! i))) /\
  (Atoi first <> None -> parseHeaders headers = Ok (headerMap0, [], false)).
Proof.
  intros Hfirst. unfold Feed.parseHeaders. rewrite Hfirst. simpl. split.
  - intros Hnum. rewrite Hnum.
    destruct (parseHeaders_loop headers 0 headerMap0 []) as [m additional] eqn:E.
    apply parseHeaders_loop_spec in E as (H1 & H2 & H3).
    exists m, additional. split; [done|]. split; [exact H1|]. split; [exact H2|]. split.
    + intros h. rewrite H3. split; [intros [Hin|?]; [by apply elem_of_nil in Hin|done]|by right].
    + intros i h line Hi Hlast. unfold column. by rewrite (H1 i h Hi Hlast).
  - intros Hnum. by destruct (Atoi first).
Qed.

(** [resample] panics when the feed holds no candle under the source key. *)
Lemma resample_empty c pair sourceTimeframe targetTimeframe :
  default [] (CandlePairTimeFrame c !! feedTimeframeKey pair sourceTimeframe) = [] ->
  resample c pair sourceTimeframe targetTimeframe = Panic.
Proof. intros H. unfold Feed.resample, resample_candles. by rewrite H. Qed.

(** [NewCSVFeed] panics on a file without data row: on an empty file, and on
    a file that holds a header row only, where [resample] indexes the last
    of zero candles. *)
Theorem NewCSVFeed_without_rows_panics (targetTimeframe : string) (feed : PairFeed)
  (file : list (list string)) (rest : list (PairFeed * option (list (list string)))) :
  file = [] \/
  (exists headers, file = [headers] /\ forall h, headers !! 0 = Some h -> Atoi h = None) ->
  NewCSVFeed targetTimeframe ((feed, Some file) :: rest) = Panic.
Proof.
  intros [->|(headers & -> & Hnum)]; unfold Feed.NewCSVFeed; simpl; unfold load_feed; simpl.
  - done.
  - unfold Feed.parseHeaders. destruct (headers !! 0) as [h|] eqn:Hh; [|done]. simpl.
    rewrite (Hnum h eq_refl).
    destruct (parseHeaders_loop headers 0 headerMap0 []) as [m additional]. simpl.
    rewrite resample_empty; [done|]. simpl. by rewrite lookup_insert_eq.
Qed.

Lemma skip_to_first_same source timeframe d :
  ParseDuration timeframe = Some d ->
  skip_to_first ParseDuration source timeframe timeframe = Ok source.
Proof.
  intros Hd. destruct source as [|candle rest]; [done|]. simpl.
  unfold isFistCandlePeriod, isLastCandlePeriod. rewrite Hd. simpl.
  by destruct (decide (timeframe = timeframe)).
Qed.

Lemma merge_loop_same timeframe : forall source candles,
  Forall (fun c => c_Complete c = true) candles ->
  merge_loop ParseDuration candles source timeframe timeframe
  = Ok (candles ++ ((fun c => set_complete c true) <$> source)).
Proof.
  induction source as [|candle rest IH]; intros candles Hall; simpl.
  - by rewrite app_nil_r.
  - unfold isLastCandlePeriod. destruct (decide (timeframe = timeframe)); [|done]. simpl.
    assert (E : match last candles with
                | Some prev => if negb (c_Complete prev) then merge prev (set_complete candle true)
                               else set_complete candle true
                | None => set_complete candle true
                end = set_complete candle true).
    { destruct (last candles) as [prev|] eqn:El; [|done].
      apply last_Some in El as [l' ->]. apply Forall_app in Hall as [_ Hp].
      apply Forall_inv in Hp. simpl in Hp. by rewrite Hp. }
    rewrite E, IH.
    + by rewrite <- app_assoc.
    + apply Forall_app. split; [done|]. by repeat constructor.
Qed.

(** Resampling to the timeframe of the source keeps every bar, marked
    complete, when the timeframe parses as a duration and the source has a
    bar; when the timeframe does not parse, it returns the error although
    nothing has to be merged. *)
Theorem resample_same_timeframe (c : CSVFeed) (pair timeframe : string) :
  default [] (CandlePairTimeFrame c !! feedTimeframeKey pair timeframe) <> [] ->
  (forall d, ParseDuration timeframe = Some d ->
     exists c',
       resample c pair timeframe timeframe = Ok c' /\
       Feeds c' = Feeds c /\
       CandlePairTimeFrame c'
       = <[feedTimeframeKey pair timeframe :=
             (fun b => set_complete b true)
               <$> default [] (CandlePairTimeFrame c !! feedTimeframeKey pair timeframe)]>
           (CandlePairTimeFrame c)) /\
  (ParseDuration timeframe = None -> resample c pair timeframe timeframe = Failed).
Proof.
  intros Hne. unfold Feed.resample, resample_candles.
  set (source := default [] (CandlePairTimeFrame c !! feedTimeframeKey pair timeframe)) in *.
  split.
  - intros d Hd. rewrite (skip_to_first_same source timeframe d Hd). simpl.
    rewrite (merge_loop_same timeframe source []) by done. simpl.
    destruct (last ((fun b => set_complete b true) <$> source)) as [final|] eqn:El.
    + simpl. assert (Hc : c_Complete final = true).
      { rewrite fmap_last in El. destruct (last source); [|done].
        by injection El as <-. }
      rewrite Hc. simpl. by eexists.
    + rewrite fmap_last in El. destruct (last source) eqn:E; [done|].
      apply last_None in E. done.
  - intros Hd. destruct source as [|candle rest]; [done|]. simpl.
    unfold isFistCandlePeriod. by rewrite Hd.
Qed.

End Loading.

Lemma parseHeaders_positions_witness :
  exists m additional,
    Feed.parseHeaders Atoi ["time"; "open"; "rsi"] = Ok (m, additional, true) /\
    (forall i h, ["time"; "open"; "rsi"] !! i = Some h ->
       (forall j, i < j -> ["time"; "open"; "rsi"] !! j <> Some h) -> m !! h = Some i) /\
    (forall h, h ∉ ["time"; "open"; "rsi"] -> m !! h = headerMap0 !! h) /\
    (forall h, h ∈ additional <-> h ∈ ["time"; "open"; "rsi"] /\ headerMap0 !! h = None) /\
    (forall i h line, ["time"; "open"; "rsi"] !! i = Some h ->
       (forall j, i < j -> ["time"; "open"; "rsi"] !! j <> Some h) ->
       column line m h = or_panic (line !! i)).
Proof.
  apply (proj1 (parseHeaders_positions Atoi ["time"; "open"; "rsi"] "time" eq_refl)).
  reflexivity.
Defined.

Lemma NewCSVFeed_without_rows_panics_witness :
  Feed.NewCSVFeed Atoi ParseFloat ParseDuration "1m"
    [(btc_feed, Some [["time"; "open"; "close"; "low"; "high"; "volume"]])] = Panic.
Proof.
  apply (NewCSVFeed_without_rows_panics Atoi ParseFloat ParseDuration "1m" btc_feed
           [["time"; "open"; "close"; "low"; "high"; "volume"]] []).
  right. eexists. split; [reflexivity|]. intros h [= <-]. reflexivity.
Defined.

Lemma resample_same_timeframe_witness :
  exists c',
    Feed.resample ParseDuration minute_feed "BTCUSDT" "1m" "1m" = Ok c' /\
    Feeds c' = Feeds minute_feed /\
    CandlePairTimeFrame c'
    = <[feedTimeframeKey "BTCUSDT" "1m" :=
          (fun b => set_complete b true)
            <$> default [] (CandlePairTimeFrame minute_feed !! feedTimeframeKey "BTCUSDT" "1m")]>
        (CandlePairTimeFrame minute_feed).
Proof.
  apply (proj1 (resample_same_timeframe ParseDuration minute_feed "BTCUSDT" "1m"
                  ltac:(by vm_compute)) (60 * second_ns)%Z).
  reflexivity.
Defined.

End FeedFacts.

Module QueryFacts.
Import Model Feed FeedQueries FeedExamples.

(** [CandlesByLimit] with a limit that is not negative takes the first
    [limit] candles of the series off the feed and returns them: together
    with what a subscription then sends they are the series as it was, and
    no other series changes.  With fewer candles than the limit it fails and
    takes nothing. *)
Theorem CandlesByLimit_splits (c : CSVFeed) (pair timeframe : string) (limit : Z) :
  (0 <= limit)%Z ->
  ((limit <= Z.of_nat (length (CandlesSubscription c pair timeframe)))%Z ->
   exists first c',
     CandlesByLimit c pair timeframe limit = Ok (first, c') /\
     length first = Z.to_nat limit /\
     first ++ CandlesSubscription c' pair timeframe = CandlesSubscription c pair timeframe /\
     Feeds c' = Feeds c /\
     forall key, key <> feedTimeframeKey pair timeframe ->
                 candles_of c' key = candles_of c key) /\
  ((Z.of_nat (length (CandlesSubscription c pair timeframe)) < limit)%Z ->
   CandlesByLimit c pair timeframe limit = Failed).
Proof.
  intros Hl. unfold CandlesByLimit, CandlesSubscription.
  set (key := feedTimeframeKey pair timeframe).
  destruct (Z.ltb_spec (Z.of_nat (length (candles_of c key))) limit) as [Hlt|Hge].
  - split; [lia|done].
  - split; [|lia]. intros _. destruct (Z.ltb_spec limit 0); [lia|].
    eexists _, _. split; [reflexivity|]. split; [rewrite length_take; lia|].
    split; [|split; [done|]].
    + unfold candles_of at 2. simpl. rewrite lookup_insert_eq. simpl.
      apply take_drop.
    + intros k Hk. unfold candles_of. simpl. by rewrite lookup_insert_ne.
Qed.

Lemma CandlesByLimit_splits_witness :
  exists first c',
    CandlesByLimit minute_feed "BTCUSDT" "1m" 3 = Ok (first, c') /\
    length first = Z.to_nat 3 /\
    first ++ CandlesSubscription c' "BTCUSDT" "1m"
      = CandlesSubscription minute_feed "BTCUSDT" "1m" /\
    Feeds c' = Feeds minute_feed /\
    forall key, key <> feedTimeframeKey "BTCUSDT" "1m" ->
                candles_of c' key = candles_of minute_feed key.
Proof.
  apply (proj1 (CandlesByLimit_splits minute_feed "BTCUSDT" "1m" 3 ltac:(lia))).
  by vm_compute.
Defined.

Lemma period_loop_filter start finish : forall source candles,
  period_loop source candles start finish
  = candles ++ filter (fun x => (start <= c_Time x <= finish)%Z) source.
Proof.
  induction source as [|x source IH]; intros candles; simpl.
  - by rewrite app_nil_r.
  - rewrite filter_cons.
    destruct (Z.ltb_spec (c_Time x) start), (Z.ltb_spec finish (c_Time x)); simpl;
      rewrite IH; case_decide; try lia; try done.
    by rewrite <- app_assoc.
Qed.

Lemma last_filter {A} (P : A -> Prop) `{forall x, Decision (P x)} (l : list A) (x : A) :
  last l = Some x -> P x -> last (filter P l) = Some x.
Proof.
  intros [l' ->]%last_Some HP. rewrite filter_app, filter_cons, decide_True by done.
  rewrite filter_nil. by rewrite last_snoc.
Qed.

Lemma limit_candles_spec duration candles final :
  (0 < duration)%Z -> last candles = Some final ->
  limit_candles duration candles
    = Some (filter (fun x => (c_Time final - duration < c_Time x)%Z) candles) /\
  last (filter (fun x => (c_Time final - duration < c_Time x)%Z) candles) = Some final.
Proof.
  intros Hd Hl. unfold limit_candles. rewrite Hl. simpl. split; [done|].
  apply last_filter; [done|lia].
Qed.

(** [Limit] with a positive duration keeps, of every series, the candles
    that start less than the duration before the last candle of the series,
    in order and with that last candle: a second [Limit] with the same
    duration changes nothing.  It panics when a series of the feed is
    empty. *)
Theorem Limit_keeps_recent (c : CSVFeed) (duration : Z) :
  (0 < duration)%Z ->
  ((forall key candles, CandlePairTimeFrame c !! key = Some candles -> candles <> []) ->
   exists c',
     Limit c duration = Ok c' /\ Feeds c' = Feeds c /\
     (forall key candles final,
        CandlePairTimeFrame c !! key = Some candles -> last candles = Some final ->
        CandlePairTimeFrame c' !! key
          = Some (filter (fun x => (c_Time final - duration < c_Time x)%Z) candles) /\
        last (candles_of c' key) = Some final) /\
     (forall key, CandlePairTimeFrame c !! key = None ->
                  CandlePairTimeFrame c' !! key = None) /\
     Limit c' duration = Ok c') /\
  (forall key, CandlePairTimeFrame c !! key = Some [] -> Limit c duration = Panic).
Proof.
  intros Hd. split.
  - intros Hne.
    assert (Hall : map_Forall (fun _ candles => length candles <> 0) (CandlePairTimeFrame c)).
    { intros key candles Hk. apply Hne in Hk. by destruct candles. }
    set (f := fun candles => default [] (limit_candles duration candles)).
    assert (Hkeep : forall key candles final,
              CandlePairTimeFrame c !! key = Some candles -> last candles = Some final ->
              (f <$> CandlePairTimeFrame c) !! key
                = Some (filter (fun x => (c_Time final - duration < c_Time x)%Z) candles) /\
              last (filter (fun x => (c_Time final - duration < c_Time x)%Z) candles)
                = Some final).
    { intros key candles final Hk Hl. rewrite lookup_fmap, Hk. simpl. unfold f.
      destruct (limit_candles_spec duration candles final Hd Hl) as [-> Hlast]. done. }
    assert (Hidem : forall key candles, CandlePairTimeFrame c !! key = Some candles ->
                                        f (f candles) = f candles).
    { intros key candles Hk. destruct (last candles) as [final|] eqn:Hl.
      - unfold f at 2 3. destruct (limit_candles_spec duration candles final Hd Hl) as [-> Hlast].
        simpl. unfold f. destruct (limit_candles_spec duration _ final Hd Hlast) as [-> _].
        simpl. apply list_filter_filter_l. done.
      - apply last_None in Hl. by apply Hne in Hk. }
    unfold Limit. rewrite decide_True by done. fold f.
    eexists. split; [reflexivity|]. split; [done|]. split; [|split].
    + intros key candles final Hk Hl. simpl.
      destruct (Hkeep key candles final Hk Hl) as [Hf Hlast].
      split; [done|]. unfold candles_of. simpl. by rewrite Hf.
    + intros key Hk. simpl. by rewrite lookup_fmap, Hk.
    + simpl. rewrite decide_True.
      * f_equal. f_equal. rewrite <- map_fmap_compose.
        apply map_eq. intros key. rewrite !lookup_fmap.
        destruct (CandlePairTimeFrame c !! key) as [candles|] eqn:Hk; [|done].
        simpl. f_equal. by apply (Hidem key).
      * intros key kept. rewrite lookup_fmap.
        destruct (CandlePairTimeFrame c !! key) as [candles|] eqn:Hk; [|done].
        simpl. intros [= <-].
        destruct (last candles) as [final|] eqn:Hl.
        -- unfold f. destruct (limit_candles_spec duration candles final Hd Hl) as [-> Hlast].
           simpl. intros H0. apply length_zero_iff_nil in H0. by rewrite H0 in Hlast.
        -- apply last_None in Hl. by apply Hne in Hk.
  - intros key Hk. unfold Limit. rewrite decide_False; [done|].
    intros Hall. by apply (Hall key []).
Qed.

Lemma Limit_keeps_recent_witness :
  exists c',
    Limit minute_feed (180 * second_ns) = Ok c' /\ Feeds c' = Feeds minute_feed /\
    (forall key candles final,
       CandlePairTimeFrame minute_feed !! key = Some candles -> last candles = Some final ->
       CandlePairTimeFrame c' !! key
         = Some (filter (fun x => (c_Time final - 180 * second_ns < c_Time x)%Z) candles) /\
       last (candles_of c' key) = Some final) /\
    (forall key, CandlePairTimeFrame minute_feed !! key = None ->
                 CandlePairTimeFrame c' !! key = None) /\
    Limit c' (180 * second_ns) = Ok c'.
Proof.
  apply (proj1 (Limit_keeps_recent minute_feed (180 * second_ns) ltac:(by vm_compute))).
  intros key candles Hk. unfold minute_feed in Hk. simpl in Hk.
  apply lookup_singleton_Some in Hk as [_ <-]. discriminate.
Defined.

Lemma append_cons (b : Ascii.ascii) (part s : string) :
  String b part +:+ s = String b (part +:+ s).
Proof. reflexivity. Qed.

Lemma append_nil (s : string) : "" +:+ s = s.
Proof. reflexivity. Qed.

Lemma append_snoc (part : string) (a : Ascii.ascii) (s : string) :
  (part +:+ String a "") +:+ s = part +:+ String a s.
Proof.
  induction part as [|b part IH]; [done|]. rewrite !append_cons. by f_equal.
Qed.

Lemma append_empty (s : string) : s +:+ "" = s.
Proof. induction s as [|a s IH]; [done|]. rewrite append_cons. by f_equal. Qed.

Lemma Split_dashless : forall s part,
  dashless s = true -> Split_dashes s part = [part +:+ s].
Proof.
  induction s as [|a s IH]; intros part Hs.
  - cbn [Split_dashes]. by rewrite append_empty.
  - cbn [dashless] in Hs. apply andb_true_iff in Hs as [Ha Hs].
    apply negb_true_iff in Ha. cbn [Split_dashes].
    destruct s as [|b s'].
    + done.
    + rewrite Ha. cbn [andb]. rewrite (IH _ Hs). by rewrite append_snoc.
Qed.

Lemma Split_feedKey : forall pair part timeframe,
  dashless pair = true ->
  Split_dashes (pair +:+ "--" +:+ timeframe) part
  = (part +:+ pair) :: Split_dashes timeframe "".
Proof.
  induction pair as [|a pair IH]; intros part timeframe Hp.
  - rewrite append_nil, append_empty. reflexivity.
  - cbn [dashless] in Hp. apply andb_true_iff in Hp as [Ha Hp]. apply negb_true_iff in Ha.
    rewrite append_cons. cbn [Split_dashes].
    destruct (pair +:+ "--" +:+ timeframe) as [|b s'] eqn:E.
    + by destruct pair.
    + rewrite Ha. cbn [andb]. rewrite <- E. rewrite (IH _ _ Hp). by rewrite append_snoc.
Qed.

(** A key built by [feedKey] from a pair and a timeframe that hold no dash
    is split back into that pair and that timeframe; on a key without dash
    [pairTimeframeFromKey] panics. *)
Theorem pairTimeframeFromKey_feedKey (pair timeframe : string) :
  (dashless pair = true -> dashless timeframe = true ->
   pairTimeframeFromKey (feedKey pair timeframe) = Some (pair, timeframe)) /\
  (dashless pair = true -> pairTimeframeFromKey pair = None).
Proof.
  unfold pairTimeframeFromKey, feedKey. split.
  - intros Hp Ht. rewrite (Split_feedKey pair "" timeframe Hp).
    rewrite (Split_dashless timeframe "" Ht). done.
  - intros Hp. by rewrite (Split_dashless pair "" Hp).
Qed.

Lemma pairTimeframeFromKey_feedKey_witness :
  pairTimeframeFromKey (feedKey "BTCUSDT" "1h") = Some ("BTCUSDT", "1h").
Proof.
  apply (proj1 (pairTimeframeFromKey_feedKey "BTCUSDT" "1h")); reflexivity.
Defined.

End QueryFacts.

Module WalletFacts.
Import Model Paper WalletQueries PaperExamples WalletExamples.

Lemma free_set_free_eq w a v : free (set_free w a v) a = v.
Proof. unfold free, balance, set_free. simpl. by rewrite lookup_insert_eq. Qed.

Lemma free_set_free_ne w a v b : a <> b -> free (set_free w a v) b = free w b.
Proof. intros H. unfold free, balance, set_free. simpl. by rewrite lookup_insert_ne. Qed.

Lemma lock_set_free w a v b : lock (set_free w a v) b = lock w b.
Proof.
  unfold lock, balance, set_free. simpl. destruct (decide (a = b)) as [->|H].
  - by rewrite lookup_insert_eq.
  - by rewrite lookup_insert_ne.
Qed.

Lemma lock_set_lock_eq w a v : lock (set_lock w a v) a = v.
Proof. unfold lock, balance, set_lock. simpl. by rewrite lookup_insert_eq. Qed.

Lemma lock_set_lock_ne w a v b : a <> b -> lock (set_lock w a v) b = lock w b.
Proof. intros H. unfold lock, balance, set_lock. simpl. by rewrite lookup_insert_ne. Qed.

Lemma free_after_set_lock w a v b : free (set_lock w a v) b = free w b.
Proof.
  unfold free, balance, set_lock. simpl. destruct (decide (a = b)) as [->|H].
  - by rewrite lookup_insert_eq.
  - by rewrite lookup_insert_ne.
Qed.

Lemma balance_set_free_ne w a v b : a <> b -> balance (set_free w a v) b = balance w b.
Proof. intros H. unfold balance, set_free. simpl. by rewrite lookup_insert_ne. Qed.

Lemma balance_set_lock_ne w a v b : a <> b -> balance (set_lock w a v) b = balance w b.
Proof. intros H. unfold balance, set_lock. simpl. by rewrite lookup_insert_ne. Qed.

Lemma free_ensure w a b : free (ensure_asset w a) b = free w b.
Proof. unfold free. by rewrite MatchingProofs.balance_ensure. Qed.

Lemma lock_ensure w a b : lock (ensure_asset w a) b = lock w b.
Proof. unfold lock. by rewrite MatchingProofs.balance_ensure. Qed.

Lemma same_book_refl w : same_book w w.
Proof. done. Qed.

Lemma same_book_trans w1 w2 w3 : same_book w1 w2 -> same_book w2 w3 -> same_book w1 w3.
Proof. intros (?&?&?&?) (?&?&?&?). repeat split; congruence. Qed.

Lemma same_book_set_assets w v : same_book w (set_assets w v).
Proof. done. Qed.

Lemma same_book_ensure w a : same_book w (ensure_asset w a).
Proof. unfold ensure_asset. by destruct (assets w !! a). Qed.

Section Wallet.
Variable SplitAssetQuote : string -> string * string.
Variable ToUpper : string -> string.
Variable AmountToLotSize : Q -> Z -> Q -> Q.

Local Abbreviation updateAveragePrice := (updateAveragePrice SplitAssetQuote).
Local Abbreviation validateFunds := (validateFunds SplitAssetQuote).
Local Abbreviation create := (create SplitAssetQuote AmountToLotSize).
Local Abbreviation creation_quantity := (creation_quantity AmountToLotSize).

Lemma same_book_updateAveragePrice side pair amount value w :
  same_book w (updateAveragePrice side pair amount value w).
Proof.
  destruct (MatchingProofs.updateAveragePrice_frame SplitAssetQuote side pair amount value w)
    as (s & l & ->). done.
Qed.

Lemma validateFunds_same_book side pair amount value fill w r w' :
  validateFunds side pair amount value fill w = (r, w') -> same_book w w'.
Proof.
  unfold Paper.validateFunds. destruct (SplitAssetQuote pair) as [asset quote].
  set (w1 := ensure_asset (ensure_asset w asset) quote).
  assert (H1 : same_book w w1).
  { eapply same_book_trans; apply same_book_ensure. }
  destruct side; cbv zeta;
    match goal with |- (if ?c then _ else _) = _ -> _ => destruct c end;
    try (intros [= <- <-]; exact H1);
    destruct fill; intros [= <- <-];
    repeat match goal with
           | |- same_book _ (if ?c then _ else _) => destruct c
           end;
    (eapply same_book_trans; [exact H1|]);
    repeat first [ apply same_book_refl
                 | (eapply same_book_trans; [|apply same_book_set_assets])
                 | (eapply same_book_trans; [|apply same_book_updateAveragePrice]) ].
Qed.


Lemma appended_fresh w w' os :
  orders w' = orders w ++ os ->
  Forall (fun o => (counter w < ExchangeID o <= counter w')%Z) os ->
  NoDup (ExchangeID <$> os) -> (counter w <= counter w')%Z ->
  ids_fresh w -> ids_fresh w'.
Proof.
  intros Ho Hos Hnd Hc [Hle Hno]. split; rewrite Ho.
  - apply Forall_app. split.
    + eapply Forall_impl; [exact Hle|]. simpl. intros o H. lia.
    + eapply Forall_impl; [exact Hos|]. simpl. intros o H. lia.
  - rewrite fmap_app. apply NoDup_app. split; [done|]. split; [|done].
    intros id [o1 [-> H1]]%list_elem_of_fmap [o2 [E H2]]%list_elem_of_fmap.
    rewrite Forall_forall in Hle, Hos. specialize (Hle o1 H1). specialize (Hos o2 H2).
    simpl in *. lia.
Qed.

Lemma created_orders side pair size value fill w
  (k : PaperWallet -> (error + list Order) * PaperWallet) os w' :
  (if Qeq_bool size 0 then (inl (Plain ErrInvalidQuantity), w)
   else match validateFunds side pair size value fill w with
        | (Some err, w1) => (inl err, w1)
        | (None, w1) => k w1
        end) = (inr os, w') ->
  exists w1, same_book w w1 /\ k w1 = (inr os, w').
Proof.
  destruct (Qeq_bool size 0); [done|].
  destruct (validateFunds side pair size value fill w) as [[err|] w1] eqn:E; [done|].
  intros H. exists w1. split; [|done]. by apply validateFunds_same_book in E.
Qed.

Lemma creation_appends_ids (c : creation) (w w' : PaperWallet) (os : list Order) :
  create c w = (inr os, w') ->
  orders w' = orders w ++ os /\ os <> [] /\
  (counter w < counter w')%Z /\
  Forall (fun o => (counter w < ExchangeID o <= counter w')%Z /\
                   Pair o = creation_pair c /\ Quantity o = creation_quantity c w) os /\
  NoDup (ExchangeID <$> os).
Proof.
  intros H.
  assert (Hvol : forall w1 pr, orders (ensure_volume w1 pr) = orders w1 /\
                               counter (ensure_volume w1 pr) = counter w1).
  { intros w1 pr. unfold ensure_volume. by destruct (volume w1 !! pr). }
  destruct c as [side pr size price stop stopLimit|side pr size limit|pr size limit
                |side pr size|side pr quoteQuantity]; simpl in H;
    unfold CreateOrderOCO, CreateOrderLimit, CreateOrderStop, CreateOrderMarket,
           CreateOrderMarketQuote, createOrderMarket in H;
    apply created_orders in H as (w1 & (Ho & Hc & _ & _) & H);
    unfold ID in H; cbn [fst snd counter orders set_counter set_orders add_volume set_volume] in H;
    injection H as <- <-;
    cbn [fst snd counter orders set_counter set_orders add_volume set_volume
         creation_pair Paper.creation_quantity];
    try (destruct (Hvol w1 pr) as [-> ->]); rewrite Ho, Hc;
    (split; [reflexivity|]); (split; [done|]); (split; [lia|]);
    (split; [repeat constructor; simpl; lia|]);
    repeat constructor; rewrite ?elem_of_cons, ?elem_of_nil; simpl; lia.
Qed.

(** A successful order creation appends the orders it returns to the order
    book, in order, and changes no order that was there.  The orders carry
    the pair and the quantity of the call and exchange ids above the counter
    as it was, pairwise distinct: when the ids of the book were below the
    counter and distinct before, they are so after. *)
Theorem creation_appends_fresh_ids (c : creation) (w w' : PaperWallet) (os : list Order) :
  create c w = (inr os, w') ->
  orders w' = orders w ++ os /\ os <> [] /\
  (counter w < counter w')%Z /\
  Forall (fun o => (counter w < ExchangeID o <= counter w')%Z /\
                   Pair o = creation_pair c /\ Quantity o = creation_quantity c w) os /\
  NoDup (ExchangeID <$> os) /\
  (ids_fresh w -> ids_fresh w').
Proof.
  intros H.
  destruct (creation_appends_ids c w w' os H) as (Ho & Hne & Hc & Hall & Hnd).
  repeat split; try done.
  - apply (appended_fresh w w' os Ho); [|done|lia|done].
    eapply Forall_impl; [exact Hall|]. simpl. tauto.
  - apply (appended_fresh w w' os Ho); [|done|lia|done].
    eapply Forall_impl; [exact Hall|]. simpl. tauto.
Qed.

Lemma find_fresh (l : list Order) (id : Z) :
  Forall (fun o => ExchangeID o <> id) l ->
  List.find (fun o => bool_decide (ExchangeID o = id)) l = None.
Proof.
  induction 1 as [|o l Ho _ IH]; simpl; [done|]. by rewrite bool_decide_false.
Qed.

Lemma find_unique (l : list Order) (o : Order) :
  o ∈ l -> NoDup (ExchangeID <$> l) ->
  List.find (fun x => bool_decide (ExchangeID x = ExchangeID o)) l = Some o.
Proof.
  induction l as [|x l IH]; intros Hin Hnd; [by apply elem_of_nil in Hin|].
  simpl. rewrite fmap_cons in Hnd. apply NoDup_cons in Hnd as [Hx Hnd].
  apply elem_of_cons in Hin as [->|Hin].
  - by rewrite bool_decide_true.
  - rewrite bool_decide_false; [by apply IH|].
    intros E. apply Hx. rewrite E. by apply list_elem_of_fmap_2.
Qed.

Lemma find_app (l1 l2 : list Order) (f : Order -> bool) :
  List.find f (l1 ++ l2) = match List.find f l1 with
                           | Some x => Some x
                           | None => List.find f l2
                           end.
Proof. induction l1 as [|x l1 IH]; simpl; [done|]. by destruct (f x). Qed.

(** Every order that a successful creation returned is found again by its
    exchange id, as it was returned, when the ids of the book were below the
    counter and distinct; an id above the counter is not found. *)
Theorem created_order_is_found (c : creation) (w w' : PaperWallet) (os : list Order) :
  create c w = (inr os, w') -> ids_fresh w ->
  (forall o, o ∈ os -> FindOrder (ExchangeID o) w' = Some o) /\
  (forall id, (counter w' < id)%Z -> FindOrder id w' = None).
Proof.
  intros H Hfresh.
  destruct (creation_appends_ids c w w' os H) as (Ho & _ & Hc & Hall & Hnd).
  split.
  - intros o Hin. unfold FindOrder. rewrite Ho, find_app.
    rewrite find_fresh; [by apply find_unique|].
    destruct Hfresh as [Hle _]. eapply Forall_impl; [exact Hle|]. simpl.
    intros o1 H1. rewrite Forall_forall in Hall. specialize (Hall o Hin). simpl in Hall. lia.
  - intros id Hid. unfold FindOrder. apply find_fresh.
    destruct (appended_fresh w w' os Ho) as [Hle _]; try done; try lia.
    { eapply Forall_impl; [exact Hall|]. simpl. tauto. }
    eapply Forall_impl; [exact Hle|]. simpl. lia.
Qed.


Lemma Qlt_bool_false (a b : Q) : Qlt_bool a b = false <-> (b <= a)%Q.
Proof.
  unfold Qlt_bool. rewrite negb_false_iff. apply Qle_bool_iff.
Qed.

(** Admission of a resting order, for a pair with distinct base and quote
    assets, a base balance that is not negative and a positive quantity.
    A buy is admitted exactly when the free quote balance covers quantity
    times price, and moves that amount of quote from free to locked.  A sell
    of no more than the free base balance, at a price that is not negative
    and with a free quote balance that is not negative, is admitted and moves
    the quantity of base from free to locked.  Neither writes the other
    balance of the pair, another asset, the order book or the counter. *)
Theorem validateFunds_locks_funds (pair asset quote : string) (amount value : Q)
  (w : PaperWallet) :
  SplitAssetQuote pair = (asset, quote) -> asset <> quote ->
  (0 <= free w asset)%Q -> (0 < amount)%Q ->
  ((free w quote < amount * value)%Q ->
   exists w', validateFunds SideTypeBuy pair amount value false w
              = (Some (insufficient pair amount), w')) /\
  ((amount * value <= free w quote)%Q ->
   exists w',
     validateFunds SideTypeBuy pair amount value false w = (None, w') /\
     (free w' quote == free w quote - amount * value)%Q /\
     (lock w' quote == lock w quote + amount * value)%Q /\
     (free w' asset == free w asset)%Q /\ (lock w' asset == lock w asset)%Q /\
     (forall a, a <> asset -> a <> quote -> balance w' a = balance w a) /\
     orders w' = orders w /\ counter w' = counter w) /\
  ((amount <= free w asset)%Q -> (0 <= value)%Q -> (0 <= free w quote)%Q ->
   exists w',
     validateFunds SideTypeSell pair amount value false w = (None, w') /\
     (free w' asset == free w asset - amount)%Q /\
     (lock w' asset == lock w asset + amount)%Q /\
     (free w' quote == free w quote)%Q /\ (lock w' quote == lock w quote)%Q /\
     (forall a, a <> asset -> a <> quote -> balance w' a = balance w a) /\
     orders w' = orders w /\ counter w' = counter w).
Proof.
  intros Hsplit Hne Hfree Hamount.
  unfold Paper.validateFunds. rewrite Hsplit. cbv zeta.
  set (w1 := ensure_asset (ensure_asset w asset) quote).
  assert (Hs1 : same_book w w1).
  { eapply same_book_trans; apply same_book_ensure. }
  assert (Hfa : free w1 asset = free w asset) by (unfold w1; by rewrite !free_ensure).
  assert (Hfq : free w1 quote = free w quote) by (unfold w1; by rewrite !free_ensure).
  assert (Hla : lock w1 asset = lock w asset) by (unfold w1; by rewrite !lock_ensure).
  assert (Hlq : lock w1 quote = lock w quote) by (unfold w1; by rewrite !lock_ensure).
  assert (Hb1 : forall a, balance w1 a = balance w a).
  { intros a. unfold w1. by rewrite !MatchingProofs.balance_ensure. }
  assert (Hneg : Qlt_bool (free w1 asset) 0 = false).
  { apply Qlt_bool_false. by rewrite Hfa. }
  split; [|split].
  - intros Hshort. rewrite Hneg.
    assert (Qlt_bool (free w1 quote) (amount * value) = true) as ->.
    { apply ModelProofs.Qlt_bool_iff. by rewrite Hfq. }
    by eexists.
  - intros Hcover. rewrite Hneg.
    assert (Qlt_bool (free w1 quote) (amount * value) = false) as ->.
    { apply Qlt_bool_false. by rewrite Hfq. }
    eexists. split; [reflexivity|].
    assert (Hmin : (Qmin (- Qmin (free w1 asset) 0) amount == 0)%Q).
    { rewrite Hfa. destruct (Q.min_spec (free w asset) 0) as [[? E]|[? E]]; rewrite E;
        destruct (Q.min_spec (- free w asset) amount) as [[? E']|[? E']];
        destruct (Q.min_spec (- 0) amount) as [[? E'']|[? E'']];
        rewrite ?E', ?E''; lra. }
    repeat split.
    + rewrite free_after_set_lock, free_after_set_lock, free_set_free_eq.
      rewrite free_set_free_ne by done. rewrite Hfq, Hmin. ring.
    + rewrite lock_set_lock_eq. rewrite lock_set_lock_ne by done.
      rewrite !lock_set_free, Hlq, Hmin. ring.
    + rewrite !free_after_set_lock. rewrite free_set_free_ne by done.
      rewrite free_set_free_eq, Hmin, Hfa. ring.
    + rewrite lock_set_lock_ne by done. rewrite lock_set_lock_eq, !lock_set_free, Hla, Hmin.
      ring.
    + intros a Ha Hq. rewrite !balance_set_lock_ne, !balance_set_free_ne by done. apply Hb1.
    + apply Hs1.
    + apply Hs1.
  - intros Hcov Hval Hq.
    assert (Hfunds : Qlt_bool (if Qlt_bool 0 (free w1 asset)
                               then (free w1 quote + free w1 asset * value)%Q
                               else free w1 quote) (amount * value) = false).
    { apply Qlt_bool_false. rewrite Hfa, Hfq.
      destruct (Qlt_bool 0 (free w asset)) eqn:E.
      - assert ((amount * value <= free w asset * value)%Q) by nra. lra.
      - apply Qlt_bool_false in E. lra. }
    rewrite Hfunds. eexists. split; [reflexivity|].
    assert (Hmin : (Qmin (Qmax (free w1 asset) 0) amount == amount)%Q).
    { rewrite Hfa. destruct (Q.max_spec (free w asset) 0) as [[? E]|[? E]]; rewrite E;
        destruct (Q.min_spec 0 amount) as [[? E']|[? E']];
        destruct (Q.min_spec (free w asset) amount) as [[? E'']|[? E'']];
        rewrite ?E', ?E''; lra. }
    repeat split.
    + rewrite !free_after_set_lock. rewrite free_set_free_ne by done.
      rewrite free_set_free_eq, Hmin, Hfa. ring.
    + rewrite lock_set_lock_ne by done. rewrite lock_set_lock_eq, !lock_set_free, Hla, Hmin.
      ring.
    + rewrite !free_after_set_lock, free_set_free_eq. rewrite free_set_free_ne by done.
      rewrite Hfq, Hmin. ring.
    + rewrite lock_set_lock_eq. rewrite lock_set_lock_ne by done.
      rewrite !lock_set_free, Hlq, Hmin. ring.
    + intros a Ha Hq'. rewrite !balance_set_lock_ne, !balance_set_free_ne by done. apply Hb1.
    + apply Hs1.
    + apply Hs1.
Qed.


(** [Cancel] sets to canceled every order with the exchange id of the order
    it is given, whatever its status was, and writes nothing else: the other
    orders, the counter and all balances are as before, so that what a
    resting order had locked stays locked.  A second [Cancel] of the order
    changes nothing. *)
Theorem Cancel_writes_status_only (order : Order) (w : PaperWallet) :
  assets (Cancel order w) = assets w /\ counter (Cancel order w) = counter w /\
  (forall a, free (Cancel order w) a = free w a /\ lock (Cancel order w) a = lock w a) /\
  length (orders (Cancel order w)) = length (orders w) /\
  (forall i o, orders w !! i = Some o -> ExchangeID o <> ExchangeID order ->
               orders (Cancel order w) !! i = Some o) /\
  (forall i o, orders w !! i = Some o -> ExchangeID o = ExchangeID order ->
               orders (Cancel order w) !! i
               = Some (with_status o OrderStatusTypeCanceled (UpdatedAt o))) /\
  Cancel order (Cancel order w) = Cancel order w.
Proof.
  split; [done|]. split; [done|]. split; [done|].
  split; [unfold Cancel; simpl; by rewrite length_fmap|].
  split; [|split].
  - intros i o Hi Hne. unfold Cancel. simpl. rewrite list_lookup_fmap, Hi. simpl.
    by rewrite bool_decide_false.
  - intros i o Hi He. unfold Cancel. simpl. rewrite list_lookup_fmap, Hi. simpl.
    by rewrite bool_decide_true.
  - unfold Cancel. simpl. unfold set_orders. simpl. f_equal.
    rewrite <- list_fmap_compose. apply list_fmap_ext. intros i o _. simpl.
    destruct (bool_decide (ExchangeID o = ExchangeID order)) eqn:E; simpl; by rewrite E.
Qed.

Lemma balance_market_frame (w0 : PaperWallet) pair v c os a :
  balance (set_orders (set_counter (add_volume (ensure_volume w0 pair) pair v) c) os) a
  = balance w0 a.
Proof. unfold balance, ensure_volume. simpl. by destruct (volume w0 !! pair). Qed.

Lemma avgLong_set_free w a v pair : avgLong (set_free w a v) pair = avgLong w pair.
Proof. done. Qed.

(** A market buy of a positive quantity, for a pair with distinct base and
    quote assets and a base balance that is not negative, is admitted when
    the free quote balance covers the quantity at the last close.  The order
    is created filled at that close; the free base balance grows by the
    quantity, the free quote balance falls by quantity times close, nothing
    is locked, and the volume of the pair grows by close times quantity.
    The average long price becomes the close when no base was held, and
    otherwise the mean of the old average and the close weighted by the
    quantity held and the quantity bought. *)
Theorem market_buy_fills_at_close (pair asset quote : string) (size : Q) (w : PaperWallet) :
  SplitAssetQuote pair = (asset, quote) -> asset <> quote ->
  (0 <= free w asset)%Q -> (0 < size)%Q ->
  (size * c_Close (last_candle w pair) <= free w quote)%Q ->
  exists o w',
    CreateOrderMarket SplitAssetQuote SideTypeBuy pair size w = (inr [o], w') /\
    Status o = OrderStatusTypeFilled /\ Type_ o = OrderTypeMarket /\
    Side o = SideTypeBuy /\
    Price o = c_Close (last_candle w pair) /\ Quantity o = size /\
    (free w' asset == free w asset + size)%Q /\
    (free w' quote == free w quote - size * c_Close (last_candle w pair))%Q /\
    (lock w' asset == lock w asset)%Q /\ (lock w' quote == lock w quote)%Q /\
    (volume_of w' pair == volume_of w pair + c_Close (last_candle w pair) * size)%Q /\
    ((free w asset == 0)%Q -> avgLong w' pair = c_Close (last_candle w pair)) /\
    ((0 < free w asset)%Q ->
     (avgLong w' pair * (free w asset + size)
      == avgLong w pair * free w asset + size * c_Close (last_candle w pair))%Q).
Proof.
  intros Hsplit Hne Hfree Hsize Hcover.
  set (close := c_Close (last_candle w pair)) in *.
  unfold CreateOrderMarket, createOrderMarket.
  assert (Qeq_bool size 0 = false) as ->.
  { destruct (Qeq_bool size 0) eqn:E; [|done]. apply Qeq_bool_iff in E. lra. }
  fold close. unfold Paper.validateFunds. rewrite Hsplit. cbv zeta.
  set (w1 := ensure_asset (ensure_asset w asset) quote).
  assert (Hs1 : same_book w w1).
  { eapply same_book_trans; apply same_book_ensure. }
  assert (Hfa : free w1 asset = free w asset) by (unfold w1; by rewrite !free_ensure).
  assert (Hfq : free w1 quote = free w quote) by (unfold w1; by rewrite !free_ensure).
  assert (Hla : lock w1 asset = lock w asset) by (unfold w1; by rewrite !lock_ensure).
  assert (Hlq : lock w1 quote = lock w quote) by (unfold w1; by rewrite !lock_ensure).
  assert (Hneg : Qlt_bool (free w1 asset) 0 = false).
  { apply Qlt_bool_false. by rewrite Hfa. }
  rewrite Hneg.
  assert (Qlt_bool (free w1 quote) (size * close) = false) as ->.
  { apply Qlt_bool_false. by rewrite Hfq. }
  set (lockedAsset := Qmin (- Qmin (free w1 asset) 0) size).
  assert (Hmin : (lockedAsset == 0)%Q).
  { unfold lockedAsset. rewrite Hfa.
    destruct (Q.min_spec (free w asset) 0) as [[? E]|[? E]]; rewrite E;
      destruct (Q.min_spec (- free w asset) size) as [[? E']|[? E']];
      destruct (Q.min_spec (- 0) size) as [[? E'']|[? E'']];
      rewrite ?E', ?E''; lra. }
  set (w2 := set_free w1 asset (free w1 asset + lockedAsset)).
  set (w3 := set_free w2 quote (free w2 quote - ((size - lockedAsset) * close - 0))).
  set (w4 := updateAveragePrice SideTypeBuy pair size close w3).
  assert (Hassets4 : assets w4 = assets w3)
    by apply MatchingProofs.assets_updateAveragePrice.
  assert (Hf4 : forall a, free w4 a = free w3 a) by (intros a; unfold free, balance; by rewrite Hassets4).
  assert (Hl4 : forall a, lock w4 a = lock w3 a) by (intros a; unfold lock, balance; by rewrite Hassets4).
  assert (Hs4 : same_book w w4).
  { eapply same_book_trans; [exact Hs1|].
    eapply same_book_trans; [|apply same_book_updateAveragePrice]. done. }
  set (w5 := set_free w4 asset (free w4 asset + (size - lockedAsset))).
  assert (Hlast : last_candle (ensure_volume w5 pair) pair = last_candle w pair).
  { unfold last_candle, ensure_volume. destruct (volume w5 !! pair); simpl;
      destruct Hs4 as (_ & _ & -> & _); done. }
  assert (Hlast5 : last_candle w5 pair = last_candle w pair).
  { unfold last_candle. simpl. destruct Hs4 as (_ & _ & -> & _); done. }
  assert (Hf3a : free w3 asset = (free w1 asset + lockedAsset)%Q).
  { unfold w3. rewrite free_set_free_ne by done. unfold w2. by rewrite free_set_free_eq. }
  assert (Hactual : match assets w3 !! asset with
                    | Some info => Free info
                    | None => 0%Q
                    end = (free w asset + lockedAsset)%Q).
  { rewrite <- Hfa, <- Hf3a. unfold free, balance, w3, w2, set_free. simpl.
    rewrite lookup_insert_ne by done. by rewrite lookup_insert_eq. }
  eexists _, _. split.
  { unfold ID. cbn [fst snd]. rewrite Hlast. fold close. reflexivity. }
  cbn [Status Type_ Side Price Quantity new_order].
  split; [done|]. split; [done|]. split; [done|].
  split; [unfold last_candle in *; cbn [lastCandle set_counter add_volume set_volume];
          exact (f_equal c_Close Hlast)|].
  split; [done|].
  assert (Hvol : volume w5 = volume w) by apply Hs4.
  repeat split.
  - unfold free at 1. unfold ID. cbn [fst snd]. rewrite balance_market_frame.
    fold (free w5 asset). unfold w5.
    rewrite free_set_free_eq, Hf4, Hf3a, Hfa, Hmin. ring.
  - unfold free at 1. unfold ID. cbn [fst snd]. rewrite balance_market_frame.
    fold (free w5 quote). unfold w5.
    rewrite free_set_free_ne by done. rewrite Hf4. unfold w3. rewrite free_set_free_eq.
    unfold w2. rewrite free_set_free_ne by done. rewrite Hfq, Hmin. ring.
  - unfold lock at 1. unfold ID. cbn [fst snd]. rewrite balance_market_frame.
    fold (lock w5 asset). unfold w5.
    rewrite lock_set_free, Hl4. unfold w3, w2. by rewrite !lock_set_free, Hla.
  - unfold lock at 1. unfold ID. cbn [fst snd]. rewrite balance_market_frame.
    fold (lock w5 quote). unfold w5.
    rewrite lock_set_free, Hl4. unfold w3, w2. by rewrite !lock_set_free, Hlq.
  - unfold volume_of at 1. cbn [volume set_orders set_counter add_volume set_volume].
    rewrite lookup_insert_eq. simpl.
    rewrite MatchingProofs.volume_of_ensure_volume. unfold volume_of. rewrite Hvol.
    reflexivity.
  - intros Hzero. unfold avgLong. cbn [avgLongPrice set_orders set_counter add_volume set_volume].
    assert (E : avgLongPrice (ensure_volume w5 pair) = avgLongPrice w4).
    { unfold ensure_volume. by destruct (volume w5 !! pair). }
    rewrite E. unfold w4, Paper.updateAveragePrice. rewrite Hsplit, Hactual.
    assert (Qeq_bool (free w asset + lockedAsset) 0 = true) as ->.
    { apply Qeq_bool_iff. lra. }
    simpl. by rewrite lookup_insert_eq.
  - intros Hpos. unfold avgLong at 1.
    cbn [avgLongPrice set_orders set_counter add_volume set_volume].
    assert (E : avgLongPrice (ensure_volume w5 pair) = avgLongPrice w4).
    { unfold ensure_volume. by destruct (volume w5 !! pair). }
    rewrite E. unfold w4, Paper.updateAveragePrice. rewrite Hsplit, Hactual.
    assert (Qeq_bool (free w asset + lockedAsset) 0 = false) as ->.
    { destruct (Qeq_bool _ _) eqn:E0; [|done]. apply Qeq_bool_iff in E0. lra. }
    assert (Qlt_bool 0 (free w asset + lockedAsset) = true) as ->.
    { apply ModelProofs.Qlt_bool_iff. lra. }
    simpl. rewrite lookup_insert_eq. simpl.
    assert (Hav : avgLong w3 pair = avgLong w pair).
    { unfold avgLong, w3, w2. simpl. unfold w1, ensure_asset.
      destruct (assets w !! asset); simpl;
        repeat match goal with |- context [match ?x with _ => _ end] => destruct x end;
        done. }
    rewrite Hav, Hmin. field. lra.
Qed.



Lemma with_status_twice (o : Order) st t st' t' :
  with_status (with_status o st t) st' t' = with_status o st' t'.
Proof. done. Qed.








Lemma Balance_loop_spec (a q : string) : forall balances ab qb sa sq,
  a <> q -> NoDup (b_Asset <$> balances) ->
  (sa = true -> a ∉ (b_Asset <$> balances)) ->
  (sq = true -> q ∉ (b_Asset <$> balances)) ->
  (forall b, b ∈ balances -> b_Asset b = a ->
             fst (Balance_loop balances a q ab qb sa sq) = b) /\
  (a ∉ (b_Asset <$> balances) -> fst (Balance_loop balances a q ab qb sa sq) = ab) /\
  (forall b, b ∈ balances -> b_Asset b = q ->
             snd (Balance_loop balances a q ab qb sa sq) = b) /\
  (q ∉ (b_Asset <$> balances) -> snd (Balance_loop balances a q ab qb sa sq) = qb).
Proof.
  induction balances as [|x rest IH]; intros ab qb sa sq Hne Hnd Hsa Hsq.
  - simpl. split; [|split; [|split]]; try done; intros b Hb; by apply elem_of_nil in Hb.
  - rewrite fmap_cons in Hnd, Hsa, Hsq. apply NoDup_cons in Hnd as [Hx Hnd].
    rewrite not_elem_of_cons in Hsa, Hsq. simpl.
    destruct (decide (b_Asset x = a)) as [Ea|Na].
    + assert (Hq : b_Asset x <> q) by congruence.
      assert (Harest : a ∉ (b_Asset <$> rest)) by (by rewrite <- Ea).
      destruct sq; simpl.
      * destruct (Hsq eq_refl) as [_ Hqrest]. split; [|split; [|split]].
        -- intros b [->|Hb]%elem_of_cons Hb'; [done|].
           exfalso. apply Harest. rewrite <- Hb'. by apply list_elem_of_fmap_2.
        -- intros [Hax _]%not_elem_of_cons. congruence.
        -- intros b [->|Hb]%elem_of_cons Hb'; [done|].
           exfalso. apply Hqrest. rewrite <- Hb'. by apply list_elem_of_fmap_2.
        -- done.
      * destruct (IH x qb true false Hne Hnd (fun _ => Harest) ltac:(done))
          as (I1 & I2 & I3 & I4).
        split; [|split; [|split]].
        -- intros b [->|Hb]%elem_of_cons Hb'; [by apply I2|].
           exfalso. apply Harest. rewrite <- Hb'. by apply list_elem_of_fmap_2.
        -- intros [Hax _]%not_elem_of_cons. congruence.
        -- intros b [->|Hb]%elem_of_cons Hb'; [done|by apply I3].
        -- intros [_ Hqr]%not_elem_of_cons. by apply I4.
    + destruct (decide (b_Asset x = q)) as [Eq|Nq].
      * assert (Hqrest : q ∉ (b_Asset <$> rest)) by (by rewrite <- Eq).
        destruct sa; simpl.
        -- destruct (Hsa eq_refl) as [_ Harest]. split; [|split; [|split]].
           ++ intros b [->|Hb]%elem_of_cons Hb'; [done|].
              exfalso. apply Harest. rewrite <- Hb'. by apply list_elem_of_fmap_2.
           ++ done.
           ++ intros b [->|Hb]%elem_of_cons Hb'; [done|].
              exfalso. apply Hqrest. rewrite <- Hb'. by apply list_elem_of_fmap_2.
           ++ intros [Hqx _]%not_elem_of_cons. congruence.
        -- destruct (IH ab x false true Hne Hnd ltac:(done) (fun _ => Hqrest))
             as (I1 & I2 & I3 & I4).
           split; [|split; [|split]].
           ++ intros b [->|Hb]%elem_of_cons Hb'; [done|by apply I1].
           ++ intros [_ Har]%not_elem_of_cons. by apply I2.
           ++ intros b [->|Hb]%elem_of_cons Hb'; [by apply I4|].
              exfalso. apply Hqrest. rewrite <- Hb'. by apply list_elem_of_fmap_2.
           ++ intros [Hqx _]%not_elem_of_cons. congruence.
      * destruct (sa && sq) eqn:Eboth.
        -- apply andb_true_iff in Eboth as [-> ->].
           destruct (Hsa eq_refl) as [_ Harest]. destruct (Hsq eq_refl) as [_ Hqrest].
           split; [|split; [|split]].
           ++ intros b [->|Hb]%elem_of_cons Hb'; [done|].
              exfalso. apply Harest. rewrite <- Hb'. by apply list_elem_of_fmap_2.
           ++ done.
           ++ intros b [->|Hb]%elem_of_cons Hb'; [done|].
              exfalso. apply Hqrest. rewrite <- Hb'. by apply list_elem_of_fmap_2.
           ++ done.
        -- destruct (IH ab qb sa sq Hne Hnd) as (I1 & I2 & I3 & I4).
           { intros Hs. by destruct (Hsa Hs). }
           { intros Hs. by destruct (Hsq Hs). }
           split; [|split; [|split]].
           ++ intros b [->|Hb]%elem_of_cons Hb'; [done|by apply I1].
           ++ intros [_ Har]%not_elem_of_cons. by apply I2.
           ++ intros b [->|Hb]%elem_of_cons Hb'; [done|by apply I3].
           ++ intros [_ Hqr]%not_elem_of_cons. by apply I4.
Qed.

(** [Position] returns the free plus the locked balance of the base asset
    and of the quote asset of the pair, each 0 for an asset without entry,
    in whatever order [Account] listed the balances of the wallet, when the
    two assets of the pair differ. *)
Theorem Position_reads_balances (w : PaperWallet) (balances : list Balance)
  (pair asset quote : string) :
  balances ≡ₚ Account w ->
  SplitAssetQuote pair = (asset, quote) -> asset <> quote ->
  Position SplitAssetQuote balances pair
  = ((free w asset + lock w asset)%Q, (free w quote + lock w quote)%Q).
Proof.
  intros Hperm Hsplit Hne. unfold Position, AccountBalance. rewrite Hsplit.
  assert (Hnd : NoDup (b_Asset <$> balances)).
  { rewrite Hperm. unfold Account. rewrite <- list_fmap_compose.
    apply (NoDup_fst_map_to_list (assets w)). }
  assert (Hin : forall b, b ∈ balances <->
            exists info, assets w !! b_Asset b = Some info /\
                         b = mkBalance (b_Asset b) (Free info) (Lock info) 0).
  { intros b. rewrite Hperm. unfold Account. rewrite list_elem_of_fmap. split.
    - intros ([a info] & -> & Hin). apply elem_of_map_to_list in Hin. by exists info.
    - intros (info & Hl & Hb). exists (b_Asset b, info). split; [done|].
      by apply elem_of_map_to_list. }
  assert (Hnames : forall t, t ∈ (b_Asset <$> balances) <-> is_Some (assets w !! t)).
  { intros t. rewrite list_elem_of_fmap. split.
    - intros (b & -> & Hb). apply Hin in Hb as (info & Hl & _). by eexists.
    - intros [info Hl]. exists (mkBalance t (Free info) (Lock info) 0). split; [done|].
      apply Hin. by exists info. }
  destruct (Balance_loop_spec asset quote balances zero_balance zero_balance false false
              Hne Hnd ltac:(done) ltac:(done)) as (I1 & I2 & I3 & I4).
  destruct (Balance_loop balances asset quote zero_balance zero_balance false false)
    as [ab qb]. simpl in *.
  assert (Hside : forall t r, (forall b, b ∈ balances -> b_Asset b = t -> r = b) ->
                    (t ∉ (b_Asset <$> balances) -> r = zero_balance) ->
                    (b_Free r + b_Lock r)%Q = (free w t + lock w t)%Q).
  { intros t r J1 J2. unfold free, lock, balance.
    destruct (assets w !! t) as [info|] eqn:E.
    - rewrite (J1 (mkBalance t (Free info) (Lock info) 0)); [done| |done].
      apply Hin. by exists info.
    - rewrite J2; [done|]. rewrite Hnames, E. by intros [? ?]. }
  f_equal; by apply Hside.
Qed.

End Wallet.






Lemma creation_appends_fresh_ids_witness :
  exists os w',
    create SplitAssetQuote AmountToLotSize
           (OCO SideTypeSell "BTCUSDT" 1 120 90 90) (wallet 0 1 100) = (inr os, w') /\
    orders w' = orders (wallet 0 1 100) ++ os /\ os <> [] /\
    (counter (wallet 0 1 100) < counter w')%Z /\
    Forall (fun o => (counter (wallet 0 1 100) < ExchangeID o <= counter w')%Z /\
                     Pair o = "BTCUSDT" /\ Quantity o = 1%Q) os /\
    NoDup (ExchangeID <$> os) /\
    (ids_fresh (wallet 0 1 100) -> ids_fresh w').
Proof.
  destruct (create SplitAssetQuote AmountToLotSize
                   (OCO SideTypeSell "BTCUSDT" 1 120 90 90) (wallet 0 1 100))
    as [[e|os] w'] eqn:E; [by vm_compute in E|].
  exists os, w'. split; [done|].
  exact (creation_appends_fresh_ids SplitAssetQuote AmountToLotSize
           (OCO SideTypeSell "BTCUSDT" 1 120 90 90) (wallet 0 1 100) w' os E).
Defined.

Lemma wallet_ids_fresh usdt btc close : ids_fresh (wallet usdt btc close).
Proof. split; simpl; constructor. Qed.

Lemma created_order_is_found_witness :
  exists os w',
    create SplitAssetQuote AmountToLotSize
           (Limit SideTypeBuy "BTCUSDT" 1 100) (wallet 1000 0 100) = (inr os, w') /\
    (forall o, o ∈ os -> FindOrder (ExchangeID o) w' = Some o) /\
    (forall id, (counter w' < id)%Z -> FindOrder id w' = None).
Proof.
  destruct (create SplitAssetQuote AmountToLotSize
                   (Limit SideTypeBuy "BTCUSDT" 1 100) (wallet 1000 0 100))
    as [[e|os] w'] eqn:E; [by vm_compute in E|].
  exists os, w'. split; [done|].
  exact (created_order_is_found SplitAssetQuote AmountToLotSize
           (Limit SideTypeBuy "BTCUSDT" 1 100) (wallet 1000 0 100) w' os E
           (wallet_ids_fresh 1000 0 100)).
Defined.

Lemma validateFunds_locks_funds_witness :
  exists w',
    validateFunds SplitAssetQuote SideTypeBuy "BTCUSDT" 1 100 false (wallet 1000 0 100)
      = (None, w') /\
    (free w' "USDT" == free (wallet 1000 0 100) "USDT" - 1 * 100)%Q /\
    (lock w' "USDT" == lock (wallet 1000 0 100) "USDT" + 1 * 100)%Q /\
    (free w' "BTC" == free (wallet 1000 0 100) "BTC")%Q /\
    (lock w' "BTC" == lock (wallet 1000 0 100) "BTC")%Q /\
    (forall a, a <> "BTC" -> a <> "USDT" -> balance w' a = balance (wallet 1000 0 100) a) /\
    orders w' = orders (wallet 1000 0 100) /\ counter w' = counter (wallet 1000 0 100).
Proof.
  apply (validateFunds_locks_funds SplitAssetQuote "BTCUSDT" "BTC" "USDT" 1 100
           (wallet 1000 0 100) eq_refl ltac:(discriminate) ltac:(by vm_compute) eq_refl).
  by vm_compute.
Defined.

Lemma market_buy_fills_at_close_witness :
  exists o w',
    CreateOrderMarket SplitAssetQuote SideTypeBuy "BTCUSDT" 2 (wallet 1000 3 100)
      = (inr [o], w') /\
    Status o = OrderStatusTypeFilled /\ Type_ o = OrderTypeMarket /\
    Side o = SideTypeBuy /\
    Price o = c_Close (last_candle (wallet 1000 3 100) "BTCUSDT") /\ Quantity o = 2%Q /\
    (free w' "BTC" == free (wallet 1000 3 100) "BTC" + 2)%Q /\
    (free w' "USDT" == free (wallet 1000 3 100) "USDT"
                       - 2 * c_Close (last_candle (wallet 1000 3 100) "BTCUSDT"))%Q /\
    (lock w' "BTC" == lock (wallet 1000 3 100) "BTC")%Q /\
    (lock w' "USDT" == lock (wallet 1000 3 100) "USDT")%Q /\
    (volume_of w' "BTCUSDT"
     == volume_of (wallet 1000 3 100) "BTCUSDT"
        + c_Close (last_candle (wallet 1000 3 100) "BTCUSDT") * 2)%Q /\
    ((free (wallet 1000 3 100) "BTC" == 0)%Q ->
     avgLong w' "BTCUSDT" = c_Close (last_candle (wallet 1000 3 100) "BTCUSDT")) /\
    ((0 < free (wallet 1000 3 100) "BTC")%Q ->
     (avgLong w' "BTCUSDT" * (free (wallet 1000 3 100) "BTC" + 2)
      == avgLong (wallet 1000 3 100) "BTCUSDT" * free (wallet 1000 3 100) "BTC"
         + 2 * c_Close (last_candle (wallet 1000 3 100) "BTCUSDT"))%Q).
Proof.
  apply (market_buy_fills_at_close SplitAssetQuote "BTCUSDT" "BTC" "USDT" 2
           (wallet 1000 3 100) eq_refl ltac:(discriminate) ltac:(by vm_compute) eq_refl).
  by vm_compute.
Defined.


Lemma Position_reads_balances_witness :
  Position SplitAssetQuote (Account (wallet 1000 3 100)) "BTCUSDT"
  = ((free (wallet 1000 3 100) "BTC" + lock (wallet 1000 3 100) "BTC")%Q,
     (free (wallet 1000 3 100) "USDT" + lock (wallet 1000 3 100) "USDT")%Q).
Proof.
  apply (Position_reads_balances SplitAssetQuote (wallet 1000 3 100)
           (Account (wallet 1000 3 100)) "BTCUSDT" "BTC" "USDT");
    [reflexivity|reflexivity|discriminate].
Defined.


End WalletFacts.

Module OcoProofs.
Import Model Paper WalletQueries PaperExamples.

Lemma keeps_entries_refl w : keeps_entries w w.
Proof. done. Qed.

Lemma keeps_entries_trans w1 w2 w3 :
  keeps_entries w1 w2 -> keeps_entries w2 w3 -> keeps_entries w1 w3.
Proof. intros [C1 H1] [C2 H2]. split; [congruence|]. intros a H. by apply H2, H1. Qed.

Lemma keeps_entries_same w w' :
  baseCoin w' = baseCoin w -> assets w' = assets w -> keeps_entries w w'.
Proof. intros Hc Ha. split; [done|]. intros a. by rewrite Ha. Qed.

Lemma keeps_entries_insert w a info :
  keeps_entries w (set_assets w (<[a := info]> (assets w))).
Proof.
  split; [done|]. intros b H. simpl. destruct (decide (a = b)) as [->|Hne].
  - rewrite lookup_insert_eq. by eexists.
  - by rewrite lookup_insert_ne.
Qed.

Lemma keeps_entries_ensure w a : keeps_entries w (ensure_asset w a).
Proof.
  unfold ensure_asset. destruct (assets w !! a); [done|]. apply keeps_entries_insert.
Qed.

Lemma entry_ensure w a : is_Some (assets (ensure_asset w a) !! a).
Proof.
  unfold ensure_asset. destruct (assets w !! a) eqn:E.
  - rewrite E. by eexists.
  - simpl. rewrite lookup_insert_eq. by eexists.
Qed.

Lemma ensure_asset_entry w a : is_Some (assets w !! a) -> ensure_asset w a = w.
Proof. intros [info H]. unfold ensure_asset. by rewrite H. Qed.

Lemma keeps_entries_mark w i st t : keeps_entries w (mark_order w i st t).
Proof. unfold mark_order. by destruct (orders w !! i). Qed.

Lemma keeps_entries_volume w p : keeps_entries w (ensure_volume w p).
Proof. unfold ensure_volume. by destruct (volume w !! p). Qed.

Section Oco.
Variable SplitAssetQuote : string -> string * string.
Variable ToUpper : string -> string.

Local Abbreviation updateAveragePrice := (updateAveragePrice SplitAssetQuote).
Local Abbreviation validateFunds := (validateFunds SplitAssetQuote).
Local Abbreviation matchOrder := (matchOrder SplitAssetQuote).
Local Abbreviation match_orders := (match_orders SplitAssetQuote).
Local Abbreviation OnCandle := (OnCandle SplitAssetQuote ToUpper).

Lemma keeps_entries_updateAveragePrice side pair amount value w :
  keeps_entries w (updateAveragePrice side pair amount value w).
Proof.
  destruct (MatchingProofs.updateAveragePrice_frame SplitAssetQuote side pair amount value w)
    as (s & l & ->). done.
Qed.

(** [validateFunds] creates the entries of the two assets of the pair and
    removes none. *)
Lemma validateFunds_keeps_entries side pair asset quote amount value fill w r w' :
  SplitAssetQuote pair = (asset, quote) ->
  validateFunds side pair amount value fill w = (r, w') ->
  keeps_entries w w' /\ is_Some (assets w' !! asset) /\ is_Some (assets w' !! quote).
Proof.
  intros Hsplit. unfold Paper.validateFunds. rewrite Hsplit.
  set (w1 := ensure_asset (ensure_asset w asset) quote).
  assert (H1 : keeps_entries w w1).
  { eapply keeps_entries_trans; apply keeps_entries_ensure. }
  assert (Ha : is_Some (assets w1 !! asset)).
  { apply keeps_entries_ensure, entry_ensure. }
  assert (Hq : is_Some (assets w1 !! quote)) by apply entry_ensure.
  intros H.
  assert (H2 : keeps_entries w1 w').
  { revert H. destruct side; cbv zeta;
      match goal with |- (if ?c then _ else _) = _ -> _ => destruct c end;
      try (intros [= <- <-]; apply keeps_entries_refl);
      destruct fill; intros [= <- <-];
      repeat match goal with
             | |- keeps_entries _ (if ?c then _ else _) => destruct c
             end;
      repeat first [ apply keeps_entries_refl
                   | (eapply keeps_entries_trans; [|apply keeps_entries_insert])
                   | (eapply keeps_entries_trans; [|apply keeps_entries_updateAveragePrice]) ]. }
  split; [by eapply keeps_entries_trans|]. split; by apply H2.
Qed.

(** What a successful [CreateOrderOCO] returns and writes. *)
Lemma CreateOrderOCO_result side pair asset quote size price stop stopLimit w os w1 :
  SplitAssetQuote pair = (asset, quote) ->
  CreateOrderOCO SplitAssetQuote side pair size price stop stopLimit w = (inr os, w1) ->
  exists limit stopOrder,
    os = [limit; stopOrder] /\ orders w1 = orders w ++ [limit; stopOrder] /\
    keeps_entries w w1 /\ is_Some (assets w1 !! asset) /\ is_Some (assets w1 !! quote) /\
    Pair limit = pair /\ Side limit = side /\ Type_ limit = OrderTypeLimitMaker /\
    Status limit = OrderStatusTypeNew /\ Price limit = price /\ Quantity limit = size /\
    GroupID limit = Some (counter w + 1)%Z /\
    Pair stopOrder = pair /\ Side stopOrder = side /\ Type_ stopOrder = OrderTypeStopLoss /\
    Status stopOrder = OrderStatusTypeNew /\ Price stopOrder = stopLimit /\
    Quantity stopOrder = size /\ Stop stopOrder = Some stop /\
    GroupID stopOrder = Some (counter w + 1)%Z /\
    ExchangeID stopOrder <> ExchangeID limit.
Proof.
  intros Hsplit. unfold CreateOrderOCO.
  destruct (Qeq_bool size 0); [done|].
  destruct (validateFunds side pair size price false w) as [[err|] wv] eqn:E; [done|].
  destruct (validateFunds_keeps_entries _ _ _ _ _ _ _ _ _ _ Hsplit E) as (Hk & Ha & Hq).
  apply WalletFacts.validateFunds_same_book in E as (Ho & Hc & _ & _).
  unfold ID. cbn [fst snd counter set_counter]. intros [= <- <-].
  eexists _, _. split; [reflexivity|]. cbn [orders set_orders set_counter].
  rewrite Ho, Hc. split; [reflexivity|].
  split; [exact Hk|]. split; [exact Ha|]. split; [exact Hq|].
  cbn. repeat (split; [reflexivity|]). lia.
Qed.

(** The loop passes over orders that do not rest for the pair. *)
Lemma match_orders_passes candle : forall idxs w,
  (forall i, i ∈ idxs -> exists o, orders w !! i = Some o /\
     (Pair o <> c_Pair candle \/ Status o <> OrderStatusTypeNew)) ->
  match_orders candle idxs w = Some w.
Proof.
  induction idxs as [|j idxs IH]; intros w H; simpl; [done|].
  destruct (H j) as (o & Ho & Hskip); [by left|].
  rewrite (MatchingProofs.matchOrder_skip SplitAssetQuote candle j w o Ho Hskip). simpl.
  apply IH. intros i Hi. apply H. by right.
Qed.

(** The sibling loop passes over the orders of other groups and over the
    order itself, and cancels the next order of the group. *)
Lemma cancel_sibling_next order sibling g t rest : forall earlier j w,
  Forall (fun o => GroupID o <> Some g) earlier ->
  GroupID sibling = Some g -> ExchangeID sibling <> ExchangeID order ->
  cancel_sibling (earlier ++ order :: sibling :: rest) j order g t w
  = mark_order w (j + length earlier + 1) OrderStatusTypeCanceled t.
Proof.
  induction earlier as [|o earlier IH]; intros j w He Hg Hid; simpl.
  - rewrite (bool_decide_eq_true_2 (ExchangeID order = ExchangeID order) eq_refl).
    rewrite andb_false_r.
    rewrite (bool_decide_eq_true_2 _ Hg), (bool_decide_eq_false_2 _ Hid). simpl.
    by rewrite Nat.add_0_r, Nat.add_1_r.
  - apply Forall_cons in He as [Ho He].
    rewrite (bool_decide_eq_false_2 _ Ho). simpl.
    rewrite (IH (S j) w He Hg Hid). f_equal. lia.
Qed.

Lemma record_equity_returns candle w :
  is_Some (assets w !! baseCoin w) ->
  exists w', record_equity ToUpper candle w = Some w' /\
             orders w' = orders w /\ assets w' = assets w /\ volume w' = volume w.
Proof.
  intros [info H]. unfold record_equity.
  destruct (map_fold _ _ _) as [total values]. cbn [assets baseCoin set_assetValues].
  rewrite H. simpl. eexists. split; [reflexivity|]. done.
Qed.

(** The sell branch on the first leg of a group of two that ends the order
    book: the second leg is canceled, the first is filled, the quantity
    leaves the locked base balance and quantity times price is added to the
    free quote balance and to the volume of the pair. *)
Lemma sell_fill_group candle limit stopOrder price asset quote g earlier w :
  orders w = earlier ++ [limit; stopOrder] ->
  Forall (fun o => GroupID o <> Some g) earlier ->
  GroupID limit = Some g -> GroupID stopOrder = Some g ->
  ExchangeID stopOrder <> ExchangeID limit ->
  is_Some (assets w !! asset) -> is_Some (assets w !! quote) ->
  exists w',
    sell_fill SplitAssetQuote candle (length earlier) limit price asset quote w = Some w' /\
    orders w' = earlier ++ [with_status limit OrderStatusTypeFilled (c_Time candle);
                            with_status stopOrder OrderStatusTypeCanceled (c_Time candle)] /\
    free w' quote = (free w quote + Quantity limit * price)%Q /\
    lock w' asset = (lock w asset - Quantity limit)%Q /\
    volume_of w' (c_Pair candle) = (volume_of w (c_Pair candle) + Quantity limit * price)%Q /\
    (forall a, a <> quote -> free w' a = free w a) /\
    (forall a, a <> asset -> lock w' a = lock w a) /\
    keeps_entries w w'.
Proof.
  intros Ho He Hlg Hsg Hid [ainfo Ha] Hq.
  set (n := length earlier). set (t := c_Time candle).
  set (limit' := with_status limit OrderStatusTypeFilled t).
  set (stop' := with_status stopOrder OrderStatusTypeCanceled t).
  assert (Hcs : cancel_sibling (orders w) 0 limit g t w
                = mark_order w (n + 1) OrderStatusTypeCanceled t).
  { rewrite Ho. apply (cancel_sibling_next limit stopOrder g t [] earlier 0 w He Hsg Hid). }
  unfold Paper.sell_fill. rewrite Hlg. fold t. rewrite Hcs. cbv zeta.
  set (wB := mark_order w (n + 1) OrderStatusTypeCanceled t).
  assert (HoB : orders wB = earlier ++ [limit; stop']).
  { unfold wB. rewrite (MatchingProofs.orders_mark_order _ _ _ _ stopOrder).
    - rewrite Ho. rewrite insert_app_r_alt by (unfold n; lia).
      by replace (n + 1 - length earlier) with 1 by (unfold n; lia).
    - rewrite Ho. rewrite lookup_app_r by (unfold n; lia).
      by replace (n + 1 - length earlier) with 1 by (unfold n; lia). }
  assert (HaB : assets wB = assets w).
  { unfold wB. by rewrite MatchingProofs.assets_mark_order. }
  assert (HvB : volume wB = volume w).
  { unfold wB. by rewrite MatchingProofs.volume_mark_order. }
  rewrite (ensure_asset_entry wB quote) by (by rewrite HaB).
  set (wD := add_volume wB (c_Pair candle) (Quantity limit * price)).
  set (wE := mark_order wD n OrderStatusTypeFilled t).
  assert (HoE : orders wE = earlier ++ [limit'; stop']).
  { unfold wE. rewrite (MatchingProofs.orders_mark_order _ _ _ _ limit).
    - unfold wD. cbn [orders add_volume set_volume]. rewrite HoB.
      rewrite insert_app_r_alt by (unfold n; lia).
      by replace (n - length earlier) with 0 by (unfold n; lia).
    - unfold wD. cbn [orders add_volume set_volume]. rewrite HoB.
      rewrite lookup_app_r by (unfold n; lia).
      by replace (n - length earlier) with 0 by (unfold n; lia). }
  assert (HaE : assets wE = assets w).
  { unfold wE. by rewrite MatchingProofs.assets_mark_order. }
  assert (HvE : volume_of wE (c_Pair candle)
                = (volume_of w (c_Pair candle) + Quantity limit * price)%Q).
  { unfold volume_of at 1. unfold wE. rewrite MatchingProofs.volume_mark_order.
    fold (volume_of wD (c_Pair candle)). unfold wD.
    rewrite MatchingProofs.volume_of_add_volume. f_equal.
    unfold volume_of. by rewrite HvB. }
  assert (HcE : baseCoin wE = baseCoin w).
  { transitivity (baseCoin wD); [apply keeps_entries_mark|].
    unfold wD. cbn [baseCoin add_volume set_volume]. apply keeps_entries_mark. }
  destruct (MatchingProofs.updateAveragePrice_frame SplitAssetQuote (Side limit) (Pair limit)
              (Quantity limit) price wE) as (s & l & HF).
  rewrite HF.
  set (wF := set_avgLongPrice (set_avgShortPrice wE s) l).
  assert (HaF : assets wF = assets w) by exact HaE.
  rewrite HaF, Ha. cbn [mbind option_bind].
  set (wG := set_lock wF asset (lock wF asset - Quantity limit)).
  eexists. split; [reflexivity|].
  assert (Hbal : forall a, balance wF a = balance w a).
  { intros a. unfold balance. by rewrite HaF. }
  split; [exact HoE|].
  split.
  { rewrite WalletFacts.free_set_free_eq. unfold wG.
    rewrite WalletFacts.free_after_set_lock. unfold free. by rewrite Hbal. }
  split.
  { rewrite WalletFacts.lock_set_free. unfold wG.
    rewrite WalletFacts.lock_set_lock_eq. unfold lock. by rewrite Hbal. }
  split; [exact HvE|].
  split.
  { intros a Hne. rewrite WalletFacts.free_set_free_ne by done. unfold wG.
    rewrite WalletFacts.free_after_set_lock. unfold free. by rewrite Hbal. }
  split.
  { intros a Hne. rewrite WalletFacts.lock_set_free. unfold wG.
    rewrite WalletFacts.lock_set_lock_ne by done. unfold lock. by rewrite Hbal. }
  eapply keeps_entries_trans; [|apply keeps_entries_insert].
  eapply keeps_entries_trans; [|apply keeps_entries_insert].
  by apply keeps_entries_same.
Qed.

(** A sell OCO is created on a wallet none of whose orders rests for the
    pair and whose group ids do not exceed the counter, and a candle of the
    pair arrives whose high reaches the limit price.  [OnCandle] returns (for
    a complete candle, when the base coin has a balance entry); the limit leg
    is filled and the stop leg canceled, whether the low of the candle reaches
    the stop price or not; the other orders stay as they were.  Size times
    price is added once to the free quote balance and to the volume of the
    pair, the size leaves the locked base balance, and no other free or
    locked balance changes. *)
Theorem sell_oco_cancels_sibling (pair asset quote : string) (size price stop stopLimit : Q)
  (candle : Candle) (w w1 : PaperWallet) (os : list Order) :
  SplitAssetQuote pair = (asset, quote) ->
  Forall (fun o => (Pair o <> pair \/ Status o <> OrderStatusTypeNew) /\
                   forall g, GroupID o = Some g -> (g <= counter w)%Z) (orders w) ->
  CreateOrderOCO SplitAssetQuote SideTypeSell pair size price stop stopLimit w = (inr os, w1) ->
  c_Pair candle = pair -> (price <= c_High candle)%Q ->
  (c_Complete candle = true -> is_Some (assets w !! baseCoin w)) ->
  exists limit stopOrder w2,
    os = [limit; stopOrder] /\ orders w1 = orders w ++ [limit; stopOrder] /\
    Type_ limit = OrderTypeLimitMaker /\ Price limit = price /\
    Status limit = OrderStatusTypeNew /\
    Type_ stopOrder = OrderTypeStopLoss /\ Stop stopOrder = Some stop /\
    Status stopOrder = OrderStatusTypeNew /\
    OnCandle candle w1 = Some w2 /\
    orders w2 = orders w ++ [with_status limit OrderStatusTypeFilled (c_Time candle);
                             with_status stopOrder OrderStatusTypeCanceled (c_Time candle)] /\
    free w2 quote = (free w1 quote + size * price)%Q /\
    lock w2 asset = (lock w1 asset - size)%Q /\
    volume_of w2 pair = (volume_of w1 pair + size * price)%Q /\
    (forall a, a <> quote -> free w2 a = free w1 a) /\
    (forall a, a <> asset -> lock w2 a = lock w1 a).
Proof.
  intros Hsplit Hbook Hcreate Hpair Hhigh Hbase.
  destruct (CreateOrderOCO_result _ _ _ _ _ _ _ _ _ _ _ Hsplit Hcreate)
    as (limit & stopOrder & -> & Ho1 & Hk1 & Ha1 & Hq1 & Hlp & Hls & Hlt & Hlst & Hlpr & Hlq
        & Hlg & Hsp & Hss & Hstt & Hsst & Hspr & Hsq & Hsstop & Hsg & Hid).
  set (n := length (orders w)).
  set (t := c_Time candle).
  set (limit' := with_status limit OrderStatusTypeFilled t).
  set (stop' := with_status stopOrder OrderStatusTypeCanceled t).
  assert (Hrun : exists w2,
            OnCandle candle w1 = Some w2 /\ orders w2 = orders w ++ [limit'; stop'] /\
            free w2 quote = (free w1 quote + size * price)%Q /\
            lock w2 asset = (lock w1 asset - size)%Q /\
            volume_of w2 pair = (volume_of w1 pair + size * price)%Q /\
            (forall a, a <> quote -> free w2 a = free w1 a) /\
            (forall a, a <> asset -> lock w2 a = lock w1 a)).
  2:{ destruct Hrun as (w2 & Hrun). exists limit, stopOrder, w2.
      split; [done|]. split; [done|]. split; [done|]. split; [done|]. split; [done|].
      split; [done|]. split; [done|]. split; [done|]. exact Hrun. }
  (* the wallet when the loop starts *)
  unfold Paper.OnCandle.
  set (w0 := match fistCandle _ !! c_Pair candle with Some _ => _ | None => _ end).
  assert (H0 : orders w0 = orders w1 /\ assets w0 = assets w1 /\ volume w0 = volume w1 /\
               baseCoin w0 = baseCoin w1).
  { unfold w0. by destruct (fistCandle _ !! c_Pair candle). }
  destruct H0 as (Ho0 & Ha0 & Hv0 & Hc0).
  rewrite Ho0, Ho1, length_app. cbn [length]. fold n.
  replace (n + 2) with (n + (1 + 1)) by lia.
  rewrite !seq_app. cbn [seq]. rewrite Nat.add_0_l.
  rewrite MatchingProofs.match_orders_app.
  (* the orders before the pair *)
  rewrite match_orders_passes; cycle 1.
  { intros i Hi. apply elem_of_seq in Hi as [_ Hi]. simpl in Hi.
    destruct (lookup_lt_is_Some_2 (orders w) i Hi) as [o Hoi].
    exists o. split.
    - rewrite Ho0, Ho1. by rewrite lookup_app_l.
    - rewrite Hpair. rewrite Forall_forall in Hbook.
      apply (Hbook o). by eapply list_elem_of_lookup_2. }
  cbn [mbind option_bind app Paper.match_orders].
  (* the limit leg *)
  assert (Hn : orders w0 !! n = Some limit).
  { rewrite Ho0, Ho1. rewrite lookup_app_r by (unfold n; lia).
    by replace (n - length (orders w)) with 0 by (unfold n; lia). }
  rewrite (MatchingProofs.matchOrder_sell SplitAssetQuote candle n w0 limit asset quote);
    [|done|congruence|done|done|by rewrite Hlp].
  assert (Hsp' : sell_price limit candle = Some (Some price)).
  { unfold sell_price. rewrite Hlt, Hlpr. simpl.
    by rewrite (proj2 (Qle_bool_iff _ _) Hhigh). }
  rewrite Hsp'. cbn [mbind option_bind].
  set (wA := ensure_volume w0 (c_Pair candle)).
  assert (HoA : orders wA = orders w ++ [limit; stopOrder]).
  { unfold wA. by rewrite MatchingProofs.orders_ensure_volume, Ho0. }
  assert (HaA : assets wA = assets w1).
  { unfold wA. by rewrite MatchingProofs.assets_ensure_volume. }
  destruct (sell_fill_group candle limit stopOrder price asset quote (counter w + 1)%Z
              (orders w) wA HoA) as (w' & Hsf & Ho' & Hfq & Hla & Hvol & Hfo & Hlo & Hk');
    [eapply Forall_impl; [exact Hbook|]; simpl; intros o [_ Hg] Hgo;
       specialize (Hg _ Hgo); lia
    |done|done|done|by rewrite HaA|by rewrite HaA|].
  fold n in Hsf. rewrite Hsf. cbn [mbind option_bind].
  (* the stop leg *)
  rewrite (MatchingProofs.matchOrder_skip SplitAssetQuote candle (n + 1) w' stop');
    [|rewrite Ho'; rewrite lookup_app_r by (unfold n; lia);
      by replace (n + 1 - length (orders w)) with 1 by (unfold n; lia)
     |by right].
  cbn [mbind option_bind].
  assert (HbA : forall a, balance wA a = balance w1 a).
  { intros a. unfold balance. by rewrite HaA. }
  assert (HvA : volume_of wA pair = volume_of w1 pair).
  { unfold wA. rewrite MatchingProofs.volume_of_ensure_volume. unfold volume_of.
    by rewrite Hv0. }
  assert (Hfin : exists w2,
            (if c_Complete candle then record_equity ToUpper candle w' else Some w') = Some w2 /\
            orders w2 = orders w' /\ assets w2 = assets w' /\ volume w2 = volume w').
  { destruct (c_Complete candle) eqn:Hcomp; [|by exists w'].
    apply record_equity_returns.
    assert (HkA : keeps_entries w0 wA) by apply keeps_entries_volume.
    assert (Hk0 : keeps_entries w1 w0) by (by apply keeps_entries_same).
    assert (Hk : keeps_entries w w').
    { repeat (eapply keeps_entries_trans; [eassumption|]). apply keeps_entries_refl. }
    destruct Hk as [-> Hk]. apply Hk, Hbase. reflexivity. }
  destruct Hfin as (w2 & Hw2 & Ho2 & Ha2 & Hv2).
  exists w2.
  assert (Hb2 : forall a, balance w2 a = balance w' a).
  { intros a. unfold balance. by rewrite Ha2. }
  split; [exact Hw2|].
  split; [by rewrite Ho2|].
  split; [unfold free; rewrite Hb2; fold (free w' quote); rewrite Hfq, Hlq;
          unfold free; by rewrite HbA|].
  split; [unfold lock; rewrite Hb2; fold (lock w' asset); rewrite Hla, Hlq;
          unfold lock; by rewrite HbA|].
  split; [unfold volume_of; rewrite Hv2; fold (volume_of w' pair);
          rewrite <- Hpair at 1; rewrite Hvol, Hlq, Hpair, HvA; done|].
  split.
  - intros a Hne. unfold free. rewrite Hb2. fold (free w' a). rewrite Hfo by done.
    unfold free. by rewrite HbA.
  - intros a Hne. unfold lock. rewrite Hb2. fold (lock w' a). rewrite Hlo by done.
    unfold lock. by rewrite HbA.
Qed.

End Oco.

Lemma sell_oco_cancels_sibling_witness :
  exists w1 limit stopOrder w2,
    CreateOrderOCO SplitAssetQuote SideTypeSell "BTCUSDT" 1 120 90 90 (wallet 0 1 100)
      = (inr [limit; stopOrder], w1) /\
    OnCandle SplitAssetQuote ToUpper
             (mkCandle "BTCUSDT" 60 60 100 100 85 125 1 true ∅) w1 = Some w2 /\
    orders w2 = [with_status limit OrderStatusTypeFilled 60;
                 with_status stopOrder OrderStatusTypeCanceled 60] /\
    free w2 "USDT" = (free w1 "USDT" + 1 * 120)%Q /\
    lock w2 "BTC" = (lock w1 "BTC" - 1)%Q.
Proof.
  destruct (CreateOrderOCO SplitAssetQuote SideTypeSell "BTCUSDT" 1 120 90 90
              (wallet 0 1 100)) as [[err|os] w1] eqn:E; [by vm_compute in E|].
  destruct (sell_oco_cancels_sibling SplitAssetQuote ToUpper "BTCUSDT" "BTC" "USDT"
              1 120 90 90 (mkCandle "BTCUSDT" 60 60 100 100 85 125 1 true ∅)
              (wallet 0 1 100) w1 os)
    as (limit & stopOrder & w2 & -> & _ & _ & _ & _ & _ & _ & _ & Hrun & Ho & Hf & Hl & _);
    [reflexivity|constructor|exact E|reflexivity|by vm_compute
    |intros _; vm_compute; by eexists|].
  exists w1, limit, stopOrder, w2. done.
Defined.

End OcoProofs.
